(** * Zulu morphological analyzer (src/server.js, class ZuluMorphAnalyzer)

    A shallow embedding of the segmentation engine of the NLP pipeline:
    the rule tables, [analyzeWord], [getNounBasicPrefix],
    [formatMorphAnalysis] and [analyzeText], followed by the properties
    the design document states about them.

    Strings.  A JavaScript string is a sequence of UTF-16 code units.  The
    development works with the strings whose code units lie in
    U+0000..U+00FF: a [string] of Rocq is read as that sequence of code
    units, and [toLowerCase], [trim] and the class [\s] are the ones of
    ECMAScript restricted to that range.

    Numbers.  Every JavaScript number of the code (lengths, indices, noun
    classes, line numbers) is an integer and is modelled in [Z]. *)

From Stdlib Require Import String Ascii List ZArith NArith Lia Bool.
From Stdlib Require Import DecimalString.
Import ListNotations.

Local Open Scope string_scope.
Local Open Scope Z_scope.

(** ** The string primitives the analyzer calls *)

Module JS.

(** [s.length] *)
Definition length (s : string) : Z := Z.of_nat (String.length s).

(** [s.startsWith(p)] *)
Fixpoint startsWith (s p : string) : bool :=
  match p, s with
  | EmptyString, _ => true
  | String _ _, EmptyString => false
  | String b p', String a s' => Ascii.eqb a b && startsWith s' p'
  end.

Fixpoint skip (n : nat) (s : string) : string :=
  match n, s with
  | O, _ => s
  | S _, EmptyString => EmptyString
  | S n', String _ s' => skip n' s'
  end.

Fixpoint take (n : nat) (s : string) : string :=
  match n, s with
  | O, _ => EmptyString
  | S _, EmptyString => EmptyString
  | S n', String a s' => String a (take n' s')
  end.

(** An index argument is clamped to [0 .. s.length]. *)
Definition clamp (s : string) (i : Z) : nat :=
  Z.to_nat (Z.min (Z.max i 0) (length s)).

(** [s.substring(from, to)]: both ends clamped, swapped when out of
    order. *)
Definition substring (s : string) (from to : Z) : string :=
  let a := clamp s from in
  let b := clamp s to in
  take (Nat.max a b - Nat.min a b) (skip (Nat.min a b) s).

(** [s.substring(from)]: the end defaults to [s.length]. *)
Definition substring1 (s : string) (from : Z) : string :=
  substring s from (length s).

(** [s.indexOf(p)]: the index of the leftmost occurrence, [-1] when
    there is none. *)
Fixpoint indexOf (s p : string) : Z :=
  if startsWith s p then 0
  else match s with
       | EmptyString => -1
       | String _ s' => let i := indexOf s' p in
                        if i <? 0 then -1 else i + 1
       end.

(** [s.includes(p)] *)
Fixpoint includes (s p : string) : bool :=
  startsWith s p ||
  match s with
  | EmptyString => false
  | String _ s' => includes s' p
  end.

(** [s.endsWith(p)] *)
Definition endsWith (s p : string) : bool :=
  (length p <=? length s) &&
  String.eqb (substring1 s (length s - length p)) p.

(** Lower-case mapping of one code unit of U+0000..U+00FF: [A-Z] and
    the capital letters U+00C0..U+00DE (U+00D7, the multiplication sign,
    is no letter) move up by 32. *)
Definition lowerChar (c : ascii) : ascii :=
  let n := N_of_ascii c in
  if ((65 <=? n) && (n <=? 90) ||
      (192 <=? n) && (n <=? 222) && negb (n =? 215))%N
  then ascii_of_N (n + 32)
  else c.

(** [s.toLowerCase()] *)
Fixpoint toLowerCase (s : string) : string :=
  match s with
  | EmptyString => EmptyString
  | String c s' => String (lowerChar c) (toLowerCase s')
  end.

(** White space and line terminators (what [trim] strips and [\s]
    matches): TAB, LF, VT, FF, CR, SP and NBSP. *)
Definition isWhiteSpace (c : ascii) : bool :=
  let n := N_of_ascii c in
  ((9 <=? n) && (n <=? 13) || (n =? 32) || (n =? 160))%N.

Fixpoint trimStart (s : string) : string :=
  match s with
  | EmptyString => EmptyString
  | String c s' => if isWhiteSpace c then trimStart s' else s
  end.

(** Drops the white space at the end: a white-space character stays
    only when something that stays follows it. *)
Fixpoint trimEnd (s : string) : string :=
  match s with
  | EmptyString => EmptyString
  | String c s' =>
      match trimEnd s' with
      | EmptyString => if isWhiteSpace c then EmptyString
                       else String c EmptyString
      | t => String c t
      end
  end.

(** [s.trim()] *)
Definition trim (s : string) : string := trimEnd (trimStart s).

(** [s.split(sep)] for a separator of one character: the pieces between
    the separators, empty ones included; [[""]] for the empty string. *)
Fixpoint split (s : string) (sep : ascii) : list string :=
  match s with
  | EmptyString => [EmptyString]
  | String c s' =>
      if Ascii.eqb c sep then EmptyString :: split s' sep
      else match split s' sep with
           | [] => [String c EmptyString]
           | piece :: pieces => String c piece :: pieces
           end
  end.

(** [s.split(/\s+/)]: the pieces between the maximal runs of white
    space; a run at either end leaves an empty piece there.  [skipping]
    says that the character before [s] belongs to a run that has cut the
    string already. *)
Fixpoint splitWhiteSpace_aux (skipping : bool) (s : string) : list string :=
  match s with
  | EmptyString => [EmptyString]
  | String c s' =>
      if isWhiteSpace c then
        if skipping then splitWhiteSpace_aux true s'
        else EmptyString :: splitWhiteSpace_aux true s'
      else match splitWhiteSpace_aux false s' with
           | [] => [String c EmptyString]
           | piece :: pieces => String c piece :: pieces
           end
  end.

Definition splitWhiteSpace (s : string) : list string :=
  splitWhiteSpace_aux false s.

(** [parts.join(sep)] *)
Fixpoint join (parts : list string) (sep : string) : string :=
  match parts with
  | [] => EmptyString
  | [p] => p
  | p :: rest => p ++ sep ++ join rest sep
  end.

(** The decimal rendering of an integer, as a template literal does
    it. *)
Definition numberToString (n : Z) : string :=
  NilEmpty.string_of_int (Z.to_int n).

End JS.

(** ** Values and objects *)

(** The values that can end up in a field of a morpheme: strings, and what
    a property read can find on [Object.prototype]. *)
Inductive JSValue : Type :=
| Undefined
| Str (s : string)
| NativeFunction (name : string)
| ObjectPrototype.

Coercion Str : string >-> JSValue.

(** The condition of an [if]. *)
Definition truthy (v : JSValue) : bool :=
  match v with
  | Undefined => false
  | Str s => negb (String.eqb s "")
  | NativeFunction _ => true
  | ObjectPrototype => true
  end.

(** Conversion to a string inside a template literal. *)
Definition toString (v : JSValue) : string :=
  match v with
  | Undefined => "undefined"
  | Str s => s
  | NativeFunction name => "function " ++ name ++ "() { [native code] }"
  | ObjectPrototype => "[object Object]"
  end.

(** An object written as a literal: its own enumerable properties, in the
    order [for ... in] visits them (insertion order; none of the iterated
    tables has an integer-like key). *)
Definition JSObject (V : Type) : Type := list (string * V).

(** Defining a property: a key that is present keeps its place and takes
    the new value, a new key goes to the end. *)
Fixpoint setProperty {V : Type} (o : JSObject V) (k : string) (v : V)
  : JSObject V :=
  match o with
  | [] => [(k, v)]
  | (k', v') :: o' =>
      if String.eqb k' k then (k', v) :: o'
      else (k', v') :: setProperty o' k v
  end.

(** Evaluation of [{ k1: v1, k2: v2, ... }], left to right. *)
Definition objectLiteral {V : Type} (props : list (string * V)) : JSObject V :=
  fold_left (fun o kv => setProperty o (fst kv) (snd kv)) props [].

Fixpoint getOwnProperty {V : Type} (o : JSObject V) (k : string) : option V :=
  match o with
  | [] => None
  | (k', v) :: o' => if String.eqb k' k then Some v else getOwnProperty o' k
  end.

(** The properties of [Object.prototype], which every object literal
    inherits.  None is enumerable, so [for ... in] never visits them; a
    read [o[k]] finds them when [o] has no own property [k].  The accessor
    [__proto__] yields the prototype of the object it is read on, which
    for a literal is [Object.prototype] itself. *)
Definition Object_prototype : JSObject JSValue :=
  [ ("constructor", NativeFunction "Object");
    ("__defineGetter__", NativeFunction "__defineGetter__");
    ("__defineSetter__", NativeFunction "__defineSetter__");
    ("hasOwnProperty", NativeFunction "hasOwnProperty");
    ("__lookupGetter__", NativeFunction "__lookupGetter__");
    ("__lookupSetter__", NativeFunction "__lookupSetter__");
    ("isPrototypeOf", NativeFunction "isPrototypeOf");
    ("propertyIsEnumerable", NativeFunction "propertyIsEnumerable");
    ("toString", NativeFunction "toString");
    ("valueOf", NativeFunction "valueOf");
    ("__proto__", ObjectPrototype);
    ("toLocaleString", NativeFunction "toLocaleString") ].

(** The read [o[k]] on an object whose own values are strings. *)
Definition get (o : JSObject string) (k : string) : JSValue :=
  match getOwnProperty o k with
  | Some s => Str s
  | None =>
      match getOwnProperty Object_prototype k with
      | Some v => v
      | None => Undefined
      end
  end.

(** ** The data model *)

Record Morpheme : Type := { morph : JSValue; tag : JSValue }.

(** A value of the noun-prefix table, [{ class: ..., type: ... }]. *)
Record PrefixInfo : Type := { class : Z; type : string }.

(** The fields of an analyzer instance. *)
Record ZuluMorphAnalyzer : Type := {
  nounPrefixes : JSObject PrefixInfo;
  verbExtensions : JSObject string;
  commonMorphemes : JSObject string;
  quantifiers : JSObject string;
  vocabulary : JSObject string;
  verbRoots : list string
}.

(** The noun-prefix table as the source writes it, ["umu"] twice. *)
Definition nounPrefixes_declared : list (string * PrefixInfo) :=
  [ ("umu", {| class := 1; type := "NPrePre1" |});
    ("aba", {| class := 2; type := "NPrePre2" |});
    ("umu", {| class := 3; type := "NPrePre3" |});
    ("imi", {| class := 4; type := "NPrePre4" |});
    ("ili", {| class := 5; type := "NPrePre5" |});
    ("ama", {| class := 6; type := "NPrePre6" |});
    ("isi", {| class := 7; type := "NPrePre7" |});
    ("izi", {| class := 8; type := "NPrePre8" |});
    ("in", {| class := 9; type := "NPrePre9" |});
    ("izin", {| class := 10; type := "NPrePre10" |});
    ("ulu", {| class := 11; type := "NPrePre11" |});
    ("ubu", {| class := 14; type := "NPrePre14" |});
    ("uku", {| class := 15; type := "NPrePre15" |}) ].

Definition verbExtensions_declared : list (string * string) :=
  [ ("el", "ApplExt"); ("an", "RecExt"); ("akal", "NeutExt");
    ("is", "CausExt"); ("w", "PassExt") ].

Definition commonMorphemes_declared : list (string * string) :=
  [ ("nga", "AdvPre"); ("ka", "AdvPre"); ("na", "AdvPre");
    ("ku", "LocPre"); ("e", "LocPre"); ("s", "PreLoc-s");
    ("wa", "PossConc3"); ("ya", "PossConc4"); ("za", "PossConc10");
    ("kwa", "PossConc15"); ("ng", "CopPre"); ("o", "RelConc3");
    ("ezi", "RelConc10"); ("eli", "RelConc5"); ("aba", "RelConc2") ].

Definition quantifiers_declared : list (string * string) :=
  [ ("dwa", "QuantStem"); ("nye", "AdjStem"); ("bili", "AdjStem") ].

Definition vocabulary_declared : list (string * string) :=
  [ ("jongo", "NStem"); ("konzo", "NStem"); ("website", "Foreign");
    ("Ningizimu", "ProperName"); ("Afrika", "ProperName");
    ("thol", "VRoot"); ("thombo", "NStem"); ("azi", "NStem");
    ("hulumeni", "NStem"); ("phungul", "VRoot"); ("gebe", "NStem");
    ("khona", "Adv"); ("phakathi", "Adv"); ("ndla", "NStem");
    ("notho", "NStem"); ("khakha", "NStem"); ("qal", "VRoot") ].

(** [initializeMorphPatterns()] assigns the four pattern tables. *)
Definition initializeMorphPatterns (this : ZuluMorphAnalyzer)
  : ZuluMorphAnalyzer :=
  {| nounPrefixes := objectLiteral nounPrefixes_declared;
     verbExtensions := objectLiteral verbExtensions_declared;
     commonMorphemes := objectLiteral commonMorphemes_declared;
     quantifiers := objectLiteral quantifiers_declared;
     vocabulary := vocabulary this;
     verbRoots := verbRoots this |}.

(** [initializeVocabulary()] assigns the vocabulary and the verb roots. *)
Definition initializeVocabulary (this : ZuluMorphAnalyzer)
  : ZuluMorphAnalyzer :=
  {| nounPrefixes := nounPrefixes this;
     verbExtensions := verbExtensions this;
     commonMorphemes := commonMorphemes this;
     quantifiers := quantifiers this;
     vocabulary := objectLiteral vocabulary_declared;
     verbRoots := ["thol"; "phungul"; "qal"; "phak"; "khon"; "fund"; "bon";
                   "sebenz"; "hlol"] |}.

(** [new ZuluMorphAnalyzer()]: the constructor runs both initializers on
    an instance without fields. *)
Definition new_ZuluMorphAnalyzer : ZuluMorphAnalyzer :=
  initializeVocabulary
    (initializeMorphPatterns
       {| nounPrefixes := []; verbExtensions := []; commonMorphemes := [];
          quantifiers := []; vocabulary := []; verbRoots := [] |}).

(** [const zuluAnalyzer = new ZuluMorphAnalyzer()] *)
Definition zuluAnalyzer : ZuluMorphAnalyzer := new_ZuluMorphAnalyzer.

(** [getNounBasicPrefix(nounClass)]: a read of the local literal at the
    key the number converts to. *)
Definition basicPrefixes : JSObject string :=
  objectLiteral
    [ ("1", "mu"); ("2", "ba"); ("3", "mu"); ("4", "mi"); ("5", "li");
      ("6", "ma"); ("7", "si"); ("8", "zi"); ("9", "n"); ("10", "zin");
      ("11", "lu"); ("14", "bu"); ("15", "ku") ].

Definition getNounBasicPrefix (nounClass : Z) : JSValue :=
  get basicPrefixes (JS.numberToString nounClass).

(** ** analyzeWord *)

(** [/^[.,!?;:]$/.test(word)]: the word is one of the six characters. *)
Definition isPunctuation (word : string) : bool :=
  match word with
  | String c EmptyString =>
      existsb (Ascii.eqb c) ["."; ","; "!"; "?"; ";"; ":"]%char
  | _ => false
  end.

(** [/^[A-Z]/.test(word)] *)
Definition startsWithCapital (word : string) : bool :=
  match word with
  | String c _ => let n := N_of_ascii c in ((65 <=? n) && (n <=? 90))%N
  | EmptyString => false
  end.

(** What one of the five rule blocks of the loop body leaves behind when
    it sets [found]: the morphemes it pushed and the new [remaining]. *)
Definition Found : Type := (list Morpheme * string)%type.

(** What the noun-prefix block pushes for the entry it matched: the first
    character of the pattern and, for a pattern of more than one character
    whose class has a basic prefix, that basic prefix. *)
Definition pushNounPrefix (prefix : string) (prefixInfo : PrefixInfo)
  : list Morpheme :=
  let first :=
    {| morph := JS.substring prefix 0 1; tag := type prefixInfo |} in
  if 1 <? JS.length prefix then
    let basicPrefix := getNounBasicPrefix (class prefixInfo) in
    if truthy basicPrefix then
      [first;
       {| morph := basicPrefix;
          tag := "BPre" ++ JS.numberToString (class prefixInfo) |}]
    else [first]
  else [first].

(** [for (let prefix in this.nounPrefixes)]; an entry carries the key and
    the value [this.nounPrefixes[prefix]]. *)
Fixpoint checkNounPrefixes (entries : JSObject PrefixInfo) (remaining : string)
  : option Found :=
  match entries with
  | [] => None
  | (prefix, prefixInfo) :: rest =>
      if JS.startsWith remaining prefix then
        Some (pushNounPrefix prefix prefixInfo,
              JS.substring1 remaining (JS.length prefix))
      else checkNounPrefixes rest remaining
  end.

(** [for (let morpheme in this.commonMorphemes)] *)
Fixpoint checkCommonMorphemes (entries : JSObject string) (remaining : string)
  : option Found :=
  match entries with
  | [] => None
  | (morpheme, t) :: rest =>
      if JS.startsWith remaining morpheme then
        Some ([{| morph := morpheme; tag := t |}],
              JS.substring1 remaining (JS.length morpheme))
      else checkCommonMorphemes rest remaining
  end.

(** [for (let ext in this.verbExtensions)] *)
Fixpoint checkVerbExtensions (entries : JSObject string) (remaining : string)
  : option Found :=
  match entries with
  | [] => None
  | (ext, t) :: rest =>
      if JS.includes remaining ext then
        let index := JS.indexOf remaining ext in
        if 0 <? index then
          let root := JS.substring remaining 0 index in
          Some ([{| morph := root; tag := "VRoot" |};
                 {| morph := ext; tag := t |}],
                JS.substring1 remaining (index + JS.length ext))
        else checkVerbExtensions rest remaining
      else checkVerbExtensions rest remaining
  end.

(** The verb-termination block. *)
Definition checkVerbTermination (remaining : string) : option Found :=
  if JS.endsWith remaining "a" && (1 <? JS.length remaining) then
    let root := JS.substring remaining 0 (JS.length remaining - 1) in
    if 0 <? JS.length root then
      Some ([{| morph := root; tag := "VRoot" |};
             {| morph := "a"; tag := "VerbTerm" |}], "")
    else None
  else None.

(** [for (let quant in this.quantifiers)] *)
Fixpoint checkQuantifiers (entries : JSObject string) (remaining : string)
  : option Found :=
  match entries with
  | [] => None
  | (quant, t) :: rest =>
      if String.eqb remaining quant then
        Some ([{| morph := quant; tag := t |}], "")
      else checkQuantifiers rest remaining
  end.

(** How one pass through the body of the [while] ends. *)
Inductive Iteration : Type :=
| Continue (pushed : list Morpheme) (remaining : string)
| Break (pushed : list Morpheme).

(** The body of the loop: the blocks in order, [if (found) continue]
    after each, the stem and [break] at the end. *)
Definition loopBody (this : ZuluMorphAnalyzer) (remaining : string)
  : Iteration :=
  match checkNounPrefixes (nounPrefixes this) remaining with
  | Some (pushed, remaining') => Continue pushed remaining'
  | None =>
  match checkCommonMorphemes (commonMorphemes this) remaining with
  | Some (pushed, remaining') => Continue pushed remaining'
  | None =>
  match checkVerbExtensions (verbExtensions this) remaining with
  | Some (pushed, remaining') => Continue pushed remaining'
  | None =>
  match checkVerbTermination remaining with
  | Some (pushed, remaining') => Continue pushed remaining'
  | None =>
  match checkQuantifiers (quantifiers this) remaining with
  | Some (pushed, remaining') => Continue pushed remaining'
  | None => Break [{| morph := remaining; tag := "NStem" |}]
  end end end end end.

(** [while (remaining.length > 0) { ... }].  One unit of fuel pays for
    one pass through the body; [None] means the fuel ran out. *)
Fixpoint whileLoop (fuel : nat) (this : ZuluMorphAnalyzer)
  (remaining : string) (morphemes : list Morpheme)
  : option (list Morpheme) :=
  if 0 <? JS.length remaining then
    match fuel with
    | O => None
    | S fuel' =>
        match loopBody this remaining with
        | Continue pushed remaining' =>
            whileLoop fuel' this remaining' (morphemes ++ pushed)%list
        | Break pushed => Some (morphemes ++ pushed)%list
        end
    end
  else Some morphemes.

(** [analyzeWord(word)] *)
Definition analyzeWord (fuel : nat) (this : ZuluMorphAnalyzer) (word : string)
  : option (list Morpheme) :=
  let originalWord := word in
  let remaining := JS.toLowerCase word in
  if isPunctuation word then
    Some [{| morph := word; tag := "Punc" |}]
  else if truthy (get (vocabulary this) remaining) then
    Some [{| morph := remaining; tag := get (vocabulary this) remaining |}]
  else if startsWithCapital originalWord && (2 <? JS.length originalWord) then
    Some [{| morph := originalWord; tag := "ProperName" |}]
  else
    match whileLoop fuel this remaining [] with
    | None => None
    | Some morphemes =>
        Some (if 0 <? Z.of_nat (List.length morphemes) then morphemes
              else [{| morph := originalWord; tag := "Unknown" |}])
    end.

(** ** formatMorphAnalysis and analyzeText *)

(** [formatMorphAnalysis(word, morphemes)] *)
Definition formatMorphAnalysis (word : string) (morphemes : list Morpheme)
  : string :=
  let parts :=
    map (fun m => toString (morph m) ++ "[" ++ toString (tag m) ++ "]")
        morphemes in
  JS.join parts "-".

(** Sequencing of computations that may run out of fuel. *)
Definition bind {A B : Type} (x : option A) (f : A -> option B) : option B :=
  match x with
  | Some a => f a
  | None => None
  end.

Notation "x <- e ;; k" := (bind e (fun x => k))
  (at level 61, e at next level, right associativity).

(** [xs.forEach((x, index) => ...)] where each call pushes one result:
    the results in order, [index] counting from [start]. *)
Fixpoint forEachIndexed {A B : Type} (f : A -> Z -> option B) (xs : list A)
  (start : Z) : option (list B) :=
  match xs with
  | [] => Some []
  | x :: xs' =>
      y <- f x start ;;
      ys <- forEachIndexed f xs' (start + 1) ;;
      Some (y :: ys)
  end.

(** [xs.forEach(x => ...)] where each call pushes one result. *)
Fixpoint forEach {A B : Type} (f : A -> option B) (xs : list A)
  : option (list B) :=
  match xs with
  | [] => Some []
  | x :: xs' =>
      y <- f x ;;
      ys <- forEach f xs' ;;
      Some (y :: ys)
  end.

(** The line feed, ['\n']. *)
Definition LF : ascii := "010"%char.

(** [analyzeText(text)] *)
Definition analyzeText (fuel : nat) (this : ZuluMorphAnalyzer) (text : string)
  : option string :=
  let lines :=
    filter (fun line => truthy (JS.trim line)) (JS.split text LF) in
  results <-
    forEachIndexed
      (fun line index =>
         let lineNumber := index + 1 in
         let words := JS.splitWhiteSpace (JS.trim line) in
         analyzedWords <-
           forEach
             (fun word =>
                morphemes <- analyzeWord fuel this word ;;
                Some (formatMorphAnalysis word morphemes))
             words ;;
         Some ("<LINE " ++ JS.numberToString lineNumber ++ ">"
               ++ JS.join analyzedWords " "))
      lines 0 ;;
  Some (JS.join results (String LF EmptyString)).


(** ** The wording of the design document, for comparison with the code *)

(** A line that is empty or holds white space only. *)
Fixpoint whiteSpaceOnly (line : string) : bool :=
  match line with
  | EmptyString => true
  | String c rest => JS.isWhiteSpace c && whiteSpaceOnly rest
  end.

(** The kept lines with their numbers: a discarded line takes no
    number. *)
Fixpoint numberKeptLines (next : Z) (lines : list string)
  : list (Z * string) :=
  match lines with
  | [] => []
  | line :: rest =>
      if whiteSpaceOnly line then numberKeptLines next rest
      else (next, line) :: numberKeptLines (next + 1) rest
  end.

(** The words of a line: its maximal runs of characters that are not
    white space, in order. *)
Fixpoint wordsOf (line : string) : list string :=
  match line with
  | EmptyString => []
  | String c rest =>
      if JS.isWhiteSpace c then wordsOf rest
      else
        match rest with
        | EmptyString => [String c EmptyString]
        | String d _ =>
            if JS.isWhiteSpace d then String c EmptyString :: wordsOf rest
            else match wordsOf rest with
                 | [] => [String c EmptyString]
                 | word :: words => String c word :: words
                 end
        end
  end.

(** One morpheme as [morph[TAG]]. *)
Definition renderMorpheme (m : Morpheme) : string :=
  toString (morph m) ++ "[" ++ toString (tag m) ++ "]".

(** A word: its morphemes in emission order, [-] between them. *)
Definition renderWord (morphemes : list Morpheme) : string :=
  JS.join (map renderMorpheme morphemes) "-".

(** A line: [<LINE n>] and, with no space in between, the words with one
    space between them.  [analyze] is the analysis of one word. *)
Definition renderLine (analyze : string -> option (list Morpheme))
  (numbered : Z * string) : option string :=
  analyses <- forEach analyze (wordsOf (snd numbered)) ;;
  Some ("<LINE " ++ JS.numberToString (fst numbered) ++ ">"
        ++ JS.join (map renderWord analyses) " ").

(** The whole text: the kept lines, numbered from 1, one block each, a
    line feed between the blocks. *)
Definition analyzeText_spec (analyze : string -> option (list Morpheme))
  (text : string) : option string :=
  blocks <- forEach (renderLine analyze)
              (numberKeptLines 1 (JS.split text LF)) ;;
  Some (JS.join blocks (String LF EmptyString)).

(** [p] occurs in [s] at index [i]. *)
Definition occursAt (s p : string) (i : Z) : Prop :=
  0 <= i /\ i + JS.length p <= JS.length s /\
  JS.startsWith (JS.skip (Z.to_nat i) s) p = true.

(** The loop body gets as far as the verb-extension block on
    [remaining]: neither a noun prefix nor a common morpheme starts it. *)
Definition reachesVerbExtensions (this : ZuluMorphAnalyzer)
  (remaining : string) : Prop :=
  0 < JS.length remaining /\
  checkNounPrefixes (nounPrefixes this) remaining = None /\
  checkCommonMorphemes (commonMorphemes this) remaining = None.

(** The verb-extension rule read as "the first pattern, in declared order,
    that occurs anywhere past index 0": when some pattern has such an
    occurrence, the body splits at an occurrence past index 0 of the first
    pattern that has one. *)
Definition splitsAtAnyOccurrence (this : ZuluMorphAnalyzer)
  (remaining : string) : Prop :=
  (exists ext t i,
      In (ext, t) (verbExtensions this) /\ 0 < i /\ occursAt remaining ext i) ->
  exists before ext t after index,
    verbExtensions this = (before ++ (ext, t) :: after)%list /\
    (forall e t' i, In (e, t') before -> 0 < i -> ~ occursAt remaining e i) /\
    0 < index /\ occursAt remaining ext index /\
    loopBody this remaining =
      Continue [{| morph := JS.substring remaining 0 index; tag := "VRoot" |};
                {| morph := ext; tag := t |}]
               (JS.substring1 remaining (index + JS.length ext)).

(** The fast paths of [analyzeWord] all decline [word], so the stripping
    loop runs on it. *)
Definition reachesLoop (this : ZuluMorphAnalyzer) (word : string) : Prop :=
  isPunctuation word = false /\
  truthy (get (vocabulary this) (JS.toLowerCase word)) = false /\
  startsWithCapital word && (2 <? JS.length word) = false.

(** ** Auxiliary notions of the proofs *)

(** The verb-extension block takes an entry exactly when the leftmost
    occurrence of its pattern lies past index 0. *)
Definition extensionFires (remaining ext : string) : bool :=
  0 <? JS.indexOf remaining ext.

(** Every key of the table is a non-empty string. *)
Definition nonEmptyKeys {V : Type} (o : JSObject V) : bool :=
  forallb (fun kv => negb (String.eqb (fst kv) EmptyString)) o.

(** The tables cannot make the loop spin: no noun prefix and no common
    morpheme is the empty pattern. *)
Definition progressTables (this : ZuluMorphAnalyzer) : bool :=
  nonEmptyKeys (nounPrefixes this) && nonEmptyKeys (commonMorphemes this).

(** The loop stops on [remaining] after exactly [n] passes through its
    body: [n] units of fuel are enough and fewer are not. *)
Definition stopsAfter (this : ZuluMorphAnalyzer) (remaining : string)
  (n : nat) : Prop :=
  forall fuel morphemes,
    (exists result, whileLoop fuel this remaining morphemes = Some result)
    <-> (n <= fuel)%nat.

(** The morphemes a call of [analyzeWord] on a non-empty word can return,
    one case per place of the code that builds one. *)
Inductive Emitted (this : ZuluMorphAnalyzer) : Morpheme -> Prop :=
| Emitted_punctuation (word : string) :
    isPunctuation word = true ->
    Emitted this {| morph := word; tag := "Punc" |}
| Emitted_vocabulary (key : string) :
    key <> EmptyString ->
    truthy (get (vocabulary this) key) = true ->
    Emitted this {| morph := key; tag := get (vocabulary this) key |}
| Emitted_properName (word : string) :
    word <> EmptyString ->
    Emitted this {| morph := word; tag := "ProperName" |}
| Emitted_nounPrefix (prefix : string) (info : PrefixInfo) (m : Morpheme) :
    In (prefix, info) (nounPrefixes this) ->
    In m (pushNounPrefix prefix info) ->
    Emitted this m
| Emitted_commonMorpheme (morpheme t : string) :
    In (morpheme, t) (commonMorphemes this) ->
    Emitted this {| morph := morpheme; tag := t |}
| Emitted_verbRoot (root : string) :
    root <> EmptyString ->
    Emitted this {| morph := root; tag := "VRoot" |}
| Emitted_verbExtension (ext t : string) :
    In (ext, t) (verbExtensions this) ->
    Emitted this {| morph := ext; tag := t |}
| Emitted_verbTerm :
    Emitted this {| morph := "a"; tag := "VerbTerm" |}
| Emitted_quantifier (quant t : string) :
    In (quant, t) (quantifiers this) ->
    Emitted this {| morph := quant; tag := t |}
| Emitted_stem (stem : string) :
    stem <> EmptyString ->
    Emitted this {| morph := stem; tag := "NStem" |}.

(** The morphemes one pass through the body pushes. *)
Definition pushedBy (it : Iteration) : list Morpheme :=
  match it with
  | Continue pushed _ => pushed
  | Break pushed => pushed
  end.

(** The morph of [m] is a non-empty string. *)
Definition hasMorph (m : Morpheme) : bool :=
  match morph m with
  | Str s => negb (String.eqb s EmptyString)
  | _ => false
  end.

(** The tag of [m] is the string [t]. *)
Definition tagIs (t : string) (m : Morpheme) : bool :=
  match tag m with
  | Str s => String.eqb s t
  | _ => false
  end.

(** A check of every entry of a table. *)
Definition everyEntry {V : Type} (check : string -> V -> bool)
  (o : JSObject V) : bool :=
  forallb (fun kv => check (fst kv) (snd kv)) o.

(** No character of [s] is a capital letter [A-Z]. *)
Fixpoint noCapital (s : string) : bool :=
  match s with
  | EmptyString => true
  | String c s' =>
      let n := N_of_ascii c in
      negb ((65 <=? n) && (n <=? 90))%N && noCapital s'
  end.

(** The noun classes the basic-prefix table declares. *)
Definition declaredClasses : list Z :=
  [1; 2; 3; 4; 5; 6; 7; 8; 9; 10; 11; 14; 15].

(** No place of the code that builds a morpheme can give it the tag
    [bad]: neither an entry of a table nor one of the fixed tags. *)
Definition neverTagged (bad : string) (this : ZuluMorphAnalyzer) : bool :=
  everyEntry (fun p i => forallb (fun m => negb (tagIs bad m))
                           (pushNounPrefix p i))
             (nounPrefixes this)
  && everyEntry (fun _ t => negb (String.eqb t bad)) (commonMorphemes this)
  && everyEntry (fun _ t => negb (String.eqb t bad)) (verbExtensions this)
  && everyEntry (fun _ t => negb (String.eqb t bad)) (quantifiers this)
  && everyEntry (fun _ t => negb (String.eqb t bad)) (vocabulary this)
  && forallb (fun t => negb (String.eqb t bad))
       ["Punc"; "ProperName"; "VRoot"; "VerbTerm"; "NStem"; "Unknown"].

(** What the noun-prefix block does on [remaining] when it matches
    [prefix]: the body pushes the first character of the pattern under the
    type of the entry and, for a pattern of more than one character, the
    basic prefix of the class under ["BPre" + class]; [remaining] loses
    the whole pattern. *)
Definition emitsFirstCharConsumesPattern (this : ZuluMorphAnalyzer)
  (remaining prefix : string) (info : PrefixInfo) : Prop :=
  exists c tail basicPrefix remaining',
    prefix = String c tail /\
    remaining = prefix ++ remaining' /\
    getNounBasicPrefix (class info) = Str basicPrefix /\
    loopBody this remaining =
      Continue
        ({| morph := String c EmptyString; tag := type info |}
         :: if 1 <? JS.length prefix
            then [{| morph := basicPrefix;
                     tag := "BPre" ++ JS.numberToString (class info) |}]
            else [])
        remaining'.

(** An entry of the noun-prefix table has a non-empty pattern and a class
    whose basic prefix is a non-empty string. *)
Definition soundPrefixEntry (prefix : string) (info : PrefixInfo) : bool :=
  negb (String.eqb prefix EmptyString) &&
  match getNounBasicPrefix (class info) with
  | Str s => negb (String.eqb s EmptyString)
  | _ => false
  end.

(** The verb-extension rule as the code has it: the body splits at the
    leftmost occurrence of the first pattern, in the order of the table,
    whose leftmost occurrence lies past index 0. *)
Definition splitsAtFirstLeftmost (this : ZuluMorphAnalyzer)
  (remaining : string) : Prop :=
  exists before ext t after root remaining',
    verbExtensions this = (before ++ (ext, t) :: after)%list /\
    (forall e t', In (e, t') before -> JS.indexOf remaining e <= 0) /\
    0 < JS.indexOf remaining ext /\
    occursAt remaining ext (JS.indexOf remaining ext) /\
    (forall i, occursAt remaining ext i -> JS.indexOf remaining ext <= i) /\
    root = JS.substring remaining 0 (JS.indexOf remaining ext) /\
    remaining = root ++ ext ++ remaining' /\
    loopBody this remaining =
      Continue [{| morph := root; tag := "VRoot" |};
                {| morph := ext; tag := t |}]
               remaining'.

(** The last character of [s] is not white space. *)
Fixpoint endsWithWord (s : string) : bool :=
  match s with
  | EmptyString => false
  | String c EmptyString => negb (JS.isWhiteSpace c)
  | String _ s' => endsWithWord s'
  end.

(** The first character of [s] is not white space. *)
Definition startsWithWord (s : string) : bool :=
  match s with
  | EmptyString => false
  | String c _ => negb (JS.isWhiteSpace c)
  end.

(** The lower-case strings on which the read [this.vocabulary[...]] is
    truthy: the declared keys without a capital letter, and the two names
    of [Object.prototype] without one. *)
Definition vocabularyHits : list string :=
  ["jongo"; "konzo"; "website"; "thol"; "thombo"; "azi"; "hulumeni";
   "phungul"; "gebe"; "khona"; "phakathi"; "ndla"; "notho"; "khakha"; "qal";
   "constructor"; "__proto__"].

(** Proof steps over the finite tables: choosing the member of a list
    that the goal names, and going through the entries of a table. *)
Ltac pick_member :=
  repeat first [left; reflexivity | right].

Ltac table_cases H :=
  simpl in H;
  repeat (destruct H as [H|H];
          [injection H as <- _;
           first [discriminate | pick_member]|]);
  try contradiction.

(** One step through the [for ... in] of the noun-prefix block, read off
    the hypothesis [H] that states its result: the test of the next
    pattern succeeds or fails. *)
Ltac next_prefix H :=
  match type of H with
  | (if JS.startsWith ?r ?p then _ else _) = _ =>
      destruct (JS.startsWith r p) eqn:?
  end.


(** ** Notions for the further properties of the analyzer *)

(** The text a sequence of morphemes spells: the morphs one after the
    other, as [morphemes.map(m => m.morph).join('')] would give it. *)
Fixpoint surface (morphemes : list Morpheme) : string :=
  match morphemes with
  | [] => EmptyString
  | m :: rest => toString (morph m) ++ surface rest
  end.

(** The morphemes pushed for an entry of the noun-prefix table spell its
    pattern. *)
Definition spellsPattern (prefix : string) (info : PrefixInfo) : bool :=
  String.eqb (surface (pushNounPrefix prefix info)) prefix.

(** No block of the loop body can give a morpheme the tag [bad]:
    neither an entry of one of the four tables the loop reads nor one of
    the three tags the body writes out. *)
Definition loopNeverTags (bad : string) (this : ZuluMorphAnalyzer) : bool :=
  everyEntry (fun p i => forallb (fun m => negb (tagIs bad m))
                           (pushNounPrefix p i))
             (nounPrefixes this)
  && everyEntry (fun _ t => negb (String.eqb t bad)) (commonMorphemes this)
  && everyEntry (fun _ t => negb (String.eqb t bad)) (verbExtensions this)
  && everyEntry (fun _ t => negb (String.eqb t bad)) (quantifiers this)
  && forallb (fun t => negb (String.eqb t bad)) ["VRoot"; "VerbTerm"; "NStem"].

(** The six strings the punctuation test accepts. *)
Definition punctuationMarks : list string :=
  ["."; ","; "!"; "?"; ";"; ":"].

(** The tags of the table entries that an earlier entry or an earlier
    block always beats: the noun prefix ["izin"] (["izi"] comes first),
    the common morphemes ["ezi"] and ["eli"] (["e"] comes first) and
    ["aba"] (the noun prefix ["aba"] comes first), and the quantifier
    ["dwa"] (the verb extension ["w"] splits it). *)
Definition shadowedTags : list string :=
  ["NPrePre10"; "BPre10"; "RelConc10"; "RelConc5"; "RelConc2"; "QuantStem"].

Definition isShadowed (m : Morpheme) : bool :=
  existsb (fun t => tagIs t m) shadowedTags.

(** One step through a [for ... in] block, read off the hypothesis [H]
    that states its result: the test of the next entry succeeds or
    fails. *)
Ltac next_entry H :=
  match type of H with
  | (if ?test then _ else _) = _ => destruct test eqn:?
  end.

(** [s] holds no line feed. *)
Fixpoint noLineFeed (s : string) : bool :=
  match s with
  | EmptyString => true
  | String c s' => negb (Ascii.eqb c LF) && noLineFeed s'
  end.

(** [s] holds no white space. *)
Fixpoint noWhiteSpace (s : string) : bool :=
  match s with
  | EmptyString => true
  | String c s' => negb (JS.isWhiteSpace c) && noWhiteSpace s'
  end.

(** The rendering of [m] in the output, [morph[TAG]], holds no line
    feed. *)
Definition rendersOnOneLine (m : Morpheme) : bool :=
  noLineFeed (toString (morph m)) && noLineFeed (toString (tag m)).

(** The kept lines of a text, in order: those that are not white space
    only. *)
Definition keptLines (text : string) : list string :=
  filter (fun line => negb (whiteSpaceOnly line)) (JS.split text LF).

(** ** The route [POST /api/process-text] *)

(** What a route answers: [res.json(body)], with status 200, or
    [res.status(status).json({ success: false, error })]. *)
Inductive Response (A : Type) : Type :=
| Ok (body : A)
| Failure (status : Z) (error : string).

Arguments Ok {A} body.
Arguments Failure {A} status error.

Record AnalysisMetadata : Type := {
  lines_processed : Z;
  processing_time : string;
  analyzer_version : string
}.

Record TextResult : Type := {
  success : bool;
  original_text : string;
  morphological_analysis : string;
  analysis_metadata : AnalysisMetadata
}.

(** The handler of [/api/process-text], for a body whose [text] is absent
    ([None]) or a string.  [now] is what [new Date().toISOString()]
    returns; the call of [console.log] leaves no trace in the answer.
    [analyzeText] does not throw on a string, so the [catch] is not
    entered. *)
Definition processText (fuel : nat) (now : string) (text : option string)
  : option (Response TextResult) :=
  match text with
  | None => Some (Failure 400 "No text provided for analysis")
  | Some text =>
      if negb (truthy (Str text)) then
        Some (Failure 400 "No text provided for analysis")
      else
        morphAnalysis <- analyzeText fuel zuluAnalyzer text ;;
        Some (Ok {| success := true;
                    original_text := text;
                    morphological_analysis := morphAnalysis;
                    analysis_metadata :=
                      {| lines_processed :=
                           Z.of_nat (List.length (JS.split morphAnalysis LF));
                         processing_time := now;
                         analyzer_version := "1.0.0" |} |})
  end.

(** ** The counts of the batch and file routes *)

(** [text.split(/\s+/).length] *)
Definition wordCount (text : string) : Z :=
  Z.of_nat (List.length (JS.splitWhiteSpace text)).

(** [text.split('\n').length] *)
Definition lineCount (text : string) : Z :=
  Z.of_nat (List.length (JS.split text LF)).

(** The words [analyzeText] analyses on a text: those of its kept lines,
    in order. *)
Definition analysedWords (text : string) : list string :=
  concat (map wordsOf (keptLines text)).

(** What [wordCount] counts besides the words: an empty piece before
    white space at the start, one after white space at the end, and the
    one piece of the empty text. *)
Definition emptyPieces (text : string) : Z :=
  match text with
  | EmptyString => 1
  | _ => (if startsWithWord text then 0 else 1)
         + (if endsWithWord text then 0 else 1)
  end.

(** ** The route [POST /api/process-batch] *)

Module Batch.

Record Item : Type := {
  index : Z;
  original_text : string;
  morphological_analysis : string;
  word_count : Z;
  line_count : Z
}.

Record Summary : Type := {
  total_texts : Z;
  total_words : Z;
  total_lines : Z;
  processing_time : string
}.

Record Body : Type := {
  success : bool;
  results : list Item;
  summary : Summary
}.

End Batch.

(** The handler of [/api/process-batch], for a body whose [texts] is an
    array of strings ([Some]) or is absent or no array ([None]).  The
    callback of [texts.map] gets the text and its index, from 0; the two
    [reduce] add the counts up from 0. *)
Definition processBatch (fuel : nat) (now : string)
  (texts : option (list string)) : option (Response Batch.Body) :=
  match texts with
  | None => Some (Failure 400 "Invalid texts array provided")
  | Some texts =>
      results <-
        forEachIndexed
          (fun text index =>
             morphAnalysis <- analyzeText fuel zuluAnalyzer text ;;
             Some {| Batch.index := index;
                     Batch.original_text := text;
                     Batch.morphological_analysis := morphAnalysis;
                     Batch.word_count := wordCount text;
                     Batch.line_count := lineCount text |})
          texts 0 ;;
      Some (Ok {| Batch.success := true;
                  Batch.results := results;
                  Batch.summary :=
                    {| Batch.total_texts := Z.of_nat (List.length texts);
                       Batch.total_words :=
                         fold_left (fun sum r => sum + Batch.word_count r)
                                   results 0;
                       Batch.total_lines :=
                         fold_left (fun sum r => sum + Batch.line_count r)
                                   results 0;
                       Batch.processing_time := now |} |})
  end.

(** The sum of a list of counts. *)
Definition total (counts : list Z) : Z := fold_right Z.add 0 counts.

(** ** TextExtractor and the route [POST /api/process-files] *)

(** How an asynchronous call ends: the promise resolves with a value or
    rejects with an error, of which the handlers read the message. *)
Inductive Outcome (A : Type) : Type :=
| Resolved (value : A)
| Rejected (message : string).

Arguments Resolved {A} value.
Arguments Rejected {A} message.

(** The functions of Node and of the packages [pdf-parse] and [mammoth]
    that the extractor calls; their code is not part of the repository.
    [Buffer_toString] is [buffer.toString('utf-8')], [pdf_text] is
    [(await pdf(buffer)).text], [mammoth_value] is
    [(await mammoth.extractRawText({ buffer })).value], [JSON_parse] and
    [JSON_stringify] are [JSON.parse(s)] and
    [JSON.stringify(v, null, 2)]. *)
Record Libraries : Type := {
  Json : Type;
  path_extname : string -> string;
  Buffer_toString : list Byte.byte -> string;
  pdf_text : list Byte.byte -> Outcome string;
  mammoth_value : list Byte.byte -> Outcome string;
  JSON_parse : string -> Outcome Json;
  JSON_stringify : Json -> string
}.

(** The body of the [try] of [extractFromFile]: the [switch] on the
    lower-case extension. *)
Definition extractByExtension (lib : Libraries) (buffer : list Byte.byte)
  (extension : string) : Outcome string :=
  if String.eqb extension ".txt" then Resolved (Buffer_toString lib buffer)
  else if String.eqb extension ".pdf" then pdf_text lib buffer
  else if String.eqb extension ".doc" || String.eqb extension ".docx" then
    mammoth_value lib buffer
  else if String.eqb extension ".json" then
    match JSON_parse lib (Buffer_toString lib buffer) with
    | Resolved jsonData => Resolved (JSON_stringify lib jsonData)
    | Rejected message => Rejected message
    end
  else if String.eqb extension ".csv" then
    Resolved (Buffer_toString lib buffer)
  else Rejected ("Unsupported file type: " ++ extension).

(** [TextExtractor.extractFromFile(buffer, filename, mimetype)]: whatever
    is thrown in the [try] is caught and thrown again under the name of
    the file. *)
Definition extractFromFile (lib : Libraries) (buffer : list Byte.byte)
  (filename mimetype : string) : Outcome string :=
  let extension := JS.toLowerCase (path_extname lib filename) in
  match extractByExtension lib buffer extension with
  | Resolved text => Resolved text
  | Rejected message =>
      Rejected ("Failed to extract text from " ++ filename ++ ": " ++ message)
  end.

(** A file as [multer] hands it over. *)
Record UploadedFile : Type := {
  originalname : string;
  buffer : list Byte.byte;
  size : Z;
  mimetype : string
}.

Module Files.

(** A record of [processed_files]: the one of a file that went through,
    or the one pushed in the [catch] of the loop. *)
Inductive FileResult : Type :=
| Completed (filename : string) (size : Z) (type : string)
    (extracted_text morphological_analysis : string)
    (word_count line_count : Z) (processing_timestamp : string)
| Failed (filename : string) (size : Z) (type : string)
    (error : string) (processing_timestamp : string).

Definition status (r : FileResult) : string :=
  match r with
  | Completed _ _ _ _ _ _ _ _ => "completed"
  | Failed _ _ _ _ _ => "failed"
  end.

Definition filename (r : FileResult) : string :=
  match r with
  | Completed f _ _ _ _ _ _ _ => f
  | Failed f _ _ _ _ => f
  end.

Record Summary : Type := {
  total_files : Z;
  successful : Z;
  failed : Z;
  processing_time : string
}.

Record Body : Type := {
  success : bool;
  processed_files : list FileResult;
  summary : Summary
}.

End Files.

(** One turn of [for (const file of files)]: the record it pushes.
    [timestamp] is what [new Date().toISOString()] returns in this
    turn. *)
Definition processFile (lib : Libraries) (fuel : nat) (timestamp : string)
  (file : UploadedFile) : option Files.FileResult :=
  match extractFromFile lib (buffer file) (originalname file) (mimetype file)
  with
  | Resolved extractedText =>
      morphAnalysis <- analyzeText fuel zuluAnalyzer extractedText ;;
      Some (Files.Completed (originalname file) (size file) (mimetype file)
              extractedText morphAnalysis
              (wordCount extractedText) (lineCount extractedText) timestamp)
  | Rejected message =>
      Some (Files.Failed (originalname file) (size file) (mimetype file)
              message timestamp)
  end.

(** The number of records with the given status,
    [results.filter(r => r.status === s).length]. *)
Definition countStatus (s : string) (results : list Files.FileResult) : Z :=
  Z.of_nat
    (List.length (filter (fun r => String.eqb (Files.status r) s) results)).

(** The handler of [/api/process-files].  [files] is [req.files], absent
    or an array; [options] is the field [req.body.options], absent or a
    string, which is parsed first ([parseOptions]) when it is not
    empty.  [clock k] is what
    the [k]-th evaluation (from 0) of [new Date().toISOString()] returns:
    one per file, then the one of the summary. *)
Definition parseOptions (lib : Libraries) (options : option string)
  : Outcome unit :=
  match options with
  | Some o => if truthy (Str o) then
                match JSON_parse lib o with
                | Resolved _ => Resolved tt
                | Rejected message => Rejected message
                end
              else Resolved tt
  | None => Resolved tt
  end.

Definition processFiles (lib : Libraries) (fuel : nat) (clock : nat -> string)
  (files : option (list UploadedFile)) (options : option string)
  : option (Response Files.Body) :=
  match parseOptions lib options with
  | Rejected message => Some (Failure 500 message)
  | Resolved _ =>
      match files with
      | None => Some (Failure 400 "No files uploaded")
      | Some [] => Some (Failure 400 "No files uploaded")
      | Some files =>
          results <-
            forEachIndexed
              (fun file index =>
                 processFile lib fuel (clock (Z.to_nat index)) file)
              files 0 ;;
          Some (Ok {| Files.success := true;
                      Files.processed_files := results;
                      Files.summary :=
                        {| Files.total_files := Z.of_nat (List.length files);
                           Files.successful := countStatus "completed" results;
                           Files.failed := countStatus "failed" results;
                           Files.processing_time :=
                             clock (List.length files) |} |})
      end
  end.

(** A stand-in for the libraries, for concrete runs: the extension is
    what follows the last dot, a buffer is read byte by byte, no PDF or
    Word document can be read, and every string is taken for JSON and
    printed as it is. *)
Fixpoint afterLastDot (name : string) : option string :=
  match name with
  | EmptyString => None
  | String c rest =>
      match afterLastDot rest with
      | Some extension => Some extension
      | None => if Ascii.eqb c "."%char then Some name else None
      end
  end.

Definition standIn : Libraries :=
  {| Json := string;
     path_extname := fun name =>
       match afterLastDot name with Some e => e | None => EmptyString end;
     Buffer_toString := fun bytes =>
       string_of_list_ascii (map Ascii.ascii_of_byte bytes);
     pdf_text := fun _ => Rejected "Invalid PDF structure";
     mammoth_value := fun _ => Rejected "Could not find file in options";
     JSON_parse := fun s => Resolved s;
     JSON_stringify := fun v => v |}.

(** The extraction of the text of [file] succeeds. *)
Definition extracts (lib : Libraries) (file : UploadedFile) : bool :=
  match extractFromFile lib (buffer file) (originalname file) (mimetype file)
  with
  | Resolved _ => true
  | Rejected _ => false
  end.

(** The rendering of the lines of a text, given the words of each kept
    line and the number of the first. *)
Fixpoint renderWordLists (analyze : string -> option (list Morpheme))
  (next : Z) (lines : list (list string)) : option (list string) :=
  match lines with
  | [] => Some []
  | words :: rest =>
      analyses <- forEach analyze words ;;
      blocks <- renderWordLists analyze (next + 1) rest ;;
      Some (("<LINE " ++ JS.numberToString next ++ ">"
             ++ JS.join (map renderWord analyses) " ") :: blocks)
  end.

(** The two names of [Object.prototype] that are in lower case. *)
Definition inheritedNames : list string := ["constructor"; "__proto__"].


(** * The heap a call works on

    [analyzeWord] is a method: it reads the tables through [this], builds
    its result in an array it creates, and hands back a reference to an
    array of references to objects.  To say what a call shares with the
    rest of the program, the store is made explicit here.  A cell is an
    analyzer instance (the tables its fields hold), an object
    [{ morph, tag }], or an array of references; a reference is the
    position of a cell, a new cell goes to the end of the store.  An
    object that a call creates and drops before it returns (the table
    literal of [getNounBasicPrefix]) gets no cell. *)

Module Heap.

Definition Ref : Type := nat.

Inductive Cell : Type :=
| Instance (tables : ZuluMorphAnalyzer)
| Object (fields : Morpheme)
| Array (items : list Ref).

Definition Store : Type := list Cell.

(** A computation on the store.  [None]: the fuel ran out, or a
    reference was not to the kind of cell the code expects. *)
Definition M (A : Type) : Type := Store -> option (A * Store).

Definition ret {A : Type} (a : A) : M A := fun s => Some (a, s).

Definition fail {A : Type} : M A := fun _ => None.

Definition bind {A B : Type} (m : M A) (k : A -> M B) : M B :=
  fun s =>
    match m s with
    | Some (a, s') => k a s'
    | None => None
    end.

Notation "x <~ e ;; k" := (bind e (fun x => k))
  (at level 61, e at next level, right associativity).

Definition alloc (c : Cell) : M Ref :=
  fun s => Some (List.length s, (s ++ [c])%list).

Definition read (r : Ref) : M Cell :=
  fun s =>
    match nth_error s r with
    | Some c => Some (c, s)
    | None => None
    end.

Fixpoint update (r : Ref) (c : Cell) (s : Store) : Store :=
  match s, r with
  | [], _ => []
  | _ :: rest, O => c :: rest
  | c0 :: rest, S r' => c0 :: update r' c rest
  end.

Definition write (r : Ref) (c : Cell) : M unit :=
  fun s => Some (tt, update r c s).

(** [this.nounPrefixes], [this.vocabulary], ...: the tables of [this]. *)
Definition fieldsOf (this : Ref) : M ZuluMorphAnalyzer :=
  c <~ read this ;;
  match c with
  | Instance tables => ret tables
  | _ => fail
  end.

(** [{ morph: ..., tag: ... }] *)
Definition newObject (m : Morpheme) : M Ref := alloc (Object m).

Fixpoint newObjects (ms : list Morpheme) : M (list Ref) :=
  match ms with
  | [] => ret []
  | m :: rest =>
      o <~ newObject m ;;
      os <~ newObjects rest ;;
      ret (o :: os)
  end.

(** [[{ ... }, ...]] *)
Definition arrayLiteral (ms : list Morpheme) : M Ref :=
  os <~ newObjects ms ;;
  alloc (Array os).

(** [array.push({ ... })] *)
Definition push (array : Ref) (m : Morpheme) : M unit :=
  o <~ newObject m ;;
  c <~ read array ;;
  match c with
  | Array items => write array (Array (items ++ [o])%list)
  | _ => fail
  end.

Fixpoint pushAll (array : Ref) (ms : list Morpheme) : M unit :=
  match ms with
  | [] => ret tt
  | m :: rest => _ <~ push array m ;; pushAll array rest
  end.

(** [array.length] *)
Definition lengthOf (array : Ref) : M Z :=
  c <~ read array ;;
  match c with
  | Array items => ret (Z.of_nat (List.length items))
  | _ => fail
  end.

(** The [while] of [analyzeWord]: each pass reads the tables through
    [this], decides as [loopBody] does, and pushes onto [morphemes]. *)
Fixpoint whileLoop (fuel : nat) (this morphemes : Ref) (remaining : string)
  : M unit :=
  if 0 <? JS.length remaining then
    match fuel with
    | O => fail
    | S fuel' =>
        tables <~ fieldsOf this ;;
        match loopBody tables remaining with
        | Continue pushed remaining' =>
            _ <~ pushAll morphemes pushed ;;
            whileLoop fuel' this morphemes remaining'
        | Break pushed => pushAll morphemes pushed
        end
    end
  else ret tt.

(** [this.analyzeWord(word)], the reference it returns. *)
Definition analyzeWord (fuel : nat) (this : Ref) (word : string) : M Ref :=
  let originalWord := word in
  morphemes <~ alloc (Array []) ;;
  let remaining := JS.toLowerCase word in
  if isPunctuation word then
    arrayLiteral [{| morph := word; tag := "Punc" |}]
  else
    tables <~ fieldsOf this ;;
    if truthy (get (vocabulary tables) remaining) then
      tables' <~ fieldsOf this ;;
      arrayLiteral
        [{| morph := remaining; tag := get (vocabulary tables') remaining |}]
    else if startsWithCapital originalWord && (2 <? JS.length originalWord)
    then arrayLiteral [{| morph := originalWord; tag := "ProperName" |}]
    else
      _ <~ whileLoop fuel this morphemes remaining ;;
      n <~ lengthOf morphemes ;;
      if 0 <? n then ret morphemes
      else arrayLiteral [{| morph := originalWord; tag := "Unknown" |}].

(** The tables of the instance at [this]. *)
Definition tablesAt (s : Store) (this : Ref) : option ZuluMorphAnalyzer :=
  match nth_error s this with
  | Some (Instance tables) => Some tables
  | _ => None
  end.

Definition objectAt (s : Store) (o : Ref) : option Morpheme :=
  match nth_error s o with
  | Some (Object m) => Some m
  | _ => None
  end.

Fixpoint objectsAt (s : Store) (os : list Ref) : option (list Morpheme) :=
  match os with
  | [] => Some []
  | o :: rest =>
      match objectAt s o, objectsAt s rest with
      | Some m, Some ms => Some (m :: ms)
      | _, _ => None
      end
  end.

(** The sequence of morphemes an array reference stands for. *)
Definition contents (s : Store) (array : Ref) : option (list Morpheme) :=
  match nth_error s array with
  | Some (Array items) => objectsAt s items
  | _ => None
  end.

(** [array] and the objects it refers to in [s'] were not in [s]. *)
Definition freshIn (s s' : Store) (array : Ref) : bool :=
  (List.length s <=? array)%nat &&
  match nth_error s' array with
  | Some (Array items) => forallb (fun o => (List.length s <=? o)%nat) items
  | _ => false
  end.

(** The store after pushing [added] onto the array that holds [items]
    and sits behind [pre]. *)
Definition pushedTo (pre : Store) (items : list Ref) (mid : Store)
  (added : list Morpheme) : Store :=
  (pre
   ++ Array (items ++ seq (List.length pre + S (List.length mid))
                          (List.length added))
   :: mid ++ map Object added)%list.

End Heap.
(** ** Facts about the string primitives *)

Section StringFacts.

Lemma length_nonneg (s : string) : 0 <= JS.length s.
Proof. unfold JS.length. lia. Qed.

Lemma length_String (c : ascii) (s : string) :
  JS.length (String c s) = JS.length s + 1.
Proof. unfold JS.length. simpl. lia. Qed.

Lemma length_positive (s : string) :
  (0 <? JS.length s) = true <-> s <> EmptyString.
Proof.
  destruct s as [|c s].
  - split; [discriminate | congruence].
  - rewrite length_String. pose proof (length_nonneg s) as L.
    split; [discriminate | intros _; apply Z.ltb_lt; lia].
Qed.

Lemma length_not_positive (s : string) :
  (0 <? JS.length s) = false <-> s = EmptyString.
Proof.
  destruct s as [|c s].
  - split; reflexivity.
  - rewrite length_String. pose proof (length_nonneg s) as L.
    split; [intros H; apply Z.ltb_ge in H; lia | discriminate].
Qed.

Lemma skip_length (n : nat) (s : string) :
  String.length (JS.skip n s) = (String.length s - n)%nat.
Proof.
  revert s; induction n as [|n IH]; intros [|c s]; simpl; auto.
Qed.

Lemma skip_all (n : nat) (s : string) :
  (String.length s <= n)%nat -> JS.skip n s = EmptyString.
Proof.
  revert s; induction n as [|n IH]; intros [|c s]; simpl; intros H;
    try reflexivity; try lia.
  apply IH; lia.
Qed.

Lemma skip_skip (n m : nat) (s : string) :
  JS.skip n (JS.skip m s) = JS.skip (m + n) s.
Proof.
  revert s; induction m as [|m IH]; intros s; simpl; [reflexivity|].
  destruct s as [|c s]; [destruct n; reflexivity | apply IH].
Qed.

Lemma take_all (n : nat) (s : string) :
  (String.length s <= n)%nat -> JS.take n s = s.
Proof.
  revert s; induction n as [|n IH]; intros [|c s]; simpl; intros H;
    try reflexivity; try lia.
  f_equal; apply IH; lia.
Qed.

Lemma take_length (n : nat) (s : string) :
  String.length (JS.take n s) = Nat.min n (String.length s).
Proof.
  revert s; induction n as [|n IH]; intros [|c s]; simpl; auto.
Qed.

Lemma take_skip (n : nat) (s : string) : (JS.take n s ++ JS.skip n s) = s.
Proof.
  revert s; induction n as [|n IH]; intros [|c s]; simpl; try reflexivity.
  f_equal; apply IH.
Qed.

(** [s.substring(n)] drops the first [n] characters. *)
Lemma substring1_skip (s : string) (n : Z) :
  JS.substring1 s n = JS.skip (Z.to_nat n) s.
Proof.
  unfold JS.substring1, JS.substring, JS.clamp, JS.length.
  set (len := String.length s).
  replace (Z.to_nat (Z.min (Z.max (Z.of_nat len) 0) (Z.of_nat len)))
    with len by lia.
  set (a := Z.to_nat (Z.min (Z.max n 0) (Z.of_nat len))).
  assert (Ha : (a <= len)%nat) by (subst a; lia).
  rewrite Nat.max_r, Nat.min_l by lia.
  rewrite take_all by (rewrite skip_length; fold len; lia).
  destruct (Z_le_gt_dec n (Z.of_nat len)) as [Hn|Hn].
  - f_equal. subst a. lia.
  - rewrite (skip_all (Z.to_nat n)) by (fold len; lia).
    apply skip_all. fold len. subst a. lia.
Qed.

(** [s.substring(0, n)] keeps the first [n] characters. *)
Lemma substring0_take (s : string) (n : Z) :
  JS.substring s 0 n = JS.take (Z.to_nat n) s.
Proof.
  unfold JS.substring, JS.clamp, JS.length.
  set (len := String.length s).
  replace (Z.to_nat (Z.min (Z.max 0 0) (Z.of_nat len))) with 0%nat by lia.
  rewrite Nat.max_r, Nat.min_l by lia. rewrite Nat.sub_0_r. simpl JS.skip.
  destruct (Z_le_gt_dec n (Z.of_nat len)) as [Hn|Hn].
  - f_equal. lia.
  - rewrite !take_all; try reflexivity; fold len; lia.
Qed.

Lemma startsWith_nil (s : string) : JS.startsWith s EmptyString = true.
Proof. destruct s; reflexivity. Qed.

Lemma startsWith_length (s p : string) :
  JS.startsWith s p = true -> (String.length p <= String.length s)%nat.
Proof.
  revert s; induction p as [|b p IH]; intros [|a s]; simpl; intros H;
    try lia; try discriminate.
  apply andb_true_iff in H as [_ H]. apply IH in H. lia.
Qed.

Lemma startsWith_take (s p : string) :
  JS.startsWith s p = true -> JS.take (String.length p) s = p.
Proof.
  revert s; induction p as [|b p IH]; intros [|a s]; simpl; intros H;
    try reflexivity; try discriminate.
  apply andb_true_iff in H as [Hab H].
  apply Ascii.eqb_eq in Hab. subst b. f_equal. auto.
Qed.

Lemma startsWith_refl (s t : string) : JS.startsWith (s ++ t) s = true.
Proof.
  induction s as [|a s IH]; simpl; [apply startsWith_nil|].
  rewrite Ascii.eqb_refl. exact IH.
Qed.

Lemma indexOf_lower (s p : string) : -1 <= JS.indexOf s p.
Proof.
  induction s as [|a s IH]; cbn [JS.indexOf].
  - destruct (JS.startsWith _ p); lia.
  - destruct (JS.startsWith _ p); [lia|].
    destruct (JS.indexOf s p <? 0) eqn:E; [lia|]. apply Z.ltb_ge in E. lia.
Qed.

(** [includes] and [indexOf] agree on whether there is an occurrence. *)
Lemma includes_indexOf (s p : string) :
  JS.includes s p = true <-> 0 <= JS.indexOf s p.
Proof.
  induction s as [|a s IH]; cbn [JS.indexOf JS.includes].
  - destruct (JS.startsWith _ p); simpl; split; intros; try lia;
      try reflexivity; discriminate.
  - destruct (JS.startsWith _ p); simpl; [split; intros; [lia|reflexivity]|].
    rewrite IH. destruct (JS.indexOf s p <? 0) eqn:E.
    + apply Z.ltb_lt in E. lia.
    + apply Z.ltb_ge in E. lia.
Qed.

(** [indexOf] returns an index at which the pattern occurs. *)
Lemma indexOf_occurs (s p : string) :
  0 <= JS.indexOf s p -> occursAt s p (JS.indexOf s p).
Proof.
  unfold occursAt. induction s as [|a s IH]; cbn [JS.indexOf].
  - destruct (JS.startsWith EmptyString p) eqn:E; [|lia]. intros _.
    apply startsWith_length in E as L. unfold JS.length. simpl in *.
    repeat split; try lia. exact E.
  - destruct (JS.startsWith (String a s) p) eqn:E.
    + intros _. apply startsWith_length in E as L. unfold JS.length.
      repeat split; try lia. exact E.
    + destruct (JS.indexOf s p <? 0) eqn:F; [lia|]. apply Z.ltb_ge in F.
      intros _. destruct (IH F) as (H0 & H1 & H2).
      rewrite length_String. repeat split; try lia.
      replace (Z.to_nat (JS.indexOf s p + 1)) with (S (Z.to_nat (JS.indexOf s p)))
        by lia.
      exact H2.
Qed.

(** No occurrence lies to the left of the index [indexOf] returns. *)
Lemma indexOf_leftmost (s p : string) (i : Z) :
  occursAt s p i -> 0 <= JS.indexOf s p <= i.
Proof.
  unfold occursAt. revert i. induction s as [|a s IH]; intros i (H0 & H1 & H2).
  - cbn [JS.indexOf].
    assert (E : JS.startsWith EmptyString p = true)
      by (destruct (Z.to_nat i); exact H2).
    rewrite E. lia.
  - cbn [JS.indexOf]. destruct (JS.startsWith (String a s) p) eqn:E; [lia|].
    destruct (Z.to_nat i) as [|n] eqn:Ei.
    + cbn [JS.skip] in H2. congruence.
    + cbn [JS.skip] in H2. rewrite length_String in H1.
      assert (Hi : occursAt s p (i - 1)).
      { unfold occursAt. repeat split; try lia.
        replace (Z.to_nat (i - 1)) with n by lia. exact H2. }
      apply IH in Hi.
      destruct (JS.indexOf s p <? 0) eqn:F; [apply Z.ltb_lt in F; lia | lia].
Qed.

Lemma indexOf_upper (s p : string) :
  JS.indexOf s p + JS.length p <= JS.length s \/ JS.indexOf s p = -1.
Proof.
  destruct (Z_le_gt_dec 0 (JS.indexOf s p)) as [H|H].
  - left. apply indexOf_occurs in H. unfold occursAt in H. lia.
  - right. pose proof (indexOf_lower s p). lia.
Qed.

Lemma toLowerCase_length (s : string) :
  String.length (JS.toLowerCase s) = String.length s.
Proof. induction s; simpl; auto. Qed.

(** No capital letter [A-Z] is left after [lowerChar]. *)
Lemma lowerChar_not_capital (c : ascii) :
  let n := N_of_ascii (JS.lowerChar c) in ((65 <=? n) && (n <=? 90))%N = false.
Proof.
  destruct c as [[] [] [] [] [] [] [] []]; vm_compute; reflexivity.
Qed.

(** A string without a capital letter is its own lower-case form. *)
Lemma lowerChar_idempotent (c : ascii) :
  JS.lowerChar (JS.lowerChar c) = JS.lowerChar c.
Proof.
  destruct c as [[] [] [] [] [] [] [] []]; vm_compute; reflexivity.
Qed.

End StringFacts.

(** ** The rule blocks: which entry fires, and what it leaves *)

Section RuleFacts.

Lemma extension_guard (remaining ext : string) :
  (if JS.includes remaining ext then extensionFires remaining ext else false)
  = extensionFires remaining ext.
Proof.
  unfold extensionFires. destruct (JS.includes remaining ext) eqn:E; auto.
  symmetry. apply Z.ltb_ge.
  destruct (Z_le_gt_dec 0 (JS.indexOf remaining ext)) as [H|H]; [|lia].
  apply includes_indexOf in H. congruence.
Qed.

Lemma checkVerbExtensions_cons (ext t : string) (rest : JSObject string)
  (remaining : string) :
  checkVerbExtensions ((ext, t) :: rest) remaining =
  if extensionFires remaining ext then
    Some ([{| morph := JS.substring remaining 0 (JS.indexOf remaining ext);
              tag := "VRoot" |};
           {| morph := ext; tag := t |}],
          JS.substring1 remaining (JS.indexOf remaining ext + JS.length ext))
  else checkVerbExtensions rest remaining.
Proof.
  rewrite <- extension_guard. cbn [checkVerbExtensions].
  unfold extensionFires.
  destruct (JS.includes remaining ext); [|reflexivity].
  destruct (0 <? JS.indexOf remaining ext); reflexivity.
Qed.

(** The entry a [for ... in] block stops at is the first one, in the
    order of the table, whose test succeeds. *)
Lemma checkNounPrefixes_first (entries before after : JSObject PrefixInfo)
  (prefix : string) (info : PrefixInfo) (remaining : string) :
  entries = (before ++ (prefix, info) :: after)%list ->
  (forall q i, In (q, i) before -> JS.startsWith remaining q = false) ->
  JS.startsWith remaining prefix = true ->
  checkNounPrefixes entries remaining =
    Some (pushNounPrefix prefix info,
          JS.substring1 remaining (JS.length prefix)).
Proof.
  intros -> Hb Hp. induction before as [|[q i] before IH]; simpl.
  - rewrite Hp. reflexivity.
  - rewrite (Hb q i) by (left; reflexivity).
    apply IH. intros q' i' Hin. apply (Hb q' i'). right. exact Hin.
Qed.

Lemma checkNounPrefixes_Some (entries : JSObject PrefixInfo)
  (remaining : string) (pushed : list Morpheme) (remaining' : string) :
  checkNounPrefixes entries remaining = Some (pushed, remaining') ->
  exists before prefix info after,
    entries = (before ++ (prefix, info) :: after)%list /\
    (forall q i, In (q, i) before -> JS.startsWith remaining q = false) /\
    JS.startsWith remaining prefix = true /\
    pushed = pushNounPrefix prefix info /\
    remaining' = JS.substring1 remaining (JS.length prefix).
Proof.
  induction entries as [|[q i] entries IH]; simpl; [discriminate|].
  destruct (JS.startsWith remaining q) eqn:E.
  - intros [= <- <-]. exists [], q, i, entries. simpl.
    repeat split; auto. intros ? ? [].
  - intros H. destruct (IH H) as (before & p & info & after & -> & Hb & Hrest).
    exists ((q, i) :: before), p, info, after. split; [reflexivity|].
    split; [|exact Hrest].
    intros q' i' [[= <- <-]|Hin]; [exact E | eapply Hb; eauto].
Qed.

Lemma checkNounPrefixes_None (entries : JSObject PrefixInfo)
  (remaining : string) :
  checkNounPrefixes entries remaining = None <->
  forall q i, In (q, i) entries -> JS.startsWith remaining q = false.
Proof.
  induction entries as [|[q i] entries IH]; simpl.
  - split; [intros _ ? ? [] | reflexivity].
  - destruct (JS.startsWith remaining q) eqn:E.
    + split; [discriminate|]. intros H.
      rewrite (H q i) in E by (left; reflexivity). discriminate.
    + rewrite IH. split.
      * intros H q' i' [[= <- <-]|Hin]; [exact E | eapply H; eauto].
      * intros H q' i' Hin. apply (H q' i'). right. exact Hin.
Qed.

Lemma checkCommonMorphemes_Some (entries : JSObject string)
  (remaining : string) (pushed : list Morpheme) (remaining' : string) :
  checkCommonMorphemes entries remaining = Some (pushed, remaining') ->
  exists morpheme t,
    In (morpheme, t) entries /\
    JS.startsWith remaining morpheme = true /\
    pushed = [{| morph := morpheme; tag := t |}] /\
    remaining' = JS.substring1 remaining (JS.length morpheme).
Proof.
  induction entries as [|[q t] entries IH]; simpl; [discriminate|].
  destruct (JS.startsWith remaining q) eqn:E.
  - intros [= <- <-]. exists q, t. auto.
  - intros H. destruct (IH H) as (m & t' & Hin & Hrest).
    exists m, t'. split; [right; exact Hin | exact Hrest].
Qed.

Lemma checkVerbExtensions_first (entries before after : JSObject string)
  (ext t : string) (remaining : string) :
  entries = (before ++ (ext, t) :: after)%list ->
  (forall e t', In (e, t') before -> extensionFires remaining e = false) ->
  extensionFires remaining ext = true ->
  checkVerbExtensions entries remaining =
    Some ([{| morph := JS.substring remaining 0 (JS.indexOf remaining ext);
              tag := "VRoot" |};
           {| morph := ext; tag := t |}],
          JS.substring1 remaining (JS.indexOf remaining ext + JS.length ext)).
Proof.
  intros -> Hb Hp. induction before as [|[e t'] before IH].
  - simpl app. rewrite checkVerbExtensions_cons, Hp. reflexivity.
  - simpl app. rewrite checkVerbExtensions_cons.
    rewrite (Hb e t') by (left; reflexivity).
    apply IH. intros e' t'' Hin. apply (Hb e' t''). right. exact Hin.
Qed.

Lemma checkVerbExtensions_Some (entries : JSObject string)
  (remaining : string) (pushed : list Morpheme) (remaining' : string) :
  checkVerbExtensions entries remaining = Some (pushed, remaining') ->
  exists before ext t after,
    entries = (before ++ (ext, t) :: after)%list /\
    (forall e t', In (e, t') before -> extensionFires remaining e = false) /\
    extensionFires remaining ext = true /\
    pushed = [{| morph := JS.substring remaining 0 (JS.indexOf remaining ext);
                 tag := "VRoot" |};
              {| morph := ext; tag := t |}] /\
    remaining' =
      JS.substring1 remaining (JS.indexOf remaining ext + JS.length ext).
Proof.
  induction entries as [|[e t] entries IH]; [discriminate|].
  rewrite checkVerbExtensions_cons.
  destruct (extensionFires remaining e) eqn:E.
  - intros [= <- <-]. exists [], e, t, entries. simpl.
    repeat split; auto. intros ? ? [].
  - intros H. destruct (IH H) as (before & x & t' & after & -> & Hb & Hrest).
    exists ((e, t) :: before), x, t', after. split; [reflexivity|].
    split; [|exact Hrest].
    intros e' t'' [[= <- <-]|Hin]; [exact E | eapply Hb; eauto].
Qed.

Lemma checkVerbExtensions_None (entries : JSObject string)
  (remaining : string) :
  checkVerbExtensions entries remaining = None <->
  forall e t, In (e, t) entries -> extensionFires remaining e = false.
Proof.
  induction entries as [|[e t] entries IH].
  - simpl. split; [intros _ ? ? [] | reflexivity].
  - rewrite checkVerbExtensions_cons.
    destruct (extensionFires remaining e) eqn:E.
    + split; [discriminate|]. intros H.
      rewrite (H e t) in E by (left; reflexivity). discriminate.
    + rewrite IH. split.
      * intros H e' t' [[= <- <-]|Hin]; [exact E | eapply H; eauto].
      * intros H e' t' Hin. apply (H e' t'). right. exact Hin.
Qed.

Lemma checkVerbTermination_Some (remaining : string)
  (pushed : list Morpheme) (remaining' : string) :
  checkVerbTermination remaining = Some (pushed, remaining') ->
  1 < JS.length remaining /\
  pushed = [{| morph := JS.substring remaining 0 (JS.length remaining - 1);
               tag := "VRoot" |};
            {| morph := "a"; tag := "VerbTerm" |}] /\
  remaining' = EmptyString.
Proof.
  unfold checkVerbTermination.
  destruct (JS.endsWith remaining "a"); simpl; [|discriminate].
  destruct (1 <? JS.length remaining) eqn:E; [|discriminate].
  destruct (0 <? JS.length _); [|discriminate].
  intros [= <- <-]. apply Z.ltb_lt in E. auto.
Qed.

Lemma checkQuantifiers_Some (entries : JSObject string)
  (remaining : string) (pushed : list Morpheme) (remaining' : string) :
  checkQuantifiers entries remaining = Some (pushed, remaining') ->
  exists t,
    In (remaining, t) entries /\
    pushed = [{| morph := remaining; tag := t |}] /\
    remaining' = EmptyString.
Proof.
  induction entries as [|[q t] entries IH]; simpl; [discriminate|].
  destruct (String.eqb remaining q) eqn:E.
  - apply String.eqb_eq in E. subst q. intros [= <- <-]. exists t. auto.
  - intros H. destruct (IH H) as (t' & Hin & Hrest).
    exists t'. split; [right; exact Hin | exact Hrest].
Qed.

Lemma nonEmptyKeys_In {V : Type} (o : JSObject V) (k : string) (v : V) :
  nonEmptyKeys o = true -> In (k, v) o -> k <> EmptyString.
Proof.
  unfold nonEmptyKeys. rewrite forallb_forall. intros H Hin.
  specialize (H _ Hin). simpl in H. apply negb_true_iff in H.
  apply String.eqb_neq. exact H.
Qed.

(** Stripping a non-empty prefix leaves a shorter string. *)
Lemma strip_prefix_shorter (remaining p : string) :
  p <> EmptyString -> JS.startsWith remaining p = true ->
  JS.length (JS.substring1 remaining (JS.length p)) < JS.length remaining.
Proof.
  intros Hp Hs. rewrite substring1_skip. unfold JS.length.
  rewrite skip_length. apply startsWith_length in Hs.
  destruct p; [congruence|]. simpl in *. lia.
Qed.

(** Splitting at an extension past index 0 leaves a shorter string and a
    non-empty root. *)
Lemma split_extension_shorter (remaining ext : string) :
  extensionFires remaining ext = true ->
  JS.length
    (JS.substring1 remaining (JS.indexOf remaining ext + JS.length ext))
  < JS.length remaining /\
  JS.substring remaining 0 (JS.indexOf remaining ext) <> EmptyString.
Proof.
  unfold extensionFires. intros H. apply Z.ltb_lt in H.
  assert (O : occursAt remaining ext (JS.indexOf remaining ext))
    by (apply indexOf_occurs; lia).
  destruct O as (_ & O & _). pose proof (length_nonneg ext) as L.
  split.
  - rewrite substring1_skip. unfold JS.length in *. rewrite skip_length. lia.
  - rewrite substring0_take. intros E.
    apply (f_equal String.length) in E. rewrite take_length in E.
    unfold JS.length in *. simpl in E. lia.
Qed.

End RuleFacts.

(** ** The loop *)

Section LoopFacts.

Variable this : ZuluMorphAnalyzer.

Lemma whileLoop_empty (fuel : nat) (morphemes : list Morpheme) :
  whileLoop fuel this EmptyString morphemes = Some morphemes.
Proof. destruct fuel; reflexivity. Qed.

Lemma whileLoop_step (fuel : nat) (remaining : string)
  (morphemes : list Morpheme) :
  remaining <> EmptyString ->
  whileLoop (S fuel) this remaining morphemes =
  match loopBody this remaining with
  | Continue pushed remaining' =>
      whileLoop fuel this remaining' (morphemes ++ pushed)%list
  | Break pushed => Some (morphemes ++ pushed)%list
  end.
Proof.
  intros H. apply length_positive in H. cbn [whileLoop]. rewrite H.
  reflexivity.
Qed.

Lemma whileLoop_no_fuel (remaining : string) (morphemes : list Morpheme) :
  remaining <> EmptyString -> whileLoop 0 this remaining morphemes = None.
Proof.
  intros H. apply length_positive in H. cbn [whileLoop]. rewrite H.
  reflexivity.
Qed.

(** More fuel does not change a result. *)
Lemma whileLoop_more_fuel (fuel fuel' : nat) (remaining : string)
  (morphemes result : list Morpheme) :
  whileLoop fuel this remaining morphemes = Some result ->
  (fuel <= fuel')%nat ->
  whileLoop fuel' this remaining morphemes = Some result.
Proof.
  revert fuel' remaining morphemes.
  induction fuel as [|fuel IH]; intros fuel' remaining morphemes H Hle.
  - destruct remaining as [|c r].
    + rewrite whileLoop_empty in *. exact H.
    + rewrite whileLoop_no_fuel in H by discriminate. discriminate.
  - destruct fuel' as [|fuel']; [lia|].
    destruct remaining as [|c r].
    + rewrite whileLoop_empty in *. exact H.
    + rewrite whileLoop_step in * by discriminate.
      destruct (loopBody this (String c r)); [|exact H].
      apply IH; [exact H | lia].
Qed.

(** Two runs that both finish agree, whatever fuel each had. *)
Lemma whileLoop_deterministic (fuel1 fuel2 : nat) (remaining : string)
  (morphemes result1 result2 : list Morpheme) :
  whileLoop fuel1 this remaining morphemes = Some result1 ->
  whileLoop fuel2 this remaining morphemes = Some result2 ->
  result1 = result2.
Proof.
  intros H1 H2.
  apply whileLoop_more_fuel with (fuel' := Nat.max fuel1 fuel2) in H1;
    [|lia].
  apply whileLoop_more_fuel with (fuel' := Nat.max fuel1 fuel2) in H2;
    [|lia].
  congruence.
Qed.

Hypothesis progress : progressTables this = true.

(** With such tables a pass that continues leaves a strictly shorter
    [remaining]. *)
Lemma loopBody_shrinks (remaining : string) (pushed : list Morpheme)
  (remaining' : string) :
  remaining <> EmptyString ->
  loopBody this remaining = Continue pushed remaining' ->
  JS.length remaining' < JS.length remaining.
Proof.
  intros Hne. unfold progressTables in progress.
  apply andb_true_iff in progress as [Hnoun Hcommon].
  assert (Hempty : JS.length EmptyString < JS.length remaining).
  { apply length_positive, Z.ltb_lt in Hne. exact Hne. }
  unfold loopBody.
  destruct (checkNounPrefixes _ _) as [[p r]|] eqn:E1.
  { intros [= <- <-].
    apply checkNounPrefixes_Some in E1
      as (before & q & info & after & Hsplit & _ & Hs & _ & ->).
    apply strip_prefix_shorter; [|exact Hs].
    apply (nonEmptyKeys_In _ q info Hnoun). rewrite Hsplit.
    apply in_elt. }
  destruct (checkCommonMorphemes _ _) as [[p r]|] eqn:E2.
  { intros [= <- <-].
    apply checkCommonMorphemes_Some in E2 as (q & t & Hin & Hs & _ & ->).
    apply strip_prefix_shorter; [|exact Hs].
    apply (nonEmptyKeys_In _ q t Hcommon Hin). }
  destruct (checkVerbExtensions _ _) as [[p r]|] eqn:E3.
  { intros [= <- <-].
    apply checkVerbExtensions_Some in E3
      as (before & ext & t & after & _ & _ & Hf & _ & ->).
    apply split_extension_shorter. exact Hf. }
  destruct (checkVerbTermination _) as [[p r]|] eqn:E4.
  { intros [= <- <-].
    apply checkVerbTermination_Some in E4 as (_ & _ & ->). exact Hempty. }
  destruct (checkQuantifiers _ _) as [[p r]|] eqn:E5.
  { intros [= <- <-].
    apply checkQuantifiers_Some in E5 as (t & _ & _ & ->). exact Hempty. }
  discriminate.
Qed.

(** The loop stops after a number of passes that the length of
    [remaining] bounds. *)
Lemma whileLoop_stops (remaining : string) :
  exists n, (n <= String.length remaining)%nat /\ stopsAfter this remaining n.
Proof.
  remember (String.length remaining) as len eqn:Hlen.
  revert remaining Hlen.
  induction len as [len IH] using lt_wf_ind. intros remaining Hlen.
  destruct remaining as [|c r].
  - exists 0%nat. split; [lia|]. intros fuel morphemes.
    rewrite whileLoop_empty. split; [lia | eauto].
  - destruct (loopBody this (String c r)) as [pushed r'|pushed] eqn:E.
    + assert (Hshort : JS.length r' < JS.length (String c r))
        by (eapply loopBody_shrinks; [discriminate | exact E]).
      unfold JS.length in Hshort.
      destruct (IH (String.length r')) with (remaining := r')
        as (n & Hn & Hstop); [lia | reflexivity |].
      exists (S n). split; [lia|]. intros fuel morphemes.
      destruct fuel as [|fuel].
      * rewrite whileLoop_no_fuel by discriminate.
        split; [intros [? [=]] | lia].
      * rewrite whileLoop_step by discriminate. rewrite E.
        rewrite (Hstop fuel). lia.
    + exists 1%nat. simpl in Hlen. split; [lia|]. intros fuel morphemes.
      destruct fuel as [|fuel].
      * rewrite whileLoop_no_fuel by discriminate.
        split; [intros [? [=]] | lia].
      * rewrite whileLoop_step by discriminate. rewrite E.
        split; [lia | eauto].
Qed.

(** Fuel for one pass per character is always enough. *)
Lemma whileLoop_total (remaining : string) (morphemes : list Morpheme)
  (fuel : nat) :
  (String.length remaining <= fuel)%nat ->
  exists result, whileLoop fuel this remaining morphemes = Some result.
Proof.
  intros H. destruct (whileLoop_stops remaining) as (n & Hn & Hstop).
  apply Hstop. lia.
Qed.

End LoopFacts.

(** ** What the analysis of a word is made of *)

Section EmittedFacts.

Variable this : ZuluMorphAnalyzer.

(** A pass through the body pushes at least one morpheme, and only
    morphemes of the kinds listed in [Emitted]. *)
Lemma loopBody_pushes (remaining : string) :
  remaining <> EmptyString ->
  pushedBy (loopBody this remaining) <> [] /\
  Forall (Emitted this) (pushedBy (loopBody this remaining)).
Proof.
  intros Hne. unfold loopBody.
  destruct (checkNounPrefixes _ _) as [[p r]|] eqn:E1.
  { apply checkNounPrefixes_Some in E1
      as (before & q & info & after & Hsplit & _ & _ & -> & _).
    simpl. split.
    - unfold pushNounPrefix.
      destruct (1 <? JS.length q); [destruct (truthy _)|]; discriminate.
    - apply Forall_forall. intros m Hm.
      apply (Emitted_nounPrefix this q info); [|exact Hm].
      rewrite Hsplit. apply in_elt. }
  destruct (checkCommonMorphemes _ _) as [[p r]|] eqn:E2.
  { apply checkCommonMorphemes_Some in E2 as (q & t & Hin & _ & -> & _).
    simpl. split; [discriminate|].
    constructor; [|constructor].
    apply Emitted_commonMorpheme. exact Hin. }
  destruct (checkVerbExtensions _ _) as [[p r]|] eqn:E3.
  { apply checkVerbExtensions_Some in E3
      as (before & ext & t & after & Hsplit & _ & Hf & -> & _).
    simpl. split; [discriminate|].
    apply split_extension_shorter in Hf as [_ Hroot].
    constructor; [apply Emitted_verbRoot; exact Hroot|].
    constructor; [|constructor].
    apply Emitted_verbExtension. rewrite Hsplit. apply in_elt. }
  destruct (checkVerbTermination _) as [[p r]|] eqn:E4.
  { apply checkVerbTermination_Some in E4 as (Hlen & -> & _).
    simpl. split; [discriminate|].
    constructor; [|constructor; [apply Emitted_verbTerm | constructor]].
    apply Emitted_verbRoot. rewrite substring0_take. intros E.
    apply (f_equal String.length) in E. rewrite take_length in E.
    unfold JS.length in *. simpl in E. lia. }
  destruct (checkQuantifiers _ _) as [[p r]|] eqn:E5.
  { apply checkQuantifiers_Some in E5 as (t & Hin & -> & _).
    simpl. split; [discriminate|].
    constructor; [|constructor].
    apply Emitted_quantifier. exact Hin. }
  simpl. split; [discriminate|].
  constructor; [|constructor]. apply Emitted_stem. exact Hne.
Qed.

Lemma whileLoop_Emitted (fuel : nat) (remaining : string)
  (morphemes result : list Morpheme) :
  Forall (Emitted this) morphemes ->
  whileLoop fuel this remaining morphemes = Some result ->
  Forall (Emitted this) result.
Proof.
  revert remaining morphemes.
  induction fuel as [|fuel IH]; intros remaining morphemes Hm H.
  - destruct remaining as [|c r].
    + rewrite whileLoop_empty in H. congruence.
    + rewrite whileLoop_no_fuel in H by discriminate. discriminate.
  - destruct remaining as [|c r].
    + rewrite whileLoop_empty in H. congruence.
    + rewrite whileLoop_step in H by discriminate.
      destruct (loopBody_pushes (String c r)) as [_ Hp]; [discriminate|].
      destruct (loopBody this (String c r)) as [pushed r'|pushed];
        simpl in Hp.
      * apply IH in H; [exact H|]. apply Forall_app. auto.
      * injection H as <-. apply Forall_app. auto.
Qed.

(** The array only grows, and on a non-empty [remaining] it does grow. *)
Lemma whileLoop_grows (fuel : nat) (remaining : string)
  (morphemes result : list Morpheme) :
  whileLoop fuel this remaining morphemes = Some result ->
  (List.length morphemes <= List.length result)%nat /\
  (remaining <> EmptyString ->
   (List.length morphemes < List.length result)%nat).
Proof.
  revert remaining morphemes.
  induction fuel as [|fuel IH]; intros remaining morphemes H.
  - destruct remaining as [|c r].
    + rewrite whileLoop_empty in H. injection H as <-.
      split; [lia | congruence].
    + rewrite whileLoop_no_fuel in H by discriminate. discriminate.
  - destruct remaining as [|c r].
    + rewrite whileLoop_empty in H. injection H as <-.
      split; [lia | congruence].
    + rewrite whileLoop_step in H by discriminate.
      destruct (loopBody_pushes (String c r)) as [Hp _]; [discriminate|].
      assert (Hlen : forall pushed : list Morpheme, pushed <> [] ->
                (List.length morphemes
                 < List.length (morphemes ++ pushed)%list)%nat).
      { intros [|m ms] Hnil; [congruence|].
        rewrite length_app. simpl. lia. }
      destruct (loopBody this (String c r)) as [pushed r'|pushed];
        simpl in Hp; specialize (Hlen pushed Hp).
      * apply IH in H as [H _]. lia.
      * injection H as <-. lia.
Qed.

(** The analysis of a non-empty word consists of [Emitted] morphemes. *)
Lemma analyzeWord_Emitted (fuel : nat) (word : string)
  (result : list Morpheme) :
  word <> EmptyString ->
  analyzeWord fuel this word = Some result ->
  Forall (Emitted this) result.
Proof.
  intros Hne. unfold analyzeWord.
  assert (Hlow : JS.toLowerCase word <> EmptyString).
  { destruct word; [congruence | discriminate]. }
  destruct (isPunctuation word) eqn:E1.
  { intros [= <-]. constructor; [|constructor].
    apply Emitted_punctuation. exact E1. }
  destruct (truthy (get (vocabulary this) (JS.toLowerCase word))) eqn:E2.
  { intros [= <-]. constructor; [|constructor].
    apply Emitted_vocabulary; assumption. }
  destruct (startsWithCapital word && (2 <? JS.length word)).
  { intros [= <-]. constructor; [|constructor].
    apply Emitted_properName. exact Hne. }
  destruct (whileLoop fuel this (JS.toLowerCase word) []) as [ms|] eqn:E4;
    [|discriminate].
  intros [= <-].
  apply whileLoop_grows in E4 as G. destruct G as [_ G].
  specialize (G Hlow). simpl in G.
  destruct (0 <? Z.of_nat (List.length ms)) eqn:E5;
    [|apply Z.ltb_ge in E5; lia].
  eapply whileLoop_Emitted; [|exact E4]. constructor.
Qed.

End EmittedFacts.

(** ** The declared tables *)

Lemma zuluAnalyzer_progress : progressTables zuluAnalyzer = true.
Proof. reflexivity. Qed.

Lemma zuluAnalyzer_empty_key :
  get (vocabulary zuluAnalyzer) EmptyString = Undefined.
Proof. reflexivity. Qed.

Lemma analyzeWord_empty (fuel : nat) :
  analyzeWord fuel zuluAnalyzer EmptyString =
    Some [{| morph := ""; tag := "Unknown" |}].
Proof. destruct fuel; reflexivity. Qed.

(** With fuel for one pass per character [analyzeWord] returns, and
    what it returns is not the empty sequence. *)
Lemma analyzeWord_returns (word : string) (fuel : nat) :
  (String.length word <= fuel)%nat ->
  exists result,
    analyzeWord fuel zuluAnalyzer word = Some result /\
    (1 <= List.length result)%nat.
Proof.
  intros Hfuel. unfold analyzeWord.
  destruct (isPunctuation word); [eexists; split; [reflexivity | simpl; lia]|].
  destruct (truthy _); [eexists; split; [reflexivity | simpl; lia]|].
  destruct (_ && _); [eexists; split; [reflexivity | simpl; lia]|].
  destruct (whileLoop_total zuluAnalyzer zuluAnalyzer_progress
              (JS.toLowerCase word) [] fuel) as [ms Hms].
  { rewrite toLowerCase_length. exact Hfuel. }
  rewrite Hms. eexists; split; [reflexivity|].
  destruct (0 <? Z.of_nat (List.length ms)) eqn:E; [|simpl; lia].
  apply Z.ltb_lt in E. lia.
Qed.

(** C5.  [analyzeWord] returns on every word, the empty one included: with
    fuel for one pass per character it yields a sequence of at least one
    morpheme, and the empty word yields the single morpheme with the empty
    morph and the tag [Unknown]. *)
Theorem analyzeWord_total (word : string) (fuel : nat) :
  (String.length word <= fuel)%nat ->
  (exists result,
      analyzeWord fuel zuluAnalyzer word = Some result /\
      (1 <= List.length result)%nat) /\
  (word = EmptyString ->
   analyzeWord fuel zuluAnalyzer word =
     Some [{| morph := ""; tag := "Unknown" |}]).
Proof.
  intros Hfuel. split.
  - apply analyzeWord_returns. exact Hfuel.
  - intros ->. apply analyzeWord_empty.
Qed.

Lemma analyzeWord_total_witness :
  (String.length "abantu" <= 6)%nat /\
  (exists result,
      analyzeWord 6 zuluAnalyzer "abantu" = Some result /\
      (1 <= List.length result)%nat).
Proof.
  split; [simpl; lia|].
  apply (analyzeWord_total "abantu" 6). simpl; lia.
Defined.

(** C6.  The stripping loop terminates.  A pass through its body that
    takes one of the first three blocks leaves a strictly shorter
    [remaining], one that takes the fourth or fifth leaves the empty
    string, and a pass that takes none ends the loop with the stem; so
    on the lower-cased word the loop stops after a number of passes that
    is at most the length of that string. *)
Theorem stripping_loop_terminates :
  (forall remaining pushed remaining',
      remaining <> EmptyString ->
      (checkNounPrefixes (nounPrefixes zuluAnalyzer) remaining
         = Some (pushed, remaining') ->
       JS.length remaining' < JS.length remaining) /\
      (checkCommonMorphemes (commonMorphemes zuluAnalyzer) remaining
         = Some (pushed, remaining') ->
       JS.length remaining' < JS.length remaining) /\
      (checkVerbExtensions (verbExtensions zuluAnalyzer) remaining
         = Some (pushed, remaining') ->
       JS.length remaining' < JS.length remaining) /\
      (checkVerbTermination remaining = Some (pushed, remaining') ->
       remaining' = EmptyString) /\
      (checkQuantifiers (quantifiers zuluAnalyzer) remaining
         = Some (pushed, remaining') ->
       remaining' = EmptyString) /\
      (loopBody zuluAnalyzer remaining = Continue pushed remaining' ->
       JS.length remaining' < JS.length remaining) /\
      (loopBody zuluAnalyzer remaining = Break pushed ->
       pushed = [{| morph := remaining; tag := "NStem" |}])) /\
  (forall word,
      exists passes,
        Z.of_nat passes <= JS.length (JS.toLowerCase word) /\
        stopsAfter zuluAnalyzer (JS.toLowerCase word) passes).
Proof.
  split.
  - intros remaining pushed remaining' Hne.
    pose proof zuluAnalyzer_progress as P. unfold progressTables in P.
    apply andb_true_iff in P as [Pn Pc].
    repeat split.
    + intros H. apply checkNounPrefixes_Some in H
        as (before & q & info & after & Hsplit & _ & Hs & _ & ->).
      apply strip_prefix_shorter; [|exact Hs].
      apply (nonEmptyKeys_In _ q info Pn). rewrite Hsplit. apply in_elt.
    + intros H. apply checkCommonMorphemes_Some in H
        as (q & t & Hin & Hs & _ & ->).
      apply strip_prefix_shorter; [|exact Hs].
      apply (nonEmptyKeys_In _ q t Pc Hin).
    + intros H. apply checkVerbExtensions_Some in H
        as (before & ext & t & after & _ & _ & Hf & _ & ->).
      apply split_extension_shorter. exact Hf.
    + intros H. apply checkVerbTermination_Some in H as (_ & _ & ->).
      reflexivity.
    + intros H. apply checkQuantifiers_Some in H as (t & _ & _ & ->).
      reflexivity.
    + apply loopBody_shrinks; [exact zuluAnalyzer_progress | exact Hne].
    + unfold loopBody.
      destruct (checkNounPrefixes _ _) as [[? ?]|]; [discriminate|].
      destruct (checkCommonMorphemes _ _) as [[? ?]|]; [discriminate|].
      destruct (checkVerbExtensions _ _) as [[? ?]|]; [discriminate|].
      destruct (checkVerbTermination _) as [[? ?]|]; [discriminate|].
      destruct (checkQuantifiers _ _) as [[? ?]|]; [discriminate|].
      intros [= <-]. reflexivity.
  - intros word.
    destruct (whileLoop_stops zuluAnalyzer zuluAnalyzer_progress
                (JS.toLowerCase word)) as (n & Hn & Hstop).
    exists n. split; [unfold JS.length; lia | exact Hstop].
Qed.

Lemma stripping_loop_terminates_witness :
  JS.length "ntu" < JS.length "umuntu" /\
  exists passes,
    Z.of_nat passes <= JS.length (JS.toLowerCase "Umuntu") /\
    stopsAfter zuluAnalyzer (JS.toLowerCase "Umuntu") passes.
Proof.
  split.
  - destruct (proj1 stripping_loop_terminates "umuntu"
                [{| morph := "u"; tag := "NPrePre3" |};
                 {| morph := "mu"; tag := "BPre3" |}] "ntu")
      as (_ & _ & _ & _ & _ & H & _); [discriminate|].
    apply H. reflexivity.
  - exact (proj2 stripping_loop_terminates "Umuntu").
Defined.

(** The result of [analyzeWord] does not depend on the fuel it was given:
    two runs on the same word and tables that both return, return the
    same sequence. *)
Lemma analyzeWord_any_fuel (this : ZuluMorphAnalyzer) (word : string)
  (fuel1 fuel2 : nat) (result1 result2 : list Morpheme) :
  analyzeWord fuel1 this word = Some result1 ->
  analyzeWord fuel2 this word = Some result2 ->
  result1 = result2.
Proof.
  unfold analyzeWord.
  destruct (isPunctuation word); [congruence|].
  destruct (truthy _); [congruence|].
  destruct (_ && _); [congruence|].
  destruct (whileLoop fuel1 this _ []) as [ms1|] eqn:E1; [|discriminate].
  destruct (whileLoop fuel2 this _ []) as [ms2|] eqn:E2; [|discriminate].
  rewrite (whileLoop_deterministic this _ _ _ _ _ _ E1 E2). congruence.
Qed.

Lemma everyEntry_In {V : Type} (check : string -> V -> bool)
  (o : JSObject V) (k : string) (v : V) :
  everyEntry check o = true -> In (k, v) o -> check k v = true.
Proof.
  unfold everyEntry. rewrite forallb_forall. intros H Hin.
  exact (H _ Hin).
Qed.

Lemma getOwnProperty_In {V : Type} (o : JSObject V) (k : string) (v : V) :
  getOwnProperty o k = Some v -> In (k, v) o.
Proof.
  induction o as [|[k' v'] o IH]; simpl; [discriminate|].
  destruct (String.eqb k' k) eqn:E.
  - apply String.eqb_eq in E. intros [= <-]. left. congruence.
  - intros H. right. auto.
Qed.

(** Nothing on [Object.prototype] is a string. *)
Lemma Object_prototype_no_string (k s : string) :
  getOwnProperty Object_prototype k <> Some (Str s).
Proof.
  intros H. apply getOwnProperty_In in H. unfold Object_prototype in H.
  simpl in H.
  repeat (destruct H as [H|H]; [discriminate|]). exact H.
Qed.

(** A read that yields a string found an own property. *)
Lemma get_Str (o : JSObject string) (k s : string) :
  get o k = Str s -> In (k, s) o.
Proof.
  unfold get. destruct (getOwnProperty o k) as [t|] eqn:E.
  - intros [= <-]. apply getOwnProperty_In. exact E.
  - destruct (getOwnProperty Object_prototype k) as [v|] eqn:F;
      [|discriminate].
    intros ->. apply Object_prototype_no_string in F. contradiction.
Qed.

Lemma hasMorph_true (m : Morpheme) :
  hasMorph m = true -> exists s, morph m = Str s /\ s <> EmptyString.
Proof.
  unfold hasMorph. destruct (morph m) as [|s| |]; try discriminate.
  intros H. exists s. split; [reflexivity|].
  apply negb_true_iff, String.eqb_neq in H. exact H.
Qed.

(** C9.  Every morpheme in the analysis of a non-empty word carries a
    non-empty string as its morph; an empty morph is returned for the empty
    word only, in its [Unknown] result. *)
Theorem morphs_nonempty (word : string) (fuel : nat)
  (result : list Morpheme) (m : Morpheme) :
  analyzeWord fuel zuluAnalyzer word = Some result ->
  In m result ->
  (word <> EmptyString -> exists s, morph m = Str s /\ s <> EmptyString) /\
  (word = EmptyString -> m = {| morph := ""; tag := "Unknown" |}).
Proof.
  intros Hres Hin. split.
  2:{ intros ->. rewrite analyzeWord_empty in Hres. injection Hres as <-.
      destruct Hin as [<-|[]]. reflexivity. }
  intros Hne.
  apply analyzeWord_Emitted in Hres; [|exact Hne].
  rewrite Forall_forall in Hres. specialize (Hres m Hin).
  assert (Hs : forall (s : string) (t : JSValue), s <> EmptyString ->
             exists s', morph {| morph := s; tag := t |} = Str s' /\
                        s' <> EmptyString)
    by (intros s t Hs; exists s; auto).
  destruct Hres as [w Hw|k Hk _|w Hw|p info m' Hp Hm|k t Hk|r Hr|e t He|
                    |q t Hq|stem Hstem]; try (apply Hs; assumption).
  - apply Hs. destruct w; [discriminate | discriminate].
  - apply hasMorph_true.
    assert (T : everyEntry (fun p i => forallb hasMorph (pushNounPrefix p i))
                  (nounPrefixes zuluAnalyzer) = true) by reflexivity.
    apply (everyEntry_In _ _ _ _ T) in Hp.
    rewrite forallb_forall in Hp. exact (Hp _ Hm).
  - apply Hs.
    apply (nonEmptyKeys_In (commonMorphemes zuluAnalyzer) k t);
      [reflexivity | exact Hk].
  - apply Hs.
    apply (nonEmptyKeys_In (verbExtensions zuluAnalyzer) e t);
      [reflexivity | exact He].
  - apply Hs. discriminate.
  - apply Hs.
    apply (nonEmptyKeys_In (quantifiers zuluAnalyzer) q t);
      [reflexivity | exact Hq].
Qed.

Lemma morphs_nonempty_witness :
  exists s, morph {| morph := "mu"; tag := "BPre3" |} = Str s /\
            s <> EmptyString.
Proof.
  apply (morphs_nonempty "umuntu" 5
           [{| morph := "u"; tag := "NPrePre3" |};
            {| morph := "mu"; tag := "BPre3" |};
            {| morph := "ntu"; tag := "NStem" |}]).
  - reflexivity.
  - simpl. right. left. reflexivity.
  - discriminate.
Defined.

Lemma whileLoop_prefix (this : ZuluMorphAnalyzer) (fuel : nat)
  (remaining : string) (morphemes result : list Morpheme) :
  whileLoop fuel this remaining morphemes = Some result ->
  exists pushed, result = (morphemes ++ pushed)%list.
Proof.
  revert remaining morphemes.
  induction fuel as [|fuel IH]; intros remaining morphemes H.
  - destruct remaining as [|c r].
    + rewrite whileLoop_empty in H. injection H as <-.
      exists []. rewrite app_nil_r. reflexivity.
    + rewrite whileLoop_no_fuel in H by discriminate. discriminate.
  - destruct remaining as [|c r].
    + rewrite whileLoop_empty in H. injection H as <-.
      exists []. rewrite app_nil_r. reflexivity.
    + rewrite whileLoop_step in H by discriminate.
      destruct (loopBody this (String c r)) as [pushed r'|pushed].
      * apply IH in H as [more ->]. exists (pushed ++ more)%list.
        rewrite app_assoc. reflexivity.
      * injection H as <-. exists pushed. reflexivity.
Qed.

Section TagFacts.

Variable this : ZuluMorphAnalyzer.
Variable bad : string.
Hypothesis never : neverTagged bad this = true.

Lemma tagIs_Str (s : string) (v : JSValue) :
  String.eqb s bad = false -> tagIs bad {| morph := v; tag := Str s |} = false.
Proof. intros H. exact H. Qed.

Lemma Emitted_neverTagged (m : Morpheme) :
  Emitted this m -> tagIs bad m = false.
Proof.
  unfold neverTagged in never.
  apply andb_true_iff in never as [never Hfix].
  apply andb_true_iff in never as [never Hvoc].
  apply andb_true_iff in never as [never Hquant].
  apply andb_true_iff in never as [never Hext].
  apply andb_true_iff in never as [Hnoun Hcommon].
  assert (Hfixed : forall t,
             In t ["Punc"; "ProperName"; "VRoot"; "VerbTerm"; "NStem";
                   "Unknown"] -> String.eqb t bad = false).
  { intros t Ht. apply negb_true_iff.
    rewrite forallb_forall in Hfix. exact (Hfix t Ht). }
  assert (Htable : forall (o : JSObject string) k t,
             everyEntry (fun _ t => negb (String.eqb t bad)) o = true ->
             In (k, t) o -> String.eqb t bad = false).
  { intros o k t Ho Hin. apply negb_true_iff.
    exact (everyEntry_In _ o k t Ho Hin). }
  intros [w Hw|k Hk Ht|w Hw|p info m' Hp Hm|k t Hk|r Hr|e t He|
          |q t Hq|stem Hstem].
  - apply tagIs_Str, Hfixed. simpl. auto.
  - unfold tagIs. simpl.
    destruct (get (vocabulary this) k) as [|s| |] eqn:E; try reflexivity.
    apply get_Str in E. exact (Htable _ _ _ Hvoc E).
  - apply tagIs_Str, Hfixed. simpl. auto.
  - apply (everyEntry_In _ _ _ _ Hnoun) in Hp.
    rewrite forallb_forall in Hp. apply negb_true_iff. exact (Hp _ Hm).
  - apply tagIs_Str. exact (Htable _ _ _ Hcommon Hk).
  - apply tagIs_Str, Hfixed. simpl. auto.
  - apply tagIs_Str. exact (Htable _ _ _ Hext He).
  - apply tagIs_Str, Hfixed. simpl. auto 6.
  - apply tagIs_Str. exact (Htable _ _ _ Hquant Hq).
  - apply tagIs_Str, Hfixed. simpl. auto 6.
Qed.

End TagFacts.

Lemma tagIs_false (t : string) (m : Morpheme) :
  tagIs t m = false -> tag m <> Str t.
Proof.
  unfold tagIs. intros H E. rewrite E in H.
  rewrite String.eqb_refl in H. discriminate.
Qed.

Lemma startsWith_append (s p : string) :
  JS.startsWith s p = true -> s = p ++ JS.skip (String.length p) s.
Proof.
  intros H. apply startsWith_take in H.
  rewrite <- (take_skip (String.length p) s) at 1. rewrite H. reflexivity.
Qed.

Lemma zuluAnalyzer_prefixes_sound :
  everyEntry soundPrefixEntry (nounPrefixes zuluAnalyzer) = true.
Proof. reflexivity. Qed.

Lemma soundPrefixEntry_true (prefix : string) (info : PrefixInfo) :
  soundPrefixEntry prefix info = true ->
  (exists c tail, prefix = String c tail) /\
  (exists s, getNounBasicPrefix (class info) = Str s /\
             truthy (getNounBasicPrefix (class info)) = true).
Proof.
  unfold soundPrefixEntry. intros H. apply andb_true_iff in H as [Hp Hb].
  split.
  - destruct prefix as [|c tail]; [discriminate | eauto].
  - destruct (getNounBasicPrefix (class info)) as [|s| |]; try discriminate.
    exists s. split; [reflexivity | exact Hb].
Qed.

(** C3.  When the noun-prefix rule matches (the first pattern of the
    table, in its order, that [remaining] starts with), the body emits a
    morpheme that holds the first character of the pattern only, then, for
    a pattern longer than one character, the morpheme (basic prefix,
    ["BPre" + class]), and it advances [remaining] by the whole pattern. *)
Theorem nounPrefix_emits_less_than_it_consumes (remaining : string)
  (before after : JSObject PrefixInfo) (prefix : string) (info : PrefixInfo) :
  nounPrefixes zuluAnalyzer = (before ++ (prefix, info) :: after)%list ->
  (forall q i, In (q, i) before -> JS.startsWith remaining q = false) ->
  JS.startsWith remaining prefix = true ->
  emitsFirstCharConsumesPattern zuluAnalyzer remaining prefix info.
Proof.
  intros Hsplit Hbefore Hstarts.
  assert (Hin : In (prefix, info) (nounPrefixes zuluAnalyzer))
    by (rewrite Hsplit; apply in_elt).
  apply (everyEntry_In _ _ _ _ zuluAnalyzer_prefixes_sound) in Hin.
  apply soundPrefixEntry_true in Hin
    as [(c & tail & Hprefix) (basic & Hbasic & Htruthy)].
  exists c, tail, basic, (JS.skip (String.length prefix) remaining).
  split; [exact Hprefix|].
  split; [apply startsWith_append; exact Hstarts|].
  split; [exact Hbasic|].
  unfold loopBody.
  rewrite (checkNounPrefixes_first _ before after prefix info remaining
             Hsplit Hbefore Hstarts).
  rewrite substring1_skip. unfold JS.length at 1. rewrite Nat2Z.id.
  f_equal. unfold pushNounPrefix.
  rewrite Htruthy, Hbasic, substring0_take. subst prefix.
  destruct (1 <? JS.length (String c tail)); reflexivity.
Qed.

Lemma nounPrefix_emits_less_than_it_consumes_witness :
  emitsFirstCharConsumesPattern zuluAnalyzer "abantu" "aba"
    {| class := 2; type := "NPrePre2" |}.
Proof.
  apply (nounPrefix_emits_less_than_it_consumes "abantu"
           [("umu", {| class := 3; type := "NPrePre3" |})]
           (List.tl (List.tl (nounPrefixes zuluAnalyzer)))).
  - reflexivity.
  - intros q i [[= <- <-]|[]]. reflexivity.
  - reflexivity.
Defined.

(** C10.  The basic-prefix lookup is defined for each of the thirteen
    declared noun classes, and every class of the noun-prefix table is one
    of them; so when the noun-prefix rule matches a pattern of more than
    one character, the guard on the basic prefix succeeds and exactly two
    morphemes are pushed. *)
Theorem basicPrefix_guard_always_succeeds :
  (forall c, In c declaredClasses ->
             exists s, getNounBasicPrefix c = Str s /\ s <> EmptyString) /\
  (forall prefix info,
      In (prefix, info) (nounPrefixes zuluAnalyzer) ->
      In (class info) declaredClasses) /\
  (forall remaining pushed remaining',
      checkNounPrefixes (nounPrefixes zuluAnalyzer) remaining
        = Some (pushed, remaining') ->
      exists prefix info,
        In (prefix, info) (nounPrefixes zuluAnalyzer) /\
        JS.startsWith remaining prefix = true /\
        (1 < JS.length prefix ->
         truthy (getNounBasicPrefix (class info)) = true /\
         List.length pushed = 2%nat)).
Proof.
  split; [|split].
  - intros c Hc. unfold declaredClasses in Hc. simpl in Hc.
    repeat (destruct Hc as [<-|Hc];
            [eexists; split; [reflexivity | discriminate]|]).
    contradiction.
  - intros prefix info Hin.
    assert (T : everyEntry
                  (fun _ i => existsb (Z.eqb (class i)) declaredClasses)
                  (nounPrefixes zuluAnalyzer) = true) by reflexivity.
    apply (everyEntry_In _ _ _ _ T) in Hin.
    apply existsb_exists in Hin as (c & Hc & E).
    apply Z.eqb_eq in E. rewrite E. exact Hc.
  - intros remaining pushed remaining' H.
    apply checkNounPrefixes_Some in H
      as (before & prefix & info & after & Hsplit & _ & Hs & -> & _).
    assert (Hin : In (prefix, info) (nounPrefixes zuluAnalyzer))
      by (rewrite Hsplit; apply in_elt).
    exists prefix, info. split; [exact Hin|]. split; [exact Hs|].
    intros Hlen.
    apply (everyEntry_In _ _ _ _ zuluAnalyzer_prefixes_sound) in Hin.
    apply soundPrefixEntry_true in Hin as [_ (basic & _ & Htruthy)].
    split; [exact Htruthy|].
    unfold pushNounPrefix. apply Z.ltb_lt in Hlen.
    rewrite Hlen, Htruthy. reflexivity.
Qed.

Lemma basicPrefix_guard_always_succeeds_witness :
  exists prefix info,
    In (prefix, info) (nounPrefixes zuluAnalyzer) /\
    JS.startsWith "izinja" prefix = true /\
    (1 < JS.length prefix ->
     truthy (getNounBasicPrefix (class info)) = true /\
     List.length [{| morph := "i"; tag := "NPrePre8" |};
                  {| morph := "zi"; tag := "BPre8" |}] = 2%nat).
Proof.
  apply (proj2 (proj2 basicPrefix_guard_always_succeeds) "izinja" _ "nja").
  reflexivity.
Defined.

(** On a string that starts with ["umu"] the body takes the first entry
    of the table, which carries class 3. *)
Lemma loopBody_umu (rest : string) :
  loopBody zuluAnalyzer ("umu" ++ rest) =
    Continue [{| morph := "u"; tag := "NPrePre3" |};
              {| morph := "mu"; tag := "BPre3" |}] rest.
Proof.
  unfold loopBody.
  rewrite (checkNounPrefixes_first (nounPrefixes zuluAnalyzer) []
             (List.tl (nounPrefixes zuluAnalyzer)) "umu"
             {| class := 3; type := "NPrePre3" |} ("umu" ++ rest) eq_refl).
  - rewrite substring1_skip. reflexivity.
  - intros ? ? [].
  - apply startsWith_refl.
Qed.

(** C4.  The noun-prefix table writes the pattern ["umu"] twice, for
    class 1 and then for class 3, and the object keeps the later value:
    on every word that gets to the stripping loop and begins with ["umu"]
    the analysis opens with ("u", "NPrePre3") and ("mu", "BPre3"), and no
    call of [analyzeWord] returns a morpheme of the class-1 entry. *)
Theorem umu_is_class_3 :
  count_occ string_dec (map fst nounPrefixes_declared) "umu" = 2%nat /\
  getOwnProperty (nounPrefixes zuluAnalyzer) "umu"
    = Some {| class := 3; type := "NPrePre3" |} /\
  (forall word fuel,
      reachesLoop zuluAnalyzer word ->
      JS.startsWith word "umu" = true ->
      (String.length word <= fuel)%nat ->
      exists rest,
        analyzeWord fuel zuluAnalyzer word =
          Some ({| morph := "u"; tag := "NPrePre3" |}
                :: {| morph := "mu"; tag := "BPre3" |} :: rest)) /\
  (forall word fuel result m,
      analyzeWord fuel zuluAnalyzer word = Some result ->
      In m result ->
      tag m <> Str "NPrePre1" /\ tag m <> Str "BPre1").
Proof.
  split; [reflexivity|]. split; [reflexivity|]. split.
  - intros word fuel (Hpunc & Hvoc & Hname) Hstarts Hfuel.
    unfold analyzeWord. rewrite Hpunc, Hvoc, Hname.
    apply startsWith_append in Hstarts. simpl String.length in Hstarts.
    remember (JS.skip 3 word) as rest eqn:Hrest. clear Hrest. subst word.
    change (JS.toLowerCase ("umu" ++ rest))
      with ("umu" ++ JS.toLowerCase rest).
    destruct fuel as [|fuel]; [simpl in Hfuel; lia|].
    rewrite whileLoop_step by discriminate. rewrite loopBody_umu.
    destruct (whileLoop_total zuluAnalyzer zuluAnalyzer_progress
                (JS.toLowerCase rest)
                ([] ++ [{| morph := "u"; tag := "NPrePre3" |};
                        {| morph := "mu"; tag := "BPre3" |}])%list fuel)
      as [result Hresult].
    { rewrite toLowerCase_length. simpl in Hfuel. lia. }
    rewrite Hresult. apply whileLoop_prefix in Hresult as [more ->].
    exists more. reflexivity.
  - intros word fuel result m Hres Hin.
    destruct word as [|c word].
    + rewrite analyzeWord_empty in Hres. injection Hres as <-.
      destruct Hin as [<-|[]]. split; discriminate.
    + apply analyzeWord_Emitted in Hres; [|discriminate].
      rewrite Forall_forall in Hres. specialize (Hres m Hin).
      split; apply tagIs_false;
        apply (Emitted_neverTagged zuluAnalyzer); [reflexivity| |reflexivity|];
        exact Hres.
Qed.

Lemma umu_is_class_3_witness :
  exists rest,
    analyzeWord 6%nat zuluAnalyzer "umuntu" =
      Some ({| morph := "u"; tag := "NPrePre3" |}
            :: {| morph := "mu"; tag := "BPre3" |} :: rest).
Proof.
  apply (proj1 (proj2 (proj2 umu_is_class_3)) "umuntu" 6%nat).
  - repeat split; reflexivity.
  - reflexivity.
  - simpl. lia.
Defined.

(** The counterexample to C1 as stated: ["anan"] gets to the
    verb-extension block and holds ["an"] at index 2, but the leftmost
    ["an"] is at index 0, the block passes the pattern over, and the body
    ends with the stem. *)
Lemma anan_is_not_split :
  reachesVerbExtensions zuluAnalyzer "anan" /\
  In ("an", "RecExt") (verbExtensions zuluAnalyzer) /\
  occursAt "anan" "an" 2 /\
  loopBody zuluAnalyzer "anan" =
    Break [{| morph := "anan"; tag := "NStem" |}] /\
  ~ splitsAtAnyOccurrence zuluAnalyzer "anan".
Proof.
  assert (O : occursAt "anan" "an" 2)
    by (unfold occursAt; repeat split; try reflexivity; discriminate).
  assert (I : In ("an", "RecExt") (verbExtensions zuluAnalyzer))
    by (simpl; auto).
  split; [repeat split; reflexivity|].
  split; [exact I|]. split; [exact O|]. split; [reflexivity|].
  intros H. destruct H as (before & ext & t & after & index & _ & _ & _ & _ & H).
  - exists "an", "RecExt", 2.
    repeat split; try exact I; try reflexivity; discriminate.
  - discriminate H.
Qed.

(** C1, amended.  On every [remaining] that gets to the verb-extension
    block, if some pattern has its leftmost occurrence past index 0, the
    body commits to the first pattern in declared order (el, an, akal, is,
    w) whose leftmost occurrence lies past index 0: with [index] that
    leftmost occurrence it emits ([remaining[0:index]], "VRoot"), then
    (pattern, tag), and leaves the suffix after the occurrence. *)
Theorem verbExtension_first_leftmost (remaining : string) :
  reachesVerbExtensions zuluAnalyzer remaining ->
  (exists ext t,
      In (ext, t) (verbExtensions zuluAnalyzer) /\
      0 < JS.indexOf remaining ext) ->
  map fst (verbExtensions zuluAnalyzer) = ["el"; "an"; "akal"; "is"; "w"] /\
  splitsAtFirstLeftmost zuluAnalyzer remaining.
Proof.
  intros (_ & Hnoun & Hcommon) (ext0 & t0 & Hin0 & Hpos0).
  split; [reflexivity|].
  destruct (checkVerbExtensions (verbExtensions zuluAnalyzer) remaining)
    as [[pushed remaining']|] eqn:E.
  - apply checkVerbExtensions_Some in E as S.
    destruct S as (before & ext & t & after & Hsplit & Hbefore & Hfires
                   & -> & ->).
    unfold extensionFires in Hfires. apply Z.ltb_lt in Hfires.
    assert (O : occursAt remaining ext (JS.indexOf remaining ext))
      by (apply indexOf_occurs; lia).
    exists before, ext, t, after,
      (JS.substring remaining 0 (JS.indexOf remaining ext)),
      (JS.substring1 remaining (JS.indexOf remaining ext + JS.length ext)).
    split; [exact Hsplit|]. split.
    { intros e t' Hin. specialize (Hbefore e t' Hin).
      unfold extensionFires in Hbefore. apply Z.ltb_ge in Hbefore.
      exact Hbefore. }
    split; [exact Hfires|]. split; [exact O|]. split.
    { intros i Hi. apply indexOf_leftmost in Hi. lia. }
    split; [reflexivity|]. split.
    { destruct O as (_ & _ & O). apply startsWith_append in O.
      rewrite skip_skip in O.
      rewrite substring0_take, substring1_skip.
      replace (Z.to_nat (JS.indexOf remaining ext + JS.length ext))
        with (Z.to_nat (JS.indexOf remaining ext) + String.length ext)%nat
        by (unfold JS.length; lia).
      rewrite <- O. symmetry. apply take_skip. }
    unfold loopBody. rewrite Hnoun, Hcommon, E. reflexivity.
  - exfalso.
    rewrite checkVerbExtensions_None in E. specialize (E ext0 t0 Hin0).
    unfold extensionFires in E. apply Z.ltb_ge in E. lia.
Qed.

Lemma verbExtension_first_leftmost_witness :
  map fst (verbExtensions zuluAnalyzer) = ["el"; "an"; "akal"; "is"; "w"] /\
  splitsAtFirstLeftmost zuluAnalyzer "bonisa".
Proof.
  apply (verbExtension_first_leftmost "bonisa").
  - repeat split; reflexivity.
  - exists "is", "CausExt". split; [simpl; auto | reflexivity].
Defined.

(** C2, where the code departs from it.  The vocabulary check also fires
    on a name that [Object.prototype] defines: ["constructor"] is no key of
    the declared vocabulary, yet the read [this.vocabulary["constructor"]]
    finds the inherited constructor, which is truthy, and [analyzeWord]
    returns one morpheme with that function as its tag. *)
Theorem vocabulary_check_fires_on_constructor (fuel : nat) :
  ~ In "constructor" (map fst vocabulary_declared) /\
  getOwnProperty (vocabulary zuluAnalyzer) "constructor" = None /\
  isPunctuation "constructor" = false /\
  analyzeWord fuel zuluAnalyzer "constructor" =
    Some [{| morph := "constructor"; tag := NativeFunction "Object" |}] /\
  formatMorphAnalysis "constructor"
    [{| morph := "constructor"; tag := NativeFunction "Object" |}] =
    "constructor[function Object() { [native code] }]".
Proof.
  split.
  - simpl. intros H.
    repeat (destruct H as [H|H]; [discriminate|]). exact H.
  - repeat split; reflexivity.
Qed.

(** ** Lines and words *)

Section TextFacts.

Lemma trimStart_whiteSpaceOnly (s : string) :
  whiteSpaceOnly (JS.trimStart s) = whiteSpaceOnly s.
Proof.
  induction s as [|c s IH]; simpl; [reflexivity|].
  destruct (JS.isWhiteSpace c) eqn:E; simpl; [exact IH | rewrite E; reflexivity].
Qed.

Lemma trimEnd_empty (s : string) :
  JS.trimEnd s = EmptyString <-> whiteSpaceOnly s = true.
Proof.
  induction s as [|c s IH]; simpl; [tauto|].
  destruct (JS.trimEnd s) as [|d t].
  - destruct (JS.isWhiteSpace c); simpl.
    + rewrite <- IH. tauto.
    + split; discriminate.
  - split; [discriminate|]. intros H.
    apply andb_true_iff in H as [_ H]. apply IH in H. discriminate.
Qed.

(** The filter of [analyzeText] drops the lines of white space only. *)
Lemma truthy_trim (line : string) :
  truthy (Str (JS.trim line)) = negb (whiteSpaceOnly line).
Proof.
  unfold JS.trim. simpl. f_equal.
  rewrite <- (trimStart_whiteSpaceOnly line).
  destruct (whiteSpaceOnly (JS.trimStart line)) eqn:E.
  - apply trimEnd_empty in E. rewrite E. reflexivity.
  - apply String.eqb_neq. intros H. apply trimEnd_empty in H. congruence.
Qed.

Lemma trimStart_startsWithWord (s : string) :
  JS.trimStart s = EmptyString \/ startsWithWord (JS.trimStart s) = true.
Proof.
  induction s as [|c s IH]; simpl; [auto|].
  destruct (JS.isWhiteSpace c) eqn:E; [exact IH|].
  right. simpl. rewrite E. reflexivity.
Qed.

Lemma trimEnd_first (s : string) (c : ascii) (t : string) :
  JS.trimEnd s = String c t -> exists s', s = String c s'.
Proof.
  destruct s as [|d s]; simpl; [discriminate|].
  destruct (JS.trimEnd s).
  - destruct (JS.isWhiteSpace d); [discriminate|]. intros [= <- _]. eauto.
  - intros [= <- _]. eauto.
Qed.

Lemma trimEnd_endsWithWord (s : string) :
  JS.trimEnd s <> EmptyString -> endsWithWord (JS.trimEnd s) = true.
Proof.
  induction s as [|c s IH]; simpl; [congruence|].
  destruct (JS.trimEnd s) as [|d t].
  - destruct (JS.isWhiteSpace c) eqn:E; [congruence|].
    intros _. simpl. rewrite E. reflexivity.
  - intros _. simpl. apply IH. discriminate.
Qed.

Lemma wordsOf_whiteSpaceOnly (s : string) :
  whiteSpaceOnly s = true -> wordsOf s = [].
Proof.
  induction s as [|c s IH]; simpl; [reflexivity|].
  intros H. apply andb_true_iff in H as [Hc Hs]. rewrite Hc. auto.
Qed.

Lemma wordsOf_trimStart (s : string) : wordsOf (JS.trimStart s) = wordsOf s.
Proof.
  induction s as [|c s IH]; [reflexivity|].
  cbn [JS.trimStart]. destruct (JS.isWhiteSpace c) eqn:E; [|reflexivity].
  rewrite IH. cbn [wordsOf]. rewrite E. reflexivity.
Qed.

(** Unfolding of [wordsOf] at a character that is not white space. *)
Lemma wordsOf_word (c : ascii) (s : string) :
  JS.isWhiteSpace c = false ->
  wordsOf (String c s) =
    if startsWithWord s then
      match wordsOf s with
      | [] => [String c EmptyString]
      | word :: words => String c word :: words
      end
    else String c EmptyString :: wordsOf s.
Proof.
  intros E. cbn [wordsOf]. rewrite E.
  destruct s as [|d s]; [reflexivity|].
  simpl startsWithWord. destruct (JS.isWhiteSpace d); reflexivity.
Qed.

Lemma wordsOf_trimEnd (s : string) : wordsOf (JS.trimEnd s) = wordsOf s.
Proof.
  induction s as [|c s IH]; [reflexivity|].
  cbn [JS.trimEnd].
  destruct (JS.trimEnd s) as [|d t] eqn:T.
  - apply trimEnd_empty in T. pose proof (wordsOf_whiteSpaceOnly s T) as W.
    destruct (JS.isWhiteSpace c) eqn:E.
    + cbn [wordsOf]. rewrite E. rewrite W. reflexivity.
    + rewrite !(wordsOf_word c _ E), W.
      destruct s as [|d s]; [reflexivity|].
      simpl in T. apply andb_true_iff in T as [Td _].
      simpl. rewrite Td. reflexivity.
  - destruct (JS.isWhiteSpace c) eqn:E.
    + cbn [wordsOf]. rewrite E. exact IH.
    + rewrite !(wordsOf_word c _ E), IH.
      apply trimEnd_first in T as [s' ->]. reflexivity.
Qed.

(** On a string that ends in a word, [split(/\s+/)] yields the words,
    and no empty piece when the string starts with a word as well. *)
Lemma splitWhiteSpace_words (s : string) :
  endsWithWord s = true ->
  JS.splitWhiteSpace_aux true s = wordsOf s /\
  (startsWithWord s = true -> JS.splitWhiteSpace_aux false s = wordsOf s).
Proof.
  induction s as [|c s IH]; [discriminate|].
  intros Hend. cbn [JS.splitWhiteSpace_aux].
  destruct (JS.isWhiteSpace c) eqn:E.
  - assert (Hs : endsWithWord s = true).
    { destruct s; [simpl in Hend; rewrite E in Hend; discriminate|exact Hend]. }
    destruct (IH Hs) as [IH1 _].
    split.
    + rewrite IH1. cbn [wordsOf]. rewrite E. reflexivity.
    + simpl. rewrite E. discriminate.
  - rewrite (wordsOf_word c s E).
    assert (G : match JS.splitWhiteSpace_aux false s with
                | [] => [String c EmptyString]
                | piece :: pieces => String c piece :: pieces
                end =
                if startsWithWord s then
                  match wordsOf s with
                  | [] => [String c EmptyString]
                  | word :: words => String c word :: words
                  end
                else String c EmptyString :: wordsOf s).
    { destruct s as [|d s]; [reflexivity|].
      assert (Hs : endsWithWord (String d s) = true) by exact Hend.
      destruct (IH Hs) as [IH1 IH2].
      simpl startsWithWord in *.
      destruct (JS.isWhiteSpace d) eqn:D; simpl negb in *.
      - cbn [JS.splitWhiteSpace_aux] in *. rewrite D in *.
        rewrite IH1. reflexivity.
      - rewrite IH2 by reflexivity. reflexivity. }
    split; [exact G | intros _; exact G].
Qed.

(** The words the code analyzes on a kept line are the words of the
    line. *)
Lemma splitWhiteSpace_trim (line : string) :
  whiteSpaceOnly line = false ->
  JS.splitWhiteSpace (JS.trim line) = wordsOf line.
Proof.
  intros H. unfold JS.splitWhiteSpace, JS.trim.
  assert (Hne : JS.trimEnd (JS.trimStart line) <> EmptyString).
  { intros E. apply trimEnd_empty in E.
    rewrite trimStart_whiteSpaceOnly in E. congruence. }
  destruct (splitWhiteSpace_words _ (trimEnd_endsWithWord _ Hne)) as [_ S].
  rewrite S.
  - rewrite wordsOf_trimEnd, wordsOf_trimStart. reflexivity.
  - destruct (trimStart_startsWithWord line) as [E|E].
    + rewrite E in Hne. simpl in Hne. congruence.
    + destruct (JS.trimEnd (JS.trimStart line)) as [|c t] eqn:T;
        [congruence|].
      apply trimEnd_first in T as [s' T]. rewrite T in E. exact E.
Qed.

End TextFacts.

(** ** analyzeText *)

Section ForEachFacts.

Context {A B C : Type}.

Lemma forEach_ext (f g : A -> option B) (xs : list A) :
  (forall x, In x xs -> f x = g x) -> forEach f xs = forEach g xs.
Proof.
  induction xs as [|x xs IH]; intros H; simpl; [reflexivity|].
  rewrite (H x) by (left; reflexivity).
  rewrite IH by (intros y Hy; apply H; right; exact Hy). reflexivity.
Qed.

(** Pushing [g] of each result is mapping [g] over the results. *)
Lemma forEach_map (f : A -> option B) (g : B -> C) (xs : list A) :
  forEach (fun x => y <- f x ;; Some (g y)) xs =
  (ys <- forEach f xs ;; Some (map g ys)).
Proof.
  induction xs as [|x xs IH]; simpl; [reflexivity|].
  destruct (f x) as [y|]; simpl; [|reflexivity].
  rewrite IH. destruct (forEach f xs); reflexivity.
Qed.

Lemma forEach_total (f : A -> option B) (xs : list A) :
  (forall x, In x xs -> exists y, f x = Some y) ->
  exists ys, forEach f xs = Some ys.
Proof.
  induction xs as [|x xs IH]; intros H; simpl; [eauto|].
  destruct (H x) as [y ->]; [left; reflexivity|].
  destruct IH as [ys ->]; [intros z Hz; apply H; right; exact Hz|].
  simpl. eauto.
Qed.

End ForEachFacts.

(** Filtering and then counting the index from [start] numbers the kept
    lines consecutively from [start + 1]. *)
Lemma forEachIndexed_kept {B : Type} (f : string -> Z -> option B)
  (g : Z * string -> option B) (lines : list string) (start : Z) :
  (forall line index,
      whiteSpaceOnly line = false -> f line index = g (index + 1, line)) ->
  forEachIndexed f (filter (fun line => truthy (Str (JS.trim line))) lines)
    start =
  forEach g (numberKeptLines (start + 1) lines).
Proof.
  intros H. revert start.
  induction lines as [|line lines IH]; intros start; [reflexivity|].
  cbn [filter numberKeptLines]. rewrite truthy_trim.
  destruct (whiteSpaceOnly line) eqn:E; cbn [negb].
  - apply IH.
  - cbn [forEachIndexed forEach]. rewrite (H line start E), IH. reflexivity.
Qed.

Lemma numberKeptLines_In (next : Z) (lines : list string) (n : Z)
  (line : string) :
  In (n, line) (numberKeptLines next lines) -> In line lines.
Proof.
  revert next. induction lines as [|l lines IH]; intros next; simpl; [auto|].
  destruct (whiteSpaceOnly l).
  - intros H. right. eapply IH; eauto.
  - intros [[= _ <-]|H]; [left; reflexivity | right; eapply IH; eauto].
Qed.

Lemma split_length (text : string) (sep : ascii) (piece : string) :
  In piece (JS.split text sep) ->
  (String.length piece <= String.length text)%nat.
Proof.
  revert piece. induction text as [|c text IH]; intros piece; simpl.
  - intros [<-|[]]. simpl. lia.
  - destruct (Ascii.eqb c sep).
    + intros [<-|H]; [simpl; lia | apply IH in H; lia].
    + destruct (JS.split text sep) as [|p ps] eqn:E.
      * intros [<-|[]]. simpl. lia.
      * intros [<-|H].
        -- simpl. specialize (IH p (or_introl eq_refl)). lia.
        -- specialize (IH piece (or_intror H)). lia.
Qed.

Lemma wordsOf_length (line word : string) :
  In word (wordsOf line) ->
  (String.length word <= String.length line)%nat.
Proof.
  revert word. induction line as [|c line IH]; intros word; [intros []|].
  destruct (JS.isWhiteSpace c) eqn:E.
  - cbn [wordsOf]. rewrite E. intros H. apply IH in H. simpl. lia.
  - rewrite (wordsOf_word c line E).
    destruct (startsWithWord line).
    + destruct (wordsOf line) as [|w ws].
      * intros [<-|[]]. simpl. lia.
      * intros [<-|H].
        -- simpl. specialize (IH w (or_introl eq_refl)). lia.
        -- specialize (IH word (or_intror H)). simpl. lia.
    + intros [<-|H]; [simpl; lia | apply IH in H; simpl; lia].
Qed.

(** The code of [analyzeText] computes what the design document
    words. *)
Lemma analyzeText_refines (fuel : nat) (this : ZuluMorphAnalyzer)
  (text : string) :
  analyzeText fuel this text = analyzeText_spec (analyzeWord fuel this) text.
Proof.
  unfold analyzeText, analyzeText_spec.
  rewrite (forEachIndexed_kept _ (renderLine (analyzeWord fuel this))).
  - reflexivity.
  - intros line index Hkept. unfold renderLine. simpl fst. simpl snd.
    rewrite (splitWhiteSpace_trim line Hkept).
    change (fun word : string =>
              morphemes <- analyzeWord fuel this word ;;
              Some (formatMorphAnalysis word morphemes))
      with (fun word : string =>
              morphemes <- analyzeWord fuel this word ;;
              Some (renderWord morphemes)).
    rewrite forEach_map.
    destruct (forEach (analyzeWord fuel this) (wordsOf line)); reflexivity.
Qed.

(** With fuel for one pass per character of the text, [analyzeText]
    returns. *)
Lemma analyzeText_returns (text : string) (fuel : nat) :
  (String.length text <= fuel)%nat ->
  exists out, analyzeText fuel zuluAnalyzer text = Some out.
Proof.
  intros Hfuel. rewrite analyzeText_refines. unfold analyzeText_spec.
  destruct (forEach_total (renderLine (analyzeWord fuel zuluAnalyzer))
              (numberKeptLines 1 (JS.split text LF))) as [blocks ->].
  - intros [n line] Hin. apply numberKeptLines_In in Hin.
    apply split_length in Hin. unfold renderLine. simpl snd.
    destruct (forEach_total (analyzeWord fuel zuluAnalyzer) (wordsOf line))
      as [analyses ->].
    + intros word Hword. apply wordsOf_length in Hword.
      destruct (analyzeWord_returns word fuel) as (r & -> & _); [lia|].
      eauto.
    + simpl. eauto.
  - simpl. eauto.
Qed.

(** C7.  [analyzeText] splits the text at the line feeds, drops the lines
    that are empty or hold white space only, numbers the lines it keeps
    1, 2, ... in order, takes the words of each kept line (the runs
    between white space) in order, and renders a line as [<LINE n>]
    followed at once by its words, a space between two words, each word
    its morphemes as [morph[TAG]] joined by [-]; the lines are joined by a
    line feed.  It returns on every text, and on "jongo.", an empty line
    and "Afrika" it yields the two blocks [<LINE 1>] and [<LINE 2>]. *)
Theorem analyzeText_renders_kept_lines :
  (forall fuel this text,
      analyzeText fuel this text
      = analyzeText_spec (analyzeWord fuel this) text) /\
  (forall text extra,
      exists out,
        analyzeText (String.length text + extra) zuluAnalyzer text
        = Some out) /\
  (forall fuel,
      analyzeText (6 + fuel) zuluAnalyzer
        ("jongo." ++ String LF (String LF "Afrika"))
      = Some ("<LINE 1>jongo.[NStem]" ++ String LF "<LINE 2>Afrika[ProperName]")).
Proof.
  split; [exact analyzeText_refines|]. split.
  - intros text extra. apply analyzeText_returns. lia.
  - intros fuel. reflexivity.
Qed.

(** ** The vocabulary check *)

Lemma toLowerCase_noCapital (s : string) : noCapital (JS.toLowerCase s) = true.
Proof.
  induction s as [|c s IH]; simpl; [reflexivity|].
  rewrite IH, andb_true_r.
  pose proof (lowerChar_not_capital c) as H. simpl in H. rewrite H.
  reflexivity.
Qed.

(** The vocabulary check of [analyzeWord] fires exactly on the words
    whose lower-case form is a declared key without a capital letter or
    one of ["constructor"] and ["__proto__"]; a lower-case form never
    equals a declared key that has a capital letter. *)
Theorem vocabulary_check_characterised (word : string) :
  (truthy (get (vocabulary zuluAnalyzer) (JS.toLowerCase word)) = true <->
   In (JS.toLowerCase word) vocabularyHits) /\
  JS.toLowerCase word <> "Afrika" /\
  JS.toLowerCase word <> "Ningizimu".
Proof.
  pose proof (toLowerCase_noCapital word) as Hlow.
  remember (JS.toLowerCase word) as k eqn:Hk. clear Hk.
  split; [split|].
  - unfold get.
    destruct (getOwnProperty (vocabulary zuluAnalyzer) k) as [s|] eqn:E1.
    + intros _. apply getOwnProperty_In in E1.
      change (vocabulary zuluAnalyzer) with vocabulary_declared in E1.
      unfold vocabulary_declared, vocabularyHits in *.
      table_cases E1.
    + destruct (getOwnProperty Object_prototype k) as [v|] eqn:E2;
        [|discriminate].
      intros _. apply getOwnProperty_In in E2.
      unfold Object_prototype, vocabularyHits in *.
      table_cases E2.
  - unfold vocabularyHits. intros H. simpl in H.
    repeat (destruct H as [<-|H]; [reflexivity|]). contradiction.
  - split; intros ->; discriminate.
Qed.

(** ** Patterns that an earlier pattern hides *)

Lemma startsWith_app_l (s p q : string) :
  JS.startsWith s (p ++ q) = true -> JS.startsWith s p = true.
Proof.
  revert s. induction p as [|a p IH]; intros s; [intros _; apply startsWith_nil|].
  destruct s as [|b s]; simpl; [discriminate|].
  intros H. apply andb_true_iff in H as [Hab H].
  rewrite Hab. simpl. apply IH. exact H.
Qed.

(** The noun-prefix rule never selects the entry ["izin"] of class 10:
    ["izi"], of class 8, comes earlier in the table and matches whenever
    ["izin"] does, and the first hit wins. *)
Theorem izin_is_never_selected (remaining : string) (pushed : list Morpheme)
  (remaining' : string) (m : Morpheme) :
  checkNounPrefixes (nounPrefixes zuluAnalyzer) remaining
    = Some (pushed, remaining') ->
  In m pushed ->
  tag m <> Str "NPrePre10" /\ tag m <> Str "BPre10".
Proof.
  change (nounPrefixes zuluAnalyzer)
    with (objectLiteral nounPrefixes_declared).
  cbv [objectLiteral nounPrefixes_declared fold_left setProperty fst snd
       String.eqb Ascii.eqb Bool.eqb].
  cbn [checkNounPrefixes]. intros H Hin.
  repeat (next_prefix H;
          [injection H as <- _; cbv in Hin;
           try (destruct Hin as [<-|[<-|[]]]; split; discriminate)|]).
  - exfalso.
    match goal with
    | Hizi : JS.startsWith remaining "izi" = false,
      Hizin : JS.startsWith remaining "izin" = true |- _ =>
        apply (startsWith_app_l remaining "izi" "n") in Hizin; congruence
    end.
  - discriminate H.
Qed.

Lemma izin_is_never_selected_witness :
  tag {| morph := "i"; tag := "NPrePre8" |} <> Str "NPrePre10" /\
  tag {| morph := "i"; tag := "NPrePre8" |} <> Str "BPre10".
Proof.
  apply (izin_is_never_selected "izinja"
           [{| morph := "i"; tag := "NPrePre8" |};
            {| morph := "zi"; tag := "BPre8" |}] "nja").
  - reflexivity.
  - left. reflexivity.
Defined.

(** ** The analysis spells the word *)

Lemma append_empty_r (s : string) : s ++ EmptyString = s.
Proof. induction s as [|c s IH]; simpl; [reflexivity | f_equal; exact IH]. Qed.

Lemma append_assoc (s t u : string) : (s ++ t) ++ u = s ++ (t ++ u).
Proof. induction s as [|c s IH]; simpl; [reflexivity | f_equal; exact IH]. Qed.

Lemma append_length (s t : string) :
  String.length (s ++ t) = (String.length s + String.length t)%nat.
Proof. induction s as [|c s IH]; simpl; [reflexivity | f_equal; exact IH]. Qed.

Lemma surface_app (ms ns : list Morpheme) :
  surface (ms ++ ns)%list = surface ms ++ surface ns.
Proof.
  induction ms as [|m ms IH]; simpl; [reflexivity|].
  rewrite IH, append_assoc. reflexivity.
Qed.

(** An invariant of the pushed morphemes is an invariant of the array the
    loop returns. *)
Lemma whileLoop_Forall (this : ZuluMorphAnalyzer) (P : Morpheme -> Prop) :
  (forall remaining, remaining <> EmptyString ->
                     Forall P (pushedBy (loopBody this remaining))) ->
  forall fuel remaining morphemes result,
    Forall P morphemes ->
    whileLoop fuel this remaining morphemes = Some result ->
    Forall P result.
Proof.
  intros Hbody fuel.
  induction fuel as [|fuel IH]; intros remaining morphemes result Hm H.
  - destruct remaining as [|c r].
    + rewrite whileLoop_empty in H. congruence.
    + rewrite whileLoop_no_fuel in H by discriminate. discriminate.
  - destruct remaining as [|c r].
    + rewrite whileLoop_empty in H. congruence.
    + rewrite whileLoop_step in H by discriminate.
      assert (Hp := Hbody (String c r)).
      destruct (loopBody this (String c r)) as [pushed r'|pushed];
        simpl in Hp.
      * apply IH in H; [exact H|]. apply Forall_app. split; [exact Hm|].
        apply Hp. discriminate.
      * injection H as <-. apply Forall_app. split; [exact Hm|].
        apply Hp. discriminate.
Qed.

(** Root, extension and rest put together again give [remaining]. *)
Lemma split_extension_rebuilds (remaining ext : string) :
  extensionFires remaining ext = true ->
  JS.substring remaining 0 (JS.indexOf remaining ext) ++ ext ++
  JS.substring1 remaining (JS.indexOf remaining ext + JS.length ext)
  = remaining.
Proof.
  unfold extensionFires. intros H. apply Z.ltb_lt in H.
  assert (O : occursAt remaining ext (JS.indexOf remaining ext))
    by (apply indexOf_occurs; lia).
  destruct O as (_ & _ & O). apply startsWith_append in O.
  rewrite skip_skip in O.
  rewrite substring0_take, substring1_skip.
  replace (Z.to_nat (JS.indexOf remaining ext + JS.length ext))
    with (Z.to_nat (JS.indexOf remaining ext) + String.length ext)%nat
    by (unfold JS.length; lia).
  rewrite <- O. apply take_skip.
Qed.

(** The verb-termination block fires on a string that ends in ["a"], and
    root and termination give the string again. *)
Lemma checkVerbTermination_rebuilds (remaining : string)
  (pushed : list Morpheme) (remaining' : string) :
  checkVerbTermination remaining = Some (pushed, remaining') ->
  surface pushed = remaining /\ remaining' = EmptyString.
Proof.
  unfold checkVerbTermination.
  destruct (JS.endsWith remaining "a") eqn:E; simpl; [|discriminate].
  destruct (1 <? JS.length remaining) eqn:L; [|discriminate].
  destruct (0 <? JS.length _); [|discriminate].
  intros [= <- <-]. split; [|reflexivity].
  unfold JS.endsWith in E. apply andb_true_iff in E as [_ E].
  apply String.eqb_eq in E. simpl.
  rewrite substring1_skip in E. rewrite substring0_take.
  change (JS.length "a") with 1 in E.
  pose proof (take_skip (Z.to_nat (JS.length remaining - 1)) remaining) as T.
  rewrite E in T. exact T.
Qed.

Section Spelling.

Variable this : ZuluMorphAnalyzer.
Hypothesis spells : everyEntry spellsPattern (nounPrefixes this) = true.

(** A pass through the body pushes a spelling of what it takes off
    [remaining]. *)
Lemma loopBody_spells (remaining : string) :
  match loopBody this remaining with
  | Continue pushed remaining' => surface pushed ++ remaining' = remaining
  | Break pushed => surface pushed = remaining
  end.
Proof.
  unfold loopBody.
  destruct (checkNounPrefixes _ _) as [[p r]|] eqn:E1.
  { apply checkNounPrefixes_Some in E1
      as (before & q & info & after & Hsplit & _ & Hs & -> & ->).
    assert (Hin : In (q, info) (nounPrefixes this))
      by (rewrite Hsplit; apply in_elt).
    apply (everyEntry_In _ _ _ _ spells) in Hin.
    unfold spellsPattern in Hin. apply String.eqb_eq in Hin. rewrite Hin.
    rewrite substring1_skip. unfold JS.length. rewrite Nat2Z.id.
    symmetry. apply startsWith_append. exact Hs. }
  destruct (checkCommonMorphemes _ _) as [[p r]|] eqn:E2.
  { apply checkCommonMorphemes_Some in E2 as (q & t & _ & Hs & -> & ->).
    simpl. rewrite append_empty_r.
    rewrite substring1_skip. unfold JS.length. rewrite Nat2Z.id.
    symmetry. apply startsWith_append. exact Hs. }
  destruct (checkVerbExtensions _ _) as [[p r]|] eqn:E3.
  { apply checkVerbExtensions_Some in E3
      as (before & ext & t & after & _ & _ & Hf & -> & ->).
    simpl. rewrite append_empty_r, append_assoc.
    apply split_extension_rebuilds. exact Hf. }
  destruct (checkVerbTermination _) as [[p r]|] eqn:E4.
  { apply checkVerbTermination_rebuilds in E4 as [E4 ->].
    rewrite append_empty_r. exact E4. }
  destruct (checkQuantifiers _ _) as [[p r]|] eqn:E5.
  { apply checkQuantifiers_Some in E5 as (t & _ & -> & ->).
    simpl. rewrite !append_empty_r. reflexivity. }
  simpl. apply append_empty_r.
Qed.

Lemma whileLoop_spells (fuel : nat) (remaining : string)
  (morphemes result : list Morpheme) :
  whileLoop fuel this remaining morphemes = Some result ->
  surface result = surface morphemes ++ remaining.
Proof.
  revert remaining morphemes.
  induction fuel as [|fuel IH]; intros remaining morphemes H.
  - destruct remaining as [|c r].
    + rewrite whileLoop_empty in H. injection H as <-.
      rewrite append_empty_r. reflexivity.
    + rewrite whileLoop_no_fuel in H by discriminate. discriminate.
  - destruct remaining as [|c r].
    + rewrite whileLoop_empty in H. injection H as <-.
      rewrite append_empty_r. reflexivity.
    + rewrite whileLoop_step in H by discriminate.
      pose proof (loopBody_spells (String c r)) as S.
      destruct (loopBody this (String c r)) as [pushed r'|pushed].
      * apply IH in H. rewrite H, surface_app, append_assoc, S. reflexivity.
      * injection H as <-. rewrite surface_app, S. reflexivity.
Qed.

End Spelling.

Lemma zuluAnalyzer_spells :
  everyEntry spellsPattern (nounPrefixes zuluAnalyzer) = true.
Proof. reflexivity. Qed.

Lemma toLowerCase_idempotent (s : string) :
  JS.toLowerCase (JS.toLowerCase s) = JS.toLowerCase s.
Proof.
  induction s as [|c s IH]; simpl; [reflexivity|].
  rewrite lowerChar_idempotent, IH. reflexivity.
Qed.

(** The six punctuation characters have no lower-case form of their own,
    and no other character has one of them as its lower-case form. *)
Lemma isPunctuation_toLowerCase (word : string) :
  isPunctuation (JS.toLowerCase word) = isPunctuation word /\
  (isPunctuation word = true -> JS.toLowerCase word = word).
Proof.
  destruct word as [|c [|d word]]; [split; reflexivity | | split; [reflexivity | discriminate]].
  destruct c as [[] [] [] [] [] [] [] []];
    split; try reflexivity; discriminate.
Qed.

Lemma startsWithCapital_toLowerCase (word : string) :
  startsWithCapital (JS.toLowerCase word) = false.
Proof.
  destruct word as [|c word]; [reflexivity|].
  exact (lowerChar_not_capital c).
Qed.

(** The text an analysis spells is as long as the word. *)
Lemma analyzeWord_surface_length (word : string) (fuel : nat)
  (result : list Morpheme) :
  analyzeWord fuel zuluAnalyzer word = Some result ->
  String.length (surface result) = String.length word.
Proof.
  unfold analyzeWord.
  destruct (isPunctuation word).
  { intros [= <-]. simpl. rewrite append_empty_r. reflexivity. }
  destruct (truthy _).
  { intros [= <-]. simpl. rewrite append_empty_r. apply toLowerCase_length. }
  destruct (_ && _).
  { intros [= <-]. simpl. rewrite append_empty_r. reflexivity. }
  destruct (whileLoop _ _ _ _) as [ms|] eqn:E; [|discriminate].
  intros [= <-].
  apply (whileLoop_spells _ zuluAnalyzer_spells) in E as S. simpl in S.
  destruct (0 <? Z.of_nat (List.length ms)).
  - rewrite S. apply toLowerCase_length.
  - simpl. rewrite append_empty_r. reflexivity.
Qed.

(** The text an analysis spells: the lower-case word, or the word as
    written when it begins with a capital letter and was taken for a
    proper name. *)
Lemma analyzeWord_surface (word : string) (fuel : nat)
  (result : list Morpheme) :
  analyzeWord fuel zuluAnalyzer word = Some result ->
  surface result = JS.toLowerCase word \/
  (surface result = word /\ startsWithCapital word = true).
Proof.
  unfold analyzeWord.
  destruct (isPunctuation word) eqn:E1.
  { intros [= <-]. simpl. rewrite append_empty_r.
    destruct (isPunctuation_toLowerCase word) as [_ L].
    rewrite (L E1). auto. }
  destruct (truthy _) eqn:E2.
  { intros [= <-]. simpl. rewrite append_empty_r. auto. }
  destruct (startsWithCapital word) eqn:E3; simpl.
  - destruct (2 <? JS.length word).
    { intros [= <-]. simpl. rewrite append_empty_r. auto. }
    destruct (whileLoop _ _ _ _) as [ms|] eqn:E4; [|discriminate].
    intros [= <-].
    apply (whileLoop_spells _ zuluAnalyzer_spells) in E4 as S. simpl in S.
    destruct (0 <? Z.of_nat (List.length ms)) eqn:E5; [auto|].
    simpl. rewrite append_empty_r. auto.
  - destruct (whileLoop _ _ _ _) as [ms|] eqn:E4; [|discriminate].
    intros [= <-]. left.
    apply (whileLoop_spells _ zuluAnalyzer_spells) in E4 as S. simpl in S.
    destruct (0 <? Z.of_nat (List.length ms)) eqn:E5; [exact S|].
    destruct ms; [|discriminate]. simpl in S. rewrite <- S.
    destruct word; [reflexivity | discriminate].
Qed.

(** X3.  The morphs of an analysis, put one after the other, spell the
    word: in lower case, except that a word recognised as a proper name
    keeps its capitals.  Nothing of the word is dropped or repeated, in
    spite of the noun-prefix block pushing one character and then a basic
    prefix for a pattern it strips whole. *)
Theorem analysis_spells_word (word : string) (fuel : nat)
  (result : list Morpheme) :
  analyzeWord fuel zuluAnalyzer word = Some result ->
  JS.toLowerCase (surface result) = JS.toLowerCase word /\
  (startsWithCapital word = false -> surface result = JS.toLowerCase word).
Proof.
  intros H.
  destruct (analyzeWord_surface word fuel result H) as [S|[S C]].
  - rewrite S. split; [apply toLowerCase_idempotent | reflexivity].
  - rewrite S. split; [reflexivity | congruence].
Qed.

Lemma analysis_spells_word_witness :
  JS.toLowerCase
    (surface [{| morph := "u"; tag := "NPrePre3" |};
              {| morph := "mu"; tag := "BPre3" |};
              {| morph := "ntu"; tag := "NStem" |}])
  = JS.toLowerCase "uMuntu" /\
  (startsWithCapital "uMuntu" = false ->
   surface [{| morph := "u"; tag := "NPrePre3" |};
            {| morph := "mu"; tag := "BPre3" |};
            {| morph := "ntu"; tag := "NStem" |}]
   = JS.toLowerCase "uMuntu").
Proof.
  apply (analysis_spells_word "uMuntu" 4). reflexivity.
Defined.

(** Every morpheme of the declared analyzer on a non-empty word has a
    non-empty string as its morph. *)
Lemma Emitted_hasMorph (m : Morpheme) :
  Emitted zuluAnalyzer m -> hasMorph m = true.
Proof.
  assert (Hs : forall (s : string) (t : JSValue), s <> EmptyString ->
             hasMorph {| morph := s; tag := t |} = true).
  { intros s t Hs. unfold hasMorph. simpl.
    apply negb_true_iff, String.eqb_neq. exact Hs. }
  intros [w Hw|k Hk _|w Hw|p info m' Hp Hm|k t Hk|r Hr|e t He|
          |q t Hq|stem Hstem]; try (apply Hs; assumption).
  - apply Hs. destruct w; discriminate.
  - assert (T : everyEntry (fun p i => forallb hasMorph (pushNounPrefix p i))
                  (nounPrefixes zuluAnalyzer) = true) by reflexivity.
    apply (everyEntry_In _ _ _ _ T) in Hp.
    rewrite forallb_forall in Hp. exact (Hp _ Hm).
  - apply Hs.
    apply (nonEmptyKeys_In (commonMorphemes zuluAnalyzer) k t);
      [reflexivity | exact Hk].
  - apply Hs.
    apply (nonEmptyKeys_In (verbExtensions zuluAnalyzer) e t);
      [reflexivity | exact He].
  - reflexivity.
  - apply Hs.
    apply (nonEmptyKeys_In (quantifiers zuluAnalyzer) q t);
      [reflexivity | exact Hq].
Qed.

Lemma surface_length (ms : list Morpheme) :
  Forall (fun m => hasMorph m = true) ms ->
  (List.length ms <= String.length (surface ms))%nat.
Proof.
  induction 1 as [|m ms Hm _ IH]; simpl; [lia|].
  rewrite append_length.
  apply hasMorph_true in Hm as (s & -> & Hs). simpl.
  destruct s; [congruence | simpl; lia].
Qed.

(** X4.  An analysis has at most as many morphemes as the word has
    characters (and exactly one for the empty word). *)
Theorem analysis_no_longer_than_word (word : string) (fuel : nat)
  (result : list Morpheme) :
  analyzeWord fuel zuluAnalyzer word = Some result ->
  (word <> EmptyString ->
   (List.length result <= String.length word)%nat) /\
  (word = EmptyString -> List.length result = 1%nat).
Proof.
  intros H. split.
  - intros Hne.
    rewrite <- (analyzeWord_surface_length word fuel result H). apply surface_length.
    apply analyzeWord_Emitted in H; [|exact Hne].
    eapply Forall_impl; [|exact H]. apply Emitted_hasMorph.
  - intros ->. rewrite analyzeWord_empty in H. injection H as <-.
    reflexivity.
Qed.

Lemma analysis_no_longer_than_word_witness :
  ("ngiyabonga" <> EmptyString ->
   (List.length [{| morph := "ng"; tag := "CopPre" |};
                 {| morph := "iyabong"; tag := "VRoot" |};
                 {| morph := "a"; tag := "VerbTerm" |}]
    <= String.length "ngiyabonga")%nat) /\
  ("ngiyabonga" = EmptyString ->
   List.length [{| morph := "ng"; tag := "CopPre" |};
                {| morph := "iyabong"; tag := "VRoot" |};
                {| morph := "a"; tag := "VerbTerm" |}] = 1%nat).
Proof.
  apply (analysis_no_longer_than_word "ngiyabonga" 5). reflexivity.
Defined.

(** ** Upper and lower case *)

(** X5.  Apart from the proper-name rule, [analyzeWord] does not see the
    case of the letters: a word that does not begin with a capital letter
    [A-Z], or has at most two characters, is analysed exactly like its
    lower-case form, whatever the tables hold. *)
Theorem analyzeWord_ignores_case (this : ZuluMorphAnalyzer) (fuel : nat)
  (word : string) :
  startsWithCapital word && (2 <? JS.length word) = false ->
  analyzeWord fuel this word = analyzeWord fuel this (JS.toLowerCase word).
Proof.
  intros Hname. unfold analyzeWord.
  rewrite toLowerCase_idempotent, Hname.
  destruct (isPunctuation_toLowerCase word) as [Hp Hw]. rewrite Hp.
  destruct (isPunctuation word); [rewrite Hw; reflexivity|].
  destruct (truthy _); [reflexivity|].
  rewrite startsWithCapital_toLowerCase. simpl.
  destruct (whileLoop _ _ _ _) as [ms|] eqn:E; [|reflexivity].
  destruct (0 <? Z.of_nat (List.length ms)) eqn:L; [reflexivity|].
  destruct ms; [|discriminate].
  apply whileLoop_grows in E as [_ G].
  destruct word as [|c word]; [reflexivity|].
  exfalso. specialize (G ltac:(discriminate)). simpl in G. lia.
Qed.

Lemma analyzeWord_ignores_case_witness :
  analyzeWord 4 zuluAnalyzer "uMuNTU" = analyzeWord 4 zuluAnalyzer "umuntu".
Proof.
  apply (analyzeWord_ignores_case zuluAnalyzer 4 "uMuNTU"). reflexivity.
Defined.

(** ** Which tag tells which path *)

Section LoopTagFacts.

Variable this : ZuluMorphAnalyzer.
Variable bad : string.
Hypothesis never : loopNeverTags bad this = true.

Lemma loopBody_neverTags (remaining : string) (m : Morpheme) :
  remaining <> EmptyString ->
  In m (pushedBy (loopBody this remaining)) -> tagIs bad m = false.
Proof.
  intros Hne. unfold loopNeverTags in never.
  apply andb_true_iff in never as [never Hfix].
  apply andb_true_iff in never as [never Hquant].
  apply andb_true_iff in never as [never Hext].
  apply andb_true_iff in never as [Hnoun Hcommon].
  assert (Hfixed : forall t, In t ["VRoot"; "VerbTerm"; "NStem"] ->
                             String.eqb t bad = false).
  { intros t Ht. apply negb_true_iff.
    rewrite forallb_forall in Hfix. exact (Hfix t Ht). }
  assert (Htable : forall (o : JSObject string) k t,
             everyEntry (fun _ t => negb (String.eqb t bad)) o = true ->
             In (k, t) o -> String.eqb t bad = false).
  { intros o k t Ho Hin. apply negb_true_iff.
    exact (everyEntry_In _ o k t Ho Hin). }
  unfold loopBody.
  destruct (checkNounPrefixes _ _) as [[p r]|] eqn:E1.
  { apply checkNounPrefixes_Some in E1
      as (before & q & info & after & Hsplit & _ & _ & -> & _).
    simpl. intros Hm.
    assert (Hin : In (q, info) (nounPrefixes this))
      by (rewrite Hsplit; apply in_elt).
    apply (everyEntry_In _ _ _ _ Hnoun) in Hin.
    rewrite forallb_forall in Hin. apply negb_true_iff. exact (Hin _ Hm). }
  destruct (checkCommonMorphemes _ _) as [[p r]|] eqn:E2.
  { apply checkCommonMorphemes_Some in E2 as (q & t & Hin & _ & -> & _).
    simpl. intros [<-|[]]. exact (Htable _ _ _ Hcommon Hin). }
  destruct (checkVerbExtensions _ _) as [[p r]|] eqn:E3.
  { apply checkVerbExtensions_Some in E3
      as (before & ext & t & after & Hsplit & _ & _ & -> & _).
    simpl. intros [<-|[<-|[]]].
    - apply Hfixed. simpl. auto.
    - apply (Htable _ ext t Hext). rewrite Hsplit. apply in_elt. }
  destruct (checkVerbTermination _) as [[p r]|] eqn:E4.
  { apply checkVerbTermination_Some in E4 as (_ & -> & _).
    simpl. intros [<-|[<-|[]]]; apply Hfixed; simpl; auto. }
  destruct (checkQuantifiers _ _) as [[p r]|] eqn:E5.
  { apply checkQuantifiers_Some in E5 as (t & Hin & -> & _).
    simpl. intros [<-|[]]. exact (Htable _ _ _ Hquant Hin). }
  simpl. intros [<-|[]]. apply Hfixed. simpl. auto.
Qed.

Lemma whileLoop_neverTags (fuel : nat) (remaining : string)
  (result : list Morpheme) (m : Morpheme) :
  whileLoop fuel this remaining [] = Some result ->
  In m result -> tagIs bad m = false.
Proof.
  intros H Hin.
  apply (whileLoop_Forall this (fun m => tagIs bad m = false)) in H.
  - rewrite Forall_forall in H. exact (H m Hin).
  - intros r Hr. apply Forall_forall. intros m' Hm'.
    exact (loopBody_neverTags r m' Hr Hm').
  - constructor.
Qed.

End LoopTagFacts.

Lemma tagIs_true (t : string) (m : Morpheme) :
  tag m = Str t -> tagIs t m = true.
Proof. unfold tagIs. intros ->. apply String.eqb_refl. Qed.

Lemma isPunctuation_marks (word : string) :
  isPunctuation word = true <-> In word punctuationMarks.
Proof.
  unfold punctuationMarks. split.
  - destruct word as [|c [|d word]]; try discriminate.
    destruct c as [[] [] [] [] [] [] [] []]; try discriminate;
      intros _; simpl; auto 7.
  - intros H. simpl in H.
    repeat (destruct H as [<-|H]; [reflexivity|]). contradiction.
Qed.

(** X6.  The tag [Punc] marks a token that is, as a whole, one of the six
    characters . , ! ? ; : and nothing else: such a token is returned as
    it stands, and on any other word (a word with a punctuation mark
    attached, like "jongo.", included) no morpheme is tagged [Punc]. *)
Theorem Punc_marks_a_lone_punctuation_mark (word : string) (fuel : nat)
  (result : list Morpheme) :
  analyzeWord fuel zuluAnalyzer word = Some result ->
  (In word punctuationMarks ->
   result = [{| morph := word; tag := "Punc" |}]) /\
  (~ In word punctuationMarks ->
   forall m, In m result -> tag m <> Str "Punc").
Proof.
  rewrite <- isPunctuation_marks. unfold analyzeWord.
  destruct (isPunctuation word) eqn:E1.
  { intros [= <-]. split; [reflexivity | congruence]. }
  intros H. split; [discriminate|]. intros _ m Hin Htag.
  apply tagIs_true in Htag. revert H.
  destruct (truthy _) eqn:E2.
  { intros [= <-]. destruct Hin as [<-|[]]. unfold tagIs in Htag.
    simpl in Htag.
    destruct (get _ _) as [|s| |] eqn:G; try discriminate.
    apply String.eqb_eq in Htag. subst s. apply get_Str in G.
    assert (T : everyEntry (fun _ t => negb (String.eqb t "Punc"))
                  (vocabulary zuluAnalyzer) = true) by reflexivity.
    apply (everyEntry_In _ _ _ _ T) in G. discriminate. }
  destruct (_ && _).
  { intros [= <-]. destruct Hin as [<-|[]]. discriminate. }
  destruct (whileLoop _ _ _ _) as [ms|] eqn:E4; [|discriminate].
  intros [= <-].
  destruct (0 <? Z.of_nat (List.length ms)).
  - rewrite (whileLoop_neverTags zuluAnalyzer "Punc" eq_refl _ _ _ m E4 Hin)
      in Htag.
    discriminate.
  - destruct Hin as [<-|[]]. discriminate.
Qed.

Lemma Punc_marks_a_lone_punctuation_mark_witness :
  (In "jongo." punctuationMarks ->
   [{| morph := "jongo."; tag := "NStem" |}]
   = [{| morph := "jongo."; tag := "Punc" |}]) /\
  (~ In "jongo." punctuationMarks ->
   forall m, In m [{| morph := "jongo."; tag := "NStem" |}] ->
             tag m <> Str "Punc").
Proof.
  apply (Punc_marks_a_lone_punctuation_mark "jongo." 3). reflexivity.
Defined.

Lemma isPunctuation_length (word : string) :
  isPunctuation word = true -> JS.length word = 1.
Proof. destruct word as [|c [|d word]]; try discriminate. reflexivity. Qed.

(** X7.  The tag [ProperName] comes from the capital-letter rule alone:
    a word outside the vocabulary check that begins with [A-Z] and has
    more than two characters is returned whole, capitals kept, as one
    [ProperName] morpheme and is not segmented; on every other word no
    morpheme is tagged [ProperName] (the two vocabulary entries with that
    tag are never the result of the vocabulary check). *)
Theorem ProperName_marks_a_capitalised_word (word : string) (fuel : nat)
  (result : list Morpheme) :
  analyzeWord fuel zuluAnalyzer word = Some result ->
  (truthy (get (vocabulary zuluAnalyzer) (JS.toLowerCase word)) = false /\
   startsWithCapital word = true /\ 2 < JS.length word ->
   result = [{| morph := word; tag := "ProperName" |}]) /\
  (~ (truthy (get (vocabulary zuluAnalyzer) (JS.toLowerCase word)) = false /\
      startsWithCapital word = true /\ 2 < JS.length word) ->
   forall m, In m result -> tag m <> Str "ProperName").
Proof.
  unfold analyzeWord.
  destruct (isPunctuation word) eqn:E1.
  { intros [= <-]. apply isPunctuation_length in E1. split.
    - intros (_ & _ & L). lia.
    - intros _ m [<-|[]]. discriminate. }
  destruct (truthy _) eqn:E2.
  { intros [= <-]. split; [intros (F & _); discriminate|].
    intros _ m [<-|[]] Htag. simpl in Htag.
    apply get_Str in Htag.
    change (vocabulary zuluAnalyzer) with vocabulary_declared in Htag.
    pose proof (toLowerCase_noCapital word) as Hlow.
    unfold vocabulary_declared in Htag. simpl in Htag.
    repeat (destruct Htag as [Htag|Htag];
            [first [discriminate Htag
                   | injection Htag as Hk; rewrite <- Hk in Hlow;
                     discriminate Hlow]|]).
    exact Htag. }
  destruct (startsWithCapital word) eqn:E3; simpl.
  - destruct (2 <? JS.length word) eqn:E4.
    + intros [= <-]. split; [reflexivity|].
      intros N. exfalso. apply N. apply Z.ltb_lt in E4. auto.
    + apply Z.ltb_ge in E4.
      destruct (whileLoop _ _ _ _) as [ms|] eqn:E5; [|discriminate].
      intros [= <-]. split; [intros (_ & _ & L); lia|].
      intros _ m Hin Htag. apply tagIs_true in Htag.
      destruct (0 <? Z.of_nat (List.length ms)).
      * rewrite (whileLoop_neverTags zuluAnalyzer "ProperName" eq_refl
                   _ _ _ m E5 Hin) in Htag.
        discriminate.
      * destruct Hin as [<-|[]]. discriminate.
  - destruct (whileLoop _ _ _ _) as [ms|] eqn:E5; [|discriminate].
    intros [= <-]. split; [intros (_ & F & _); discriminate|].
    intros _ m Hin Htag. apply tagIs_true in Htag.
    destruct (0 <? Z.of_nat (List.length ms)).
    + rewrite (whileLoop_neverTags zuluAnalyzer "ProperName" eq_refl
                 _ _ _ m E5 Hin) in Htag.
      discriminate.
    + destruct Hin as [<-|[]]. discriminate.
Qed.

Lemma ProperName_marks_a_capitalised_word_witness :
  (truthy (get (vocabulary zuluAnalyzer) (JS.toLowerCase "Umuntu")) = false /\
   startsWithCapital "Umuntu" = true /\ 2 < JS.length "Umuntu" ->
   [{| morph := "Umuntu"; tag := "ProperName" |}]
   = [{| morph := "Umuntu"; tag := "ProperName" |}]) /\
  (~ (truthy (get (vocabulary zuluAnalyzer) (JS.toLowerCase "Umuntu")) = false /\
      startsWithCapital "Umuntu" = true /\ 2 < JS.length "Umuntu") ->
   forall m, In m [{| morph := "Umuntu"; tag := "ProperName" |}] ->
             tag m <> Str "ProperName").
Proof.
  apply (ProperName_marks_a_capitalised_word "Umuntu" 0). reflexivity.
Defined.

(** X8.  The tag [Unknown] is returned for the empty word and for no
    other: on a non-empty word some rule always produces a morpheme, at
    the last the fallback stem. *)
Theorem Unknown_marks_the_empty_word (word : string) (fuel : nat)
  (result : list Morpheme) :
  analyzeWord fuel zuluAnalyzer word = Some result ->
  ((exists m, In m result /\ tag m = Str "Unknown") <-> word = EmptyString).
Proof.
  intros H. split.
  - intros (m & Hin & Htag). apply tagIs_true in Htag.
    destruct word as [|c word]; [reflexivity|]. exfalso. revert H.
    unfold analyzeWord.
    destruct (isPunctuation _).
    { intros [= <-]. destruct Hin as [<-|[]]. discriminate. }
    destruct (truthy _) eqn:E2.
    { intros [= <-]. destruct Hin as [<-|[]]. unfold tagIs in Htag.
      simpl tag in Htag.
      destruct (get _ _) as [|s| |] eqn:G; try discriminate.
      apply String.eqb_eq in Htag. subst s. apply get_Str in G.
      assert (T : everyEntry (fun _ t => negb (String.eqb t "Unknown"))
                    (vocabulary zuluAnalyzer) = true) by reflexivity.
      apply (everyEntry_In _ _ _ _ T) in G. discriminate. }
    destruct (_ && _).
    { intros [= <-]. destruct Hin as [<-|[]]. discriminate. }
    destruct (whileLoop _ _ _ _) as [ms|] eqn:E4; [|discriminate].
    intros [= <-].
    apply whileLoop_grows in E4 as G. destruct G as [_ G].
    specialize (G ltac:(discriminate)). simpl in G.
    destruct (0 <? Z.of_nat (List.length ms)) eqn:L;
      [|apply Z.ltb_ge in L; lia].
    rewrite (whileLoop_neverTags zuluAnalyzer "Unknown" eq_refl
               _ _ _ m E4 Hin) in Htag.
    discriminate.
  - intros ->. rewrite analyzeWord_empty in H. injection H as <-.
    eexists. split; [left; reflexivity | reflexivity].
Qed.

Lemma Unknown_marks_the_empty_word_witness :
  (exists m, In m [{| morph := "a"; tag := "NStem" |}] /\
             tag m = Str "Unknown") <-> "a" = EmptyString.
Proof.
  apply (Unknown_marks_the_empty_word "a" 1). reflexivity.
Defined.

(** ** Entries of the tables that are never used *)

Lemma checkNounPrefixes_not_shadowed (remaining : string)
  (pushed : list Morpheme) (remaining' : string) (m : Morpheme) :
  checkNounPrefixes (nounPrefixes zuluAnalyzer) remaining
    = Some (pushed, remaining') ->
  In m pushed -> isShadowed m = false.
Proof.
  change (nounPrefixes zuluAnalyzer)
    with (objectLiteral nounPrefixes_declared).
  cbv [objectLiteral nounPrefixes_declared fold_left setProperty fst snd
       String.eqb Ascii.eqb Bool.eqb].
  cbn [checkNounPrefixes]. intros H Hin.
  repeat (next_entry H;
          [injection H as <- _; cbv in Hin;
           try (destruct Hin as [<-|[<-|[]]]; reflexivity)|]).
  - exfalso.
    match goal with
    | Hizi : JS.startsWith remaining "izi" = false,
      Hizin : JS.startsWith remaining "izin" = true |- _ =>
        apply (startsWith_app_l remaining "izi" "n") in Hizin; congruence
    end.
  - discriminate H.
Qed.

Lemma checkCommonMorphemes_not_shadowed (remaining : string)
  (pushed : list Morpheme) (remaining' : string) (m : Morpheme) :
  checkNounPrefixes (nounPrefixes zuluAnalyzer) remaining = None ->
  checkCommonMorphemes (commonMorphemes zuluAnalyzer) remaining
    = Some (pushed, remaining') ->
  In m pushed -> isShadowed m = false.
Proof.
  intros Hnoun.
  assert (Haba : JS.startsWith remaining "aba" = false).
  { rewrite checkNounPrefixes_None in Hnoun.
    apply (Hnoun "aba" {| class := 2; type := "NPrePre2" |}).
    simpl. auto. }
  change (commonMorphemes zuluAnalyzer)
    with (objectLiteral commonMorphemes_declared).
  cbv [objectLiteral commonMorphemes_declared fold_left setProperty fst snd
       String.eqb Ascii.eqb Bool.eqb].
  cbn [checkCommonMorphemes]. intros H Hin.
  repeat (next_entry H;
          [injection H as <- _;
           try (destruct Hin as [<-|[]]; reflexivity)|]);
    try discriminate H; exfalso;
    match goal with
    | He : JS.startsWith remaining "e" = false,
      Hezi : JS.startsWith remaining "ezi" = true |- _ =>
        apply (startsWith_app_l remaining "e" "zi") in Hezi; congruence
    | He : JS.startsWith remaining "e" = false,
      Heli : JS.startsWith remaining "eli" = true |- _ =>
        apply (startsWith_app_l remaining "e" "li") in Heli; congruence
    | _ => congruence
    end.
Qed.

Lemma checkQuantifiers_not_shadowed (remaining : string)
  (pushed : list Morpheme) (remaining' : string) (m : Morpheme) :
  checkVerbExtensions (verbExtensions zuluAnalyzer) remaining = None ->
  checkQuantifiers (quantifiers zuluAnalyzer) remaining
    = Some (pushed, remaining') ->
  In m pushed -> isShadowed m = false.
Proof.
  intros Hext H Hin.
  apply checkQuantifiers_Some in H as (t & Ht & -> & _).
  destruct Hin as [<-|[]].
  simpl in Ht. destruct Ht as [Ht|[Ht|[Ht|[]]]]; injection Ht as <- <-.
  - discriminate Hext.
  - reflexivity.
  - reflexivity.
Qed.

Lemma loopBody_not_shadowed (remaining : string) (m : Morpheme) :
  In m (pushedBy (loopBody zuluAnalyzer remaining)) -> isShadowed m = false.
Proof.
  unfold loopBody.
  destruct (checkNounPrefixes _ _) as [[p r]|] eqn:E1.
  { apply checkNounPrefixes_not_shadowed with (1 := E1). }
  destruct (checkCommonMorphemes _ _) as [[p r]|] eqn:E2.
  { apply checkCommonMorphemes_not_shadowed with (1 := E1) (2 := E2). }
  destruct (checkVerbExtensions _ _) as [[p r]|] eqn:E3.
  { apply checkVerbExtensions_Some in E3
      as (before & ext & t & after & Hsplit & _ & _ & -> & _).
    simpl. intros [<-|[<-|[]]]; [reflexivity|].
    assert (T : everyEntry
                  (fun e t : string =>
                     negb (isShadowed {| morph := e; tag := t |}))
                  (verbExtensions zuluAnalyzer) = true) by reflexivity.
    apply negb_true_iff. apply (everyEntry_In _ _ ext t T).
    rewrite Hsplit. apply in_elt. }
  destruct (checkVerbTermination _) as [[p r]|] eqn:E4.
  { apply checkVerbTermination_Some in E4 as (_ & -> & _).
    simpl. intros [<-|[<-|[]]]; reflexivity. }
  destruct (checkQuantifiers _ _) as [[p r]|] eqn:E5.
  { apply checkQuantifiers_not_shadowed with (1 := E3) (2 := E5). }
  simpl. intros [<-|[]]. reflexivity.
Qed.

Lemma isShadowed_false (m : Morpheme) :
  isShadowed m = false -> ~ In (tag m) (map Str shadowedTags).
Proof.
  unfold isShadowed. intros H Hin.
  apply in_map_iff in Hin as (t & Ht & Hin).
  assert (E : existsb (fun t => tagIs t m) shadowedTags = true).
  { apply existsb_exists. exists t. split; [exact Hin|].
    apply tagIs_true. symmetry. exact Ht. }
  congruence.
Qed.

Lemma analyzeWord_not_shadowed (word : string) (fuel : nat)
  (result : list Morpheme) (m : Morpheme) :
  analyzeWord fuel zuluAnalyzer word = Some result ->
  In m result -> isShadowed m = false.
Proof.
  unfold analyzeWord.
  destruct (isPunctuation word).
  { intros [= <-] [<-|[]]. reflexivity. }
  destruct (truthy _).
  { intros [= <-] [<-|[]]. unfold isShadowed, tagIs. simpl tag.
    destruct (get _ _) as [|s| |] eqn:G; try reflexivity.
    apply get_Str in G.
    assert (T : everyEntry
                  (fun k t : string =>
                     negb (isShadowed {| morph := k; tag := t |}))
                  (vocabulary zuluAnalyzer) = true) by reflexivity.
    apply (everyEntry_In _ _ _ _ T) in G. apply negb_true_iff in G.
    exact G. }
  destruct (_ && _).
  { intros [= <-] [<-|[]]. reflexivity. }
  destruct (whileLoop _ _ _ _) as [ms|] eqn:E; [|discriminate].
  intros [= <-] Hin.
  destruct (0 <? Z.of_nat (List.length ms)).
  - apply (whileLoop_Forall zuluAnalyzer (fun m => isShadowed m = false))
      in E.
    + rewrite Forall_forall in E. exact (E m Hin).
    + intros r _. apply Forall_forall. intros m'.
      apply loopBody_not_shadowed.
    + constructor.
  - destruct Hin as [<-|[]]. reflexivity.
Qed.

(** X9.  Six entries of the rule tables are dead, and only they: no call
    of [analyzeWord] returns a morpheme tagged [NPrePre10] or [BPre10]
    (noun prefix "izin"), [RelConc10], [RelConc5] or [RelConc2] (common
    morphemes "ezi", "eli", "aba") or [QuantStem] (quantifier "dwa"),
    because an earlier entry or an earlier block always wins; every other
    entry of the four tables is returned for some word (the pattern
    itself, or "b" before a verb extension). *)
Theorem shadowed_entries_are_never_used :
  (forall word fuel result m,
      analyzeWord fuel zuluAnalyzer word = Some result ->
      In m result -> ~ In (tag m) (map Str shadowedTags)) /\
  (forall prefix info,
      In (prefix, info) (nounPrefixes zuluAnalyzer) ->
      ~ In (type info) shadowedTags ->
      exists result,
        analyzeWord (String.length prefix) zuluAnalyzer prefix = Some result /\
        In {| morph := JS.substring prefix 0 1; tag := type info |} result) /\
  (forall morpheme t,
      In (morpheme, t) (commonMorphemes zuluAnalyzer) ->
      ~ In t shadowedTags ->
      exists result,
        analyzeWord (String.length morpheme) zuluAnalyzer morpheme
          = Some result /\
        In {| morph := morpheme; tag := t |} result) /\
  (forall ext t,
      In (ext, t) (verbExtensions zuluAnalyzer) ->
      exists result,
        analyzeWord (String.length ("b" ++ ext)) zuluAnalyzer ("b" ++ ext)
          = Some result /\
        In {| morph := ext; tag := t |} result) /\
  (forall quant t,
      In (quant, t) (quantifiers zuluAnalyzer) ->
      ~ In t shadowedTags ->
      exists result,
        analyzeWord (String.length quant) zuluAnalyzer quant = Some result /\
        In {| morph := quant; tag := t |} result).
Proof.
  split; [|split; [|split; [|split]]].
  - intros word fuel result m H Hin. apply isShadowed_false.
    exact (analyzeWord_not_shadowed word fuel result m H Hin).
  - intros prefix info Hin Hlive. simpl in Hin.
    repeat (destruct Hin as [Hin|Hin];
            [injection Hin as <- <-;
             first [exfalso; apply Hlive; simpl; tauto
                   | eexists; split; [reflexivity | simpl; auto]]|]).
    contradiction.
  - intros morpheme t Hin Hlive. simpl in Hin.
    repeat (destruct Hin as [Hin|Hin];
            [injection Hin as <- <-;
             first [exfalso; apply Hlive; simpl; tauto
                   | eexists; split; [reflexivity | simpl; auto]]|]).
    contradiction.
  - intros ext t Hin. simpl in Hin.
    repeat (destruct Hin as [Hin|Hin];
            [injection Hin as <- <-;
             eexists; split; [reflexivity | simpl; auto]|]).
    contradiction.
  - intros quant t Hin Hlive. simpl in Hin.
    repeat (destruct Hin as [Hin|Hin];
            [injection Hin as <- <-;
             first [exfalso; apply Hlive; simpl; tauto
                   | eexists; split; [reflexivity | simpl; auto]]|]).
    contradiction.
Qed.

Lemma shadowed_entries_are_never_used_witness :
  analyzeWord 3 zuluAnalyzer "dwa" =
    Some [{| morph := "d"; tag := "VRoot" |};
          {| morph := "w"; tag := "PassExt" |};
          {| morph := "a"; tag := "NStem" |}] /\
  ~ In (tag {| morph := "d"; tag := "VRoot" |}) (map Str shadowedTags).
Proof.
  split; [reflexivity|].
  apply (proj1 shadowed_entries_are_never_used "dwa" 3%nat
           [{| morph := "d"; tag := "VRoot" |};
            {| morph := "w"; tag := "PassExt" |};
            {| morph := "a"; tag := "NStem" |}]).
  - reflexivity.
  - left. reflexivity.
Defined.

(** ** The lines of the output *)

Lemma noLineFeed_app (s t : string) :
  noLineFeed (s ++ t) = noLineFeed s && noLineFeed t.
Proof.
  induction s as [|c s IH]; simpl; [reflexivity|].
  rewrite IH, andb_assoc. reflexivity.
Qed.

Lemma noWhiteSpace_noLineFeed (s : string) :
  noWhiteSpace s = true -> noLineFeed s = true.
Proof.
  induction s as [|c s IH]; simpl; [reflexivity|].
  intros H. apply andb_true_iff in H as [Hc Hs]. rewrite (IH Hs), andb_true_r.
  destruct (Ascii.eqb c LF) eqn:E; [|reflexivity].
  apply Ascii.eqb_eq in E. subst c. discriminate Hc.
Qed.

Lemma noLineFeed_toLowerCase (s : string) :
  noLineFeed (JS.toLowerCase s) = noLineFeed s.
Proof.
  induction s as [|c s IH]; simpl; [reflexivity|]. rewrite IH. f_equal.
  destruct c as [[] [] [] [] [] [] [] []]; reflexivity.
Qed.

Lemma noLineFeed_join (parts : list string) (sep : string) :
  noLineFeed sep = true ->
  Forall (fun p => noLineFeed p = true) parts ->
  noLineFeed (JS.join parts sep) = true.
Proof.
  intros Hsep. induction 1 as [|p parts Hp _ IH]; [reflexivity|].
  destruct parts as [|q parts]; [exact Hp|].
  change (JS.join (p :: q :: parts) sep)
    with (p ++ sep ++ JS.join (q :: parts) sep).
  rewrite !noLineFeed_app, Hp, Hsep, IH. reflexivity.
Qed.

Lemma noLineFeed_uint (d : Decimal.uint) :
  noLineFeed (NilEmpty.string_of_uint d) = true.
Proof. induction d; simpl; auto. Qed.

Lemma noLineFeed_number (n : Z) : noLineFeed (JS.numberToString n) = true.
Proof.
  unfold JS.numberToString. destruct (Z.to_int n); simpl;
    apply noLineFeed_uint.
Qed.

(** The words of a line hold no white space and are not empty. *)
Lemma wordsOf_noWhiteSpace (line word : string) :
  In word (wordsOf line) ->
  noWhiteSpace word = true /\ word <> EmptyString.
Proof.
  revert word. induction line as [|c line IH]; intros word; [intros []|].
  destruct (JS.isWhiteSpace c) eqn:E.
  - cbn [wordsOf]. rewrite E. apply IH.
  - rewrite (wordsOf_word c line E).
    assert (One : noWhiteSpace (String c EmptyString) = true /\
                  String c EmptyString <> EmptyString).
    { simpl. rewrite E. split; [reflexivity | discriminate]. }
    destruct (startsWithWord line).
    + destruct (wordsOf line) as [|w ws].
      * intros [<-|[]]. exact One.
      * intros [<-|H].
        -- destruct (IH w (or_introl eq_refl)) as [Hw _].
           simpl. rewrite E, Hw. split; [reflexivity | discriminate].
        -- apply IH. right. exact H.
    + intros [<-|H]; [exact One | apply IH; exact H].
Qed.

(** What a read of a table of strings can yield. *)
Lemma get_cases (o : JSObject string) (k : string) :
  (exists s, get o k = Str s /\ In (k, s) o) \/
  (exists v, get o k = v /\ In (k, v) Object_prototype) \/
  get o k = Undefined.
Proof.
  unfold get. destruct (getOwnProperty o k) as [s|] eqn:E.
  - left. exists s. split; [reflexivity | apply getOwnProperty_In; exact E].
  - destruct (getOwnProperty Object_prototype k) as [v|] eqn:F.
    + right. left. exists v. split; [reflexivity|].
      apply getOwnProperty_In. exact F.
    + right. right. reflexivity.
Qed.

(** No tag of the declared analyzer holds a line feed. *)
Lemma Emitted_tag_noLineFeed (m : Morpheme) :
  Emitted zuluAnalyzer m -> noLineFeed (toString (tag m)) = true.
Proof.
  assert (Htable : forall (o : JSObject string) k t,
             everyEntry (fun _ t => noLineFeed t) o = true ->
             In (k, t) o -> noLineFeed t = true).
  { intros o k t Ho Hin. exact (everyEntry_In _ o k t Ho Hin). }
  intros [w Hw|k Hk Ht|w Hw|p info m' Hp Hm|k t Hk|r Hr|e t He|
          |q t Hq|stem Hstem]; try reflexivity.
  - cbn [tag].
    destruct (get_cases (vocabulary zuluAnalyzer) k)
      as [(s & -> & Hin)|[(v & -> & Hin)| ->]]; [| |reflexivity].
    + exact (Htable (vocabulary zuluAnalyzer) _ _ eq_refl Hin).
    + assert (T : forallb (fun kv => noLineFeed (toString (snd kv)))
                    Object_prototype = true) by reflexivity.
      rewrite forallb_forall in T. exact (T _ Hin).
  - assert (T : everyEntry
                  (fun p i => forallb (fun m => noLineFeed (toString (tag m)))
                                (pushNounPrefix p i))
                  (nounPrefixes zuluAnalyzer) = true) by reflexivity.
    apply (everyEntry_In _ _ _ _ T) in Hp.
    rewrite forallb_forall in Hp. exact (Hp _ Hm).
  - exact (Htable (commonMorphemes zuluAnalyzer) _ _ eq_refl Hk).
  - exact (Htable (verbExtensions zuluAnalyzer) _ _ eq_refl He).
  - exact (Htable (quantifiers zuluAnalyzer) _ _ eq_refl Hq).
Qed.

Lemma surface_noLineFeed (ms : list Morpheme) (m : Morpheme) :
  noLineFeed (surface ms) = true -> In m ms ->
  noLineFeed (toString (morph m)) = true.
Proof.
  induction ms as [|m' ms IH]; [intros _ []|].
  simpl surface. rewrite noLineFeed_app. intros H.
  apply andb_true_iff in H as [H1 H2].
  intros [<-|Hin]; [exact H1 | exact (IH H2 Hin)].
Qed.

(** The analysis of a word of a line is rendered without a line feed. *)
Lemma analyzeWord_rendersOnOneLine (word : string) (fuel : nat)
  (result : list Morpheme) :
  noWhiteSpace word = true -> word <> EmptyString ->
  analyzeWord fuel zuluAnalyzer word = Some result ->
  noLineFeed (renderWord result) = true.
Proof.
  intros Hws Hne H. unfold renderWord.
  apply noLineFeed_join; [reflexivity|].
  apply Forall_forall. intros s Hs.
  apply in_map_iff in Hs as (m & <- & Hin).
  unfold renderMorpheme. rewrite !noLineFeed_app. simpl.
  rewrite andb_true_r.
  apply andb_true_iff. split.
  - apply (surface_noLineFeed result m); [|exact Hin].
    destruct (analyzeWord_surface word fuel result H) as [S|[S _]];
      rewrite S; [rewrite noLineFeed_toLowerCase|];
      apply noWhiteSpace_noLineFeed; exact Hws.
  - apply Emitted_tag_noLineFeed.
    apply analyzeWord_Emitted in H; [|exact Hne].
    rewrite Forall_forall in H. exact (H m Hin).
Qed.

Lemma split_noLineFeed (s : string) :
  noLineFeed s = true -> JS.split s LF = [s].
Proof.
  induction s as [|c s IH]; simpl; [reflexivity|].
  intros H. apply andb_true_iff in H as [Hc Hs].
  apply negb_true_iff in Hc. rewrite Hc, (IH Hs). reflexivity.
Qed.

Lemma split_app (s t : string) :
  noLineFeed s = true ->
  JS.split (s ++ String LF t) LF = s :: JS.split t LF.
Proof.
  induction s as [|c s IH]; simpl; [reflexivity|].
  intros H. apply andb_true_iff in H as [Hc Hs].
  apply negb_true_iff in Hc. rewrite Hc, (IH Hs). reflexivity.
Qed.

(** Splitting at the line feeds undoes joining with line feeds, when the
    pieces hold none. *)
Lemma split_join (parts : list string) :
  parts <> [] ->
  Forall (fun p => noLineFeed p = true) parts ->
  JS.split (JS.join parts (String LF EmptyString)) LF = parts.
Proof.
  intros Hne H. induction H as [|p parts Hp Hparts IH]; [congruence|].
  destruct parts as [|q parts]; [apply split_noLineFeed; exact Hp|].
  change (JS.join (p :: q :: parts) (String LF EmptyString))
    with (p ++ String LF (JS.join (q :: parts) (String LF EmptyString))).
  rewrite (split_app _ _ Hp), IH by discriminate. reflexivity.
Qed.

Lemma forEach_Forall2 {A B : Type} (f : A -> option B) (xs : list A)
  (ys : list B) :
  forEach f xs = Some ys -> Forall2 (fun x y => f x = Some y) xs ys.
Proof.
  revert ys. induction xs as [|x xs IH]; simpl; intros ys.
  - intros [= <-]. constructor.
  - destruct (f x) as [y|] eqn:E; simpl; [|discriminate].
    destruct (forEach f xs) as [ys'|]; simpl; [|discriminate].
    intros [= <-]. constructor; [exact E | apply IH; reflexivity].
Qed.

Lemma numberKeptLines_kept (next : Z) (lines : list string) :
  map snd (numberKeptLines next lines)
  = filter (fun line => negb (whiteSpaceOnly line)) lines.
Proof.
  revert next. induction lines as [|l lines IH]; intros next; [reflexivity|].
  simpl. destruct (whiteSpaceOnly l); simpl; [apply IH | f_equal; apply IH].
Qed.

Lemma numberKeptLines_numbers (next : Z) (lines : list string) (k : nat)
  (n : Z) (line : string) :
  nth_error (numberKeptLines next lines) k = Some (n, line) ->
  n = next + Z.of_nat k.
Proof.
  revert next k. induction lines as [|l lines IH]; intros next k.
  - destruct k; discriminate.
  - simpl. destruct (whiteSpaceOnly l); [apply IH|].
    destruct k as [|k]; simpl.
    + intros [= <- _]. lia.
    + intros H. apply IH in H. lia.
Qed.

Lemma Forall2_In_r {A B : Type} (R : A -> B -> Prop) (xs : list A)
  (ys : list B) (y : B) :
  Forall2 R xs ys -> In y ys -> exists x, In x xs /\ R x y.
Proof.
  induction 1 as [|x y' xs ys Hxy _ IH]; [intros []|].
  intros [<-|Hin].
  - exists x. split; [left; reflexivity | exact Hxy].
  - destruct (IH Hin) as (x' & Hx' & HR). exists x'. split; [right|]; auto.
Qed.

(** A rendered line begins with its number and holds no line feed. *)
Lemma renderLine_block (fuel : nat) (n : Z) (line block : string) :
  renderLine (analyzeWord fuel zuluAnalyzer) (n, line) = Some block ->
  JS.startsWith block ("<LINE " ++ JS.numberToString n ++ ">") = true /\
  noLineFeed block = true.
Proof.
  unfold renderLine. cbn [fst snd].
  destruct (forEach _ _) as [analyses|] eqn:E; cbn [bind]; [|discriminate].
  intros H.
  assert (B : block = ("<LINE " ++ JS.numberToString n ++ ">")
                      ++ JS.join (map renderWord analyses) " ").
  { injection H as <-. cbn [append]. rewrite append_assoc. reflexivity. }
  rewrite B. clear H B. split.
  - apply startsWith_refl.
  - rewrite !noLineFeed_app, noLineFeed_number. simpl.
    apply noLineFeed_join; [reflexivity|].
    apply forEach_Forall2 in E.
    apply Forall_forall. intros s Hs.
    apply in_map_iff in Hs as (ms & <- & Hms).
    destruct (Forall2_In_r _ _ _ ms E Hms) as (word & Hword & Ha).
    apply wordsOf_noWhiteSpace in Hword as [Hws Hne].
    exact (analyzeWord_rendersOnOneLine word fuel ms Hws Hne Ha).
Qed.

Lemma Forall2_nth_error_r {A B : Type} (R : A -> B -> Prop) (xs : list A)
  (ys : list B) (k : nat) (y : B) :
  Forall2 R xs ys -> nth_error ys k = Some y ->
  exists x, nth_error xs k = Some x /\ R x y.
Proof.
  intros H. revert k. induction H as [|x y' xs ys Hxy _ IH]; intros k.
  - destruct k; discriminate.
  - destruct k as [|k]; simpl.
    + intros [= <-]. eauto.
    + apply IH.
Qed.

(** The output of [analyzeText] is made of one block per kept line, in
    order, none with a line feed inside, the [k]-th (from 0) beginning
    with [<LINE k+1>]. *)
Lemma analyzeText_blocks (fuel : nat) (text out : string) :
  analyzeText fuel zuluAnalyzer text = Some out ->
  exists blocks,
    out = JS.join blocks (String LF EmptyString) /\
    List.length blocks = List.length (keptLines text) /\
    Forall (fun block => noLineFeed block = true) blocks /\
    (forall k block,
        nth_error blocks k = Some block ->
        JS.startsWith block
          ("<LINE " ++ JS.numberToString (Z.of_nat k + 1) ++ ">") = true).
Proof.
  rewrite analyzeText_refines. unfold analyzeText_spec.
  destruct (forEach _ _) as [blocks|] eqn:E; cbn [bind]; [|discriminate].
  intros [= <-]. exists blocks. apply forEach_Forall2 in E.
  split; [reflexivity|]. split; [|split].
  - rewrite <- (Forall2_length E). unfold keptLines.
    rewrite <- (numberKeptLines_kept 1). rewrite length_map. reflexivity.
  - apply Forall_forall. intros block Hin.
    destruct (Forall2_In_r _ _ _ block E Hin) as ([n line] & _ & R).
    apply renderLine_block in R as [_ R]. exact R.
  - intros k block Hk.
    destruct (Forall2_nth_error_r _ _ _ k block E Hk) as ([n line] & Hn & R).
    apply numberKeptLines_numbers in Hn. subst n.
    apply renderLine_block in R as [R _].
    replace (Z.of_nat k + 1) with (1 + Z.of_nat k) by lia. exact R.
Qed.

(** X10.  The output of [analyzeText], split at the line feeds, has
    exactly one line per kept line of the text, the [k]-th beginning with
    [<LINE k>] (numbers from 1); it is the empty string exactly when the
    text has no line with something other than white space. *)
Theorem analyzeText_one_line_per_kept_line (text : string) (fuel : nat)
  (out : string) :
  analyzeText fuel zuluAnalyzer text = Some out ->
  (keptLines text = [] <-> out = EmptyString) /\
  (keptLines text <> [] ->
   List.length (JS.split out LF) = List.length (keptLines text) /\
   forall k line,
     nth_error (JS.split out LF) k = Some line ->
     JS.startsWith line
       ("<LINE " ++ JS.numberToString (Z.of_nat k + 1) ++ ">") = true).
Proof.
  intros H.
  destruct (analyzeText_blocks fuel text out H)
    as (blocks & -> & Hlen & Hfree & Hstart).
  split; [split|].
  - intros E. rewrite E in Hlen. destruct blocks; [reflexivity|discriminate].
  - intros E. destruct blocks as [|b blocks].
    + destruct (keptLines text); [reflexivity | discriminate].
    + exfalso. specialize (Hstart 0%nat b eq_refl).
      destruct b as [|c b]; [simpl in Hstart; discriminate Hstart|].
      destruct blocks; discriminate E.
  - intros Hne.
    assert (Hb : blocks <> []).
    { intros ->. destruct (keptLines text); [congruence | discriminate]. }
    rewrite (split_join blocks Hb Hfree). split; [exact Hlen | exact Hstart].
Qed.

Lemma analyzeText_one_line_per_kept_line_witness :
  (keptLines (String LF "jongo") = [] <-> "<LINE 1>jongo[NStem]" = EmptyString) /\
  (keptLines (String LF "jongo") <> [] ->
   List.length (JS.split "<LINE 1>jongo[NStem]" LF)
   = List.length (keptLines (String LF "jongo")) /\
   forall k line,
     nth_error (JS.split "<LINE 1>jongo[NStem]" LF) k = Some line ->
     JS.startsWith line
       ("<LINE " ++ JS.numberToString (Z.of_nat k + 1) ++ ">") = true).
Proof.
  apply (analyzeText_one_line_per_kept_line (String LF "jongo") 1).
  reflexivity.
Defined.

(** ** The route [POST /api/process-text] *)

(** X11.  [/api/process-text] answers 400 exactly when the text is absent
    or the empty string.  Any other text is answered with the text, its
    analysis and [lines_processed], which is the number of kept lines when
    there is one and 1 when there is none: a text of blank lines only is
    accepted, analysed to the empty string and reported as one line
    processed. *)
Theorem processText_answers (fuel : nat) (now : string) :
  (forall text,
      (exists error, processText fuel now text = Some (Failure 400 error))
      <-> (text = None \/ text = Some EmptyString)) /\
  (forall text,
      text <> EmptyString ->
      (String.length text <= fuel)%nat ->
      exists body,
        processText fuel now (Some text) = Some (Ok body) /\
        original_text body = text /\
        analyzeText fuel zuluAnalyzer text
          = Some (morphological_analysis body) /\
        lines_processed (analysis_metadata body)
          = Z.max 1 (Z.of_nat (List.length (keptLines text)))).
Proof.
  split.
  - intros [text|]; simpl.
    + destruct text as [|c text]; simpl.
      * split; [auto | eauto].
      * destruct (analyzeText fuel zuluAnalyzer (String c text)); simpl.
        -- split; [intros [e [=]] | intros [[=]|[=]]].
        -- split; [intros [e [=]] | intros [[=]|[=]]].
    + split; [auto | eauto].
  - intros text Hne Hfuel.
    destruct (analyzeText_returns text fuel Hfuel) as [out Hout].
    unfold processText.
    destruct text as [|c text]; [congruence|].
    cbn [truthy String.eqb negb]. rewrite Hout. cbn [bind].
    eexists. split; [reflexivity|].
    cbn [original_text morphological_analysis analysis_metadata
         lines_processed].
    split; [reflexivity|]. split; [reflexivity|].
    destruct (analyzeText_blocks fuel _ out Hout)
      as (blocks & -> & Hlen & Hfree & _).
    rewrite <- Hlen. destruct blocks as [|b blocks]; [reflexivity|].
    rewrite split_join; [|discriminate|exact Hfree].
    simpl List.length. lia.
Qed.

Lemma processText_answers_witness :
  exists body,
    processText 3 "2026-01-01T00:00:00.000Z" (Some "   ") = Some (Ok body) /\
    original_text body = "   " /\
    analyzeText 3 zuluAnalyzer "   " = Some (morphological_analysis body) /\
    lines_processed (analysis_metadata body)
      = Z.max 1 (Z.of_nat (List.length (keptLines "   "))).
Proof.
  apply (proj2 (processText_answers 3 "2026-01-01T00:00:00.000Z") "   ").
  - discriminate.
  - simpl. lia.
Defined.

(** ** Word and line counts *)

Lemma splitWhiteSpace_aux_false (s : string) :
  JS.splitWhiteSpace_aux false s =
  match s with
  | EmptyString => [EmptyString]
  | String c _ =>
      if JS.isWhiteSpace c then EmptyString :: JS.splitWhiteSpace_aux true s
      else JS.splitWhiteSpace_aux true s
  end.
Proof.
  destruct s as [|c s]; [reflexivity|]. cbn [JS.splitWhiteSpace_aux].
  destruct (JS.isWhiteSpace c); reflexivity.
Qed.

Lemma startsWithWord_wordsOf (s : string) :
  startsWithWord s = true -> wordsOf s <> [].
Proof.
  destruct s as [|c s]; [discriminate|]. simpl startsWithWord.
  intros H. apply negb_true_iff in H. rewrite (wordsOf_word c s H).
  destruct (startsWithWord s); [destruct (wordsOf s)|]; discriminate.
Qed.

Lemma splitWhiteSpace_aux_count (s : string) :
  List.length (JS.splitWhiteSpace_aux true s) =
  (List.length (wordsOf s) + if endsWithWord s then 0 else 1)%nat.
Proof.
  induction s as [|c s IH]; [reflexivity|].
  cbn [JS.splitWhiteSpace_aux].
  destruct (JS.isWhiteSpace c) eqn:E.
  - cbn [wordsOf]. rewrite E, IH.
    destruct s as [|d s]; [simpl; rewrite E; reflexivity | reflexivity].
  - rewrite (wordsOf_word c s E), splitWhiteSpace_aux_false.
    destruct s as [|d s]; [simpl; rewrite E; reflexivity|].
    change (endsWithWord (String c (String d s)))
      with (endsWithWord (String d s)).
    simpl startsWithWord.
    destruct (JS.isWhiteSpace d) eqn:D; simpl negb.
    + cbn [List.length]. rewrite IH. reflexivity.
    + pose proof (startsWithWord_wordsOf (String d s)) as W.
      simpl startsWithWord in W. rewrite D in W. specialize (W eq_refl).
      destruct (wordsOf (String d s)) as [|w ws]; [congruence|].
      destruct (endsWithWord (String d s));
        destruct (JS.splitWhiteSpace_aux true (String d s));
        simpl in *; lia.
Qed.

Lemma split_first (s : string) :
  exists piece pieces,
    JS.split s LF = piece :: pieces /\
    startsWithWord piece = startsWithWord s.
Proof.
  destruct s as [|c s]; [exists EmptyString, []; split; reflexivity|].
  simpl. destruct (Ascii.eqb c LF) eqn:E.
  - apply Ascii.eqb_eq in E. subst c. eexists _, _. split; reflexivity.
  - destruct (JS.split s LF); eexists _, _; split; reflexivity.
Qed.

(** The words of a text are the words of its lines, one line after the
    other: a line feed is white space. *)
Lemma wordsOf_lines (s : string) :
  wordsOf s = concat (map wordsOf (JS.split s LF)).
Proof.
  induction s as [|c s IH]; [reflexivity|].
  cbn [JS.split]. destruct (Ascii.eqb c LF) eqn:E.
  - apply Ascii.eqb_eq in E. subst c. exact IH.
  - destruct (split_first s) as (p & ps & Hsplit & Hstart).
    rewrite Hsplit in *. cbn [map concat] in *.
    destruct (JS.isWhiteSpace c) eqn:W.
    + cbn [wordsOf]. rewrite W. exact IH.
    + rewrite !(wordsOf_word c _ W), Hstart, IH.
      destruct (startsWithWord s) eqn:S; [|reflexivity].
      apply startsWithWord_wordsOf in Hstart.
      destruct (wordsOf p); [congruence | reflexivity].
Qed.

Lemma analysedWords_wordsOf (text : string) :
  analysedWords text = wordsOf text.
Proof.
  unfold analysedWords, keptLines. rewrite wordsOf_lines.
  induction (JS.split text LF) as [|line lines IH]; [reflexivity|].
  simpl. destruct (whiteSpaceOnly line) eqn:E; simpl.
  - rewrite (wordsOf_whiteSpaceOnly line E). exact IH.
  - rewrite IH. reflexivity.
Qed.

(** X12.  The [word_count] and [line_count] of the batch and file routes
    are not the counts of what is analysed: [word_count] is the number of
    words analysed plus one for white space at the start of the text and
    one for white space at the end (a final line feed, say), and it is 1
    for the empty text; [line_count] counts the blank lines with the kept
    ones. *)
Theorem counts_against_analysis (text : string) :
  wordCount text
    = Z.of_nat (List.length (analysedWords text)) + emptyPieces text /\
  lineCount text
    = Z.of_nat (List.length (keptLines text))
      + Z.of_nat (List.length (filter whiteSpaceOnly (JS.split text LF))).
Proof.
  split.
  - rewrite analysedWords_wordsOf.
    unfold wordCount, JS.splitWhiteSpace, emptyPieces.
    rewrite splitWhiteSpace_aux_false.
    destruct text as [|c text]; [reflexivity|].
    simpl startsWithWord.
    destruct (JS.isWhiteSpace c); simpl negb; cbn [List.length];
      rewrite splitWhiteSpace_aux_count;
      destruct (endsWithWord (String c text)); lia.
  - unfold lineCount, keptLines.
    induction (JS.split text LF) as [|line lines IH]; [reflexivity|].
    cbn [filter]. destruct (whiteSpaceOnly line); cbn [negb List.length]; lia.
Qed.

(** ** The route [POST /api/process-batch] *)

Lemma forEachIndexed_Forall2 {A B : Type} (f : A -> Z -> option B)
  (xs : list A) (start : Z) (ys : list B) :
  forEachIndexed f xs start = Some ys ->
  List.length ys = List.length xs /\
  forall k x, nth_error xs k = Some x ->
              exists y, nth_error ys k = Some y /\
                        f x (start + Z.of_nat k) = Some y.
Proof.
  revert start ys. induction xs as [|x xs IH]; intros start ys; simpl.
  - intros [= <-]. split; [reflexivity|]. intros k x H. destruct k; discriminate.
  - destruct (f x start) as [y|] eqn:E; cbn [bind]; [|discriminate].
    destruct (forEachIndexed f xs (start + 1)) as [ys'|] eqn:F; cbn [bind];
      [|discriminate].
    intros [= <-]. destruct (IH _ _ F) as [Hlen Hnth].
    split; [simpl; congruence|].
    intros [|k] x' Hk; simpl in Hk.
    + injection Hk as <-. exists y. rewrite Z.add_0_r. auto.
    + destruct (Hnth k x' Hk) as (y' & Hy' & Hf). exists y'.
      split; [exact Hy'|].
      replace (start + Z.of_nat (S k)) with (start + 1 + Z.of_nat k) by lia.
      exact Hf.
Qed.

Lemma forEachIndexed_total {A B : Type} (f : A -> Z -> option B)
  (xs : list A) (start : Z) :
  (forall x index, In x xs -> exists y, f x index = Some y) ->
  exists ys, forEachIndexed f xs start = Some ys.
Proof.
  revert start. induction xs as [|x xs IH]; intros start H; simpl; [eauto|].
  destruct (H x start) as [y ->]; [left; reflexivity|].
  destruct (IH (start + 1)) as [ys ->];
    [intros z i Hz; apply H; right; exact Hz|].
  simpl. eauto.
Qed.

Lemma forEachIndexed_map {A B C : Type} (f : A -> Z -> option B)
  (g : B -> C) (h : A -> C) (xs : list A) (start : Z) (ys : list B) :
  (forall x index y, f x index = Some y -> g y = h x) ->
  forEachIndexed f xs start = Some ys -> map g ys = map h xs.
Proof.
  intros Hgh. revert start ys.
  induction xs as [|x xs IH]; intros start ys; simpl.
  - intros [= <-]. reflexivity.
  - destruct (f x start) as [y|] eqn:E; cbn [bind]; [|discriminate].
    destruct (forEachIndexed f xs (start + 1)) as [ys'|] eqn:F; cbn [bind];
      [|discriminate].
    intros [= <-]. simpl. rewrite (Hgh _ _ _ E), (IH _ _ F). reflexivity.
Qed.

(** [reduce((sum, r) => sum + count(r), 0)] adds the counts up. *)
Lemma reduce_total {A : Type} (count : A -> Z) (xs : list A) (start : Z) :
  fold_left (fun sum r => sum + count r) xs start
  = start + total (map count xs).
Proof.
  revert start. induction xs as [|x xs IH]; intros start; simpl; [lia|].
  rewrite IH. unfold total. lia.
Qed.

(** X13.  [/api/process-batch] answers 400 when [texts] is absent or no
    array, and otherwise, the empty array included, with one record per
    text, in the order of the texts: the record at position [k] has index
    [k] and holds the text, its analysis and its two counts; the summary
    gives the number of texts and the sums of the counts. *)
Theorem processBatch_answers (fuel : nat) (now : string) :
  processBatch fuel now None
    = Some (Failure 400 "Invalid texts array provided") /\
  (forall texts,
      (forall text, In text texts -> (String.length text <= fuel)%nat) ->
      exists body,
        processBatch fuel now (Some texts) = Some (Ok body) /\
        List.length (Batch.results body) = List.length texts /\
        (forall k text,
            nth_error texts k = Some text ->
            exists item,
              nth_error (Batch.results body) k = Some item /\
              Batch.index item = Z.of_nat k /\
              Batch.original_text item = text /\
              analyzeText fuel zuluAnalyzer text
                = Some (Batch.morphological_analysis item) /\
              Batch.word_count item = wordCount text /\
              Batch.line_count item = lineCount text) /\
        Batch.total_texts (Batch.summary body) = Z.of_nat (List.length texts) /\
        Batch.total_words (Batch.summary body) = total (map wordCount texts) /\
        Batch.total_lines (Batch.summary body) = total (map lineCount texts)).
Proof.
  split; [reflexivity|]. intros texts Hfuel. unfold processBatch.
  match goal with
  | |- context [forEachIndexed ?f texts 0] =>
      destruct (forEachIndexed_total f texts 0) as [results E]
  end.
  { intros text index Hin.
    destruct (analyzeText_returns text fuel (Hfuel text Hin)) as [out ->].
    simpl. eauto. }
  rewrite E. cbn [bind]. eexists. split; [reflexivity|].
  cbn [Batch.results Batch.summary Batch.total_texts Batch.total_words
       Batch.total_lines].
  pose proof (forEachIndexed_Forall2 _ _ _ _ E) as [Hlen Hnth].
  split; [exact Hlen|]. split; [|split; [reflexivity|split]].
  - intros k text Hk. destruct (Hnth k text Hk) as (item & Hitem & Hf).
    exists item. split; [exact Hitem|].
    destruct (analyzeText fuel zuluAnalyzer text) as [out|]; [|discriminate].
    cbn [bind] in Hf. injection Hf as <-. simpl. auto.
  - rewrite reduce_total.
    assert (M : map Batch.word_count results = map wordCount texts).
    { eapply forEachIndexed_map; [|exact E].
      intros text index item H. cbn beta in H.
      destruct (analyzeText fuel zuluAnalyzer text); cbn [bind] in H;
        [injection H as <-; reflexivity | discriminate H]. }
    rewrite M. apply Z.add_0_l.
  - rewrite reduce_total.
    assert (M : map Batch.line_count results = map lineCount texts).
    { eapply forEachIndexed_map; [|exact E].
      intros text index item H. cbn beta in H.
      destruct (analyzeText fuel zuluAnalyzer text); cbn [bind] in H;
        [injection H as <-; reflexivity | discriminate H]. }
    rewrite M. apply Z.add_0_l.
Qed.

Lemma processBatch_answers_witness :
  exists body,
    processBatch 5 "2026-01-01T00:00:00.000Z" (Some ["jongo"; ""])
      = Some (Ok body) /\
    Batch.total_words (Batch.summary body) = 2.
Proof.
  destruct (proj2 (processBatch_answers 5 "2026-01-01T00:00:00.000Z")
              ["jongo"; ""]) as (body & H & _ & _ & _ & W & _).
  - intros text [<-|[<-|[]]]; simpl; lia.
  - exists body. split; [exact H | exact W].
Defined.

(** ** The route [POST /api/process-files] *)

Lemma countStatus_partition (results : list Files.FileResult) :
  countStatus "completed" results + countStatus "failed" results
  = Z.of_nat (List.length results).
Proof.
  unfold countStatus. rewrite <- Nat2Z.inj_add. f_equal.
  induction results as [|r results IH]; [reflexivity|].
  destruct r; simpl; rewrite <- IH; lia.
Qed.

Lemma filter_map_length {A B : Type} (p : B -> bool) (f : A -> B)
  (xs : list A) :
  List.length (filter p (map f xs))
  = List.length (filter (fun x => p (f x)) xs).
Proof.
  induction xs as [|x xs IH]; [reflexivity|].
  simpl. destruct (p (f x)); simpl; rewrite IH; reflexivity.
Qed.

Lemma processFile_status (lib : Libraries) (fuel : nat) (timestamp : string)
  (file : UploadedFile) (r : Files.FileResult) :
  processFile lib fuel timestamp file = Some r ->
  Files.status r = if extracts lib file then "completed" else "failed".
Proof.
  unfold processFile, extracts.
  destruct (extractFromFile _ _ _ _) as [text|message].
  - destruct (analyzeText _ _ _); cbn [bind]; [|discriminate].
    intros [= <-]. reflexivity.
  - intros [= <-]. reflexivity.
Qed.

(** X14.  [/api/process-files] keeps the failure of a file to itself.
    Malformed [options] fail the whole request with 500, before the files
    are looked at; without files the answer is 400.  Otherwise the answer
    is a success with one record per file, in the order of the files: a
    file whose text is extracted gets a [completed] record with the text,
    its analysis and its counts, a file whose extraction fails gets a
    [failed] record with the message, and the others are processed all
    the same; [successful] and [failed] add up to [total_files]. *)
Theorem processFiles_isolates_failures (lib : Libraries) (fuel : nat)
  (clock : nat -> string) (options : option string) :
  (forall files message,
      parseOptions lib options = Rejected message ->
      processFiles lib fuel clock files options
        = Some (Failure 500 message)) /\
  (parseOptions lib options = Resolved tt ->
   processFiles lib fuel clock None options
     = Some (Failure 400 "No files uploaded") /\
   processFiles lib fuel clock (Some []) options
     = Some (Failure 400 "No files uploaded")) /\
  (forall files,
      parseOptions lib options = Resolved tt ->
      files <> [] ->
      (forall file text,
          In file files ->
          extractFromFile lib (buffer file) (originalname file)
            (mimetype file) = Resolved text ->
          (String.length text <= fuel)%nat) ->
      exists body,
        processFiles lib fuel clock (Some files) options = Some (Ok body) /\
        Files.success body = true /\
        List.length (Files.processed_files body) = List.length files /\
        (forall k file,
            nth_error files k = Some file ->
            match extractFromFile lib (buffer file) (originalname file)
                    (mimetype file) with
            | Resolved text =>
                exists analysis,
                  analyzeText fuel zuluAnalyzer text = Some analysis /\
                  nth_error (Files.processed_files body) k
                  = Some (Files.Completed (originalname file) (size file)
                            (mimetype file) text analysis (wordCount text)
                            (lineCount text) (clock k))
            | Rejected message =>
                nth_error (Files.processed_files body) k
                = Some (Files.Failed (originalname file) (size file)
                          (mimetype file) message (clock k))
            end) /\
        Files.total_files (Files.summary body)
          = Z.of_nat (List.length files) /\
        Files.successful (Files.summary body)
          = Z.of_nat (List.length (filter (extracts lib) files)) /\
        Files.successful (Files.summary body)
        + Files.failed (Files.summary body)
          = Files.total_files (Files.summary body)).
Proof.
  split; [|split].
  - intros files message H. unfold processFiles. rewrite H. reflexivity.
  - intros H. unfold processFiles. rewrite H. split; reflexivity.
  - intros files Hopt Hne Hfuel. unfold processFiles. rewrite Hopt.
    destruct files as [|f0 files0]; [congruence|]. clear Hne.
    cbv beta iota. set (files := f0 :: files0) in *.
    match goal with
    | |- context [forEachIndexed ?f files 0] =>
        destruct (forEachIndexed_total f files 0) as [results E]
    end.
    { intros file index Hin. unfold processFile.
      destruct (extractFromFile _ _ _ _) as [text|message] eqn:X; [|eauto].
      destruct (analyzeText_returns text fuel (Hfuel file text Hin X))
        as [out ->].
      simpl. eauto. }
    rewrite E. cbn [bind]. eexists. split; [reflexivity|].
    cbn [Files.success Files.processed_files Files.summary Files.total_files
         Files.successful Files.failed].
    pose proof (forEachIndexed_Forall2 _ _ _ _ E) as [Hlen Hnth].
    split; [reflexivity|]. split; [exact Hlen|]. split; [|split; [|split]].
    + intros k file Hk. destruct (Hnth k file Hk) as (r & Hr & Hf).
      cbn beta in Hf. rewrite Z.add_0_l, Nat2Z.id in Hf.
      unfold processFile in Hf.
      destruct (extractFromFile _ _ _ _) as [text|message].
      * destruct (analyzeText fuel zuluAnalyzer text) as [analysis|];
          cbn [bind] in Hf; [|discriminate].
        injection Hf as <-. eauto.
      * injection Hf as <-. exact Hr.
    + reflexivity.
    + unfold countStatus. f_equal.
      assert (M : map Files.status results
                  = map (fun file => if extracts lib file then "completed"
                                     else "failed") files).
      { eapply forEachIndexed_map; [|exact E].
        intros file index r H. cbn beta in H.
        exact (processFile_status _ _ _ _ _ H). }
      rewrite <- (filter_map_length (fun s => String.eqb s "completed")
                    Files.status results).
      rewrite M, filter_map_length. f_equal.
      clear. induction files as [|file files IH]; [reflexivity|].
      simpl. destruct (extracts lib file); simpl; rewrite IH; reflexivity.
    + rewrite countStatus_partition, Hlen. reflexivity.
Qed.

Lemma processFiles_isolates_failures_witness :
  exists body,
    processFiles standIn 5 (fun k => "2026-01-01T00:00:00.000Z")
      (Some [ {| originalname := "a.TXT";
                 buffer := list_byte_of_string "jongo";
                 size := 5; mimetype := "text/plain" |};
              {| originalname := "b.xyz";
                 buffer := list_byte_of_string "jongo";
                 size := 5; mimetype := "text/plain" |} ])
      None = Some (Ok body) /\
    Files.successful (Files.summary body) = 1 /\
    Files.failed (Files.summary body) = 1.
Proof.
  destruct (proj2 (proj2 (processFiles_isolates_failures standIn 5
                            (fun k => "2026-01-01T00:00:00.000Z") None))
              [ {| originalname := "a.TXT";
                   buffer := list_byte_of_string "jongo";
                   size := 5; mimetype := "text/plain" |};
                {| originalname := "b.xyz";
                   buffer := list_byte_of_string "jongo";
                   size := 5; mimetype := "text/plain" |} ])
    as (body & H & _ & _ & _ & T & S & P).
  - reflexivity.
  - discriminate.
  - intros file text [<-|[<-|[]]] X; vm_compute in X;
      [injection X as <-; simpl; lia | discriminate X].
  - exists body. pose proof H as H'. vm_compute in H'. injection H' as <-.
    split; [exact H | split; reflexivity].
Defined.

(** X15.  What [extractFromFile] can end in.  The extension is compared
    in lower case.  For ".txt" and ".csv" it resolves with the decoded
    buffer, whatever the libraries do.  For an extension outside the six
    it knows, the error thrown in the [switch] is caught by the
    function's own [catch], so the message is the unsupported-type message
    behind the failed-to-extract prefix; and every rejection carries that
    prefix with the name of the file.  The MIME type plays no part. *)
Theorem extractFromFile_outcomes (lib : Libraries) (buffer : list Byte.byte)
  (filename mimetype : string) :
  let extension := JS.toLowerCase (path_extname lib filename) in
  (In extension [".txt"; ".csv"] ->
   extractFromFile lib buffer filename mimetype
     = Resolved (Buffer_toString lib buffer)) /\
  (~ In extension [".txt"; ".pdf"; ".doc"; ".docx"; ".json"; ".csv"] ->
   extractFromFile lib buffer filename mimetype
     = Rejected ("Failed to extract text from " ++ filename
                 ++ ": Unsupported file type: " ++ extension)) /\
  (forall message,
      extractFromFile lib buffer filename mimetype = Rejected message ->
      JS.startsWith message ("Failed to extract text from " ++ filename ++ ": ")
        = true) /\
  (forall other,
      extractFromFile lib buffer filename other
        = extractFromFile lib buffer filename mimetype).
Proof.
  intros extension. unfold extractFromFile. fold extension.
  split; [|split; [|split]].
  - intros [E|[E|[]]]; rewrite <- E; reflexivity.
  - intros N. unfold extractByExtension.
    assert (Hneq : forall e, In e [".txt"; ".pdf"; ".doc"; ".docx"; ".json";
                                   ".csv"] ->
                             String.eqb extension e = false).
    { intros e He. apply String.eqb_neq. intros ->. exact (N He). }
    rewrite !Hneq by (simpl; auto 10). reflexivity.
  - intros message.
    destruct (extractByExtension lib buffer extension) as [text|inner];
      [discriminate|].
    intros H.
    assert (B : message
                = ("Failed to extract text from " ++ filename ++ ": ")
                  ++ inner).
    { injection H as <-. cbn [append]. rewrite append_assoc. reflexivity. }
    rewrite B. apply startsWith_refl.
  - reflexivity.
Qed.

(** ** The tag is a string, but for two words *)

Lemma loopBody_tags_are_strings (this : ZuluMorphAnalyzer)
  (remaining : string) :
  Forall (fun m => exists t, tag m = Str t)
         (pushedBy (loopBody this remaining)).
Proof.
  unfold loopBody.
  destruct (checkNounPrefixes _ _) as [[p r]|] eqn:E1.
  { apply checkNounPrefixes_Some in E1
      as (before & q & info & after & _ & _ & _ & -> & _).
    simpl. unfold pushNounPrefix.
    destruct (1 <? JS.length q); [destruct (truthy _)|];
      repeat constructor; simpl; eauto. }
  destruct (checkCommonMorphemes _ _) as [[p r]|] eqn:E2.
  { apply checkCommonMorphemes_Some in E2 as (q & t & _ & _ & -> & _).
    repeat constructor; simpl; eauto. }
  destruct (checkVerbExtensions _ _) as [[p r]|] eqn:E3.
  { apply checkVerbExtensions_Some in E3
      as (before & ext & t & after & _ & _ & _ & -> & _).
    repeat constructor; simpl; eauto. }
  destruct (checkVerbTermination _) as [[p r]|] eqn:E4.
  { apply checkVerbTermination_Some in E4 as (_ & -> & _).
    repeat constructor; simpl; eauto. }
  destruct (checkQuantifiers _ _) as [[p r]|] eqn:E5.
  { apply checkQuantifiers_Some in E5 as (t & _ & -> & _).
    repeat constructor; simpl; eauto. }
  repeat constructor; simpl; eauto.
Qed.

(** A read of the vocabulary at a lower-case key yields a string or
    nothing, unless the key is one of the two inherited names. *)
Lemma vocabulary_read (word : string) :
  let key := JS.toLowerCase word in
  (exists t, get (vocabulary zuluAnalyzer) key = Str t) \/
  get (vocabulary zuluAnalyzer) key = Undefined \/
  In key inheritedNames.
Proof.
  intros key. pose proof (toLowerCase_noCapital word) as Hlow.
  fold key in Hlow. clearbody key.
  destruct (get_cases (vocabulary zuluAnalyzer) key)
    as [(s & Hs & _)|[(v & _ & Hin)|Hu]]; [eauto | | auto].
  right. right. unfold Object_prototype, inheritedNames in *.
  table_cases Hin.
Qed.

(** X16.  The tag of a returned morpheme is a string, except when the
    lower-case word is "constructor" or "__proto__": for these two, and
    only for them, the vocabulary check returns one morpheme whose tag is
    what [Object.prototype] holds under that name. *)
Theorem tags_are_strings_but_for_inherited_names (word : string)
  (fuel : nat) (result : list Morpheme) (m : Morpheme) :
  analyzeWord fuel zuluAnalyzer word = Some result ->
  In m result ->
  ((exists t, tag m = Str t) <-> ~ In (JS.toLowerCase word) inheritedNames) /\
  (In (JS.toLowerCase word) inheritedNames ->
   result = [{| morph := JS.toLowerCase word;
                tag := get (vocabulary zuluAnalyzer) (JS.toLowerCase word) |}]).
Proof.
  intros H Hin.
  assert (Inherited : In (JS.toLowerCase word) inheritedNames ->
            result = [{| morph := JS.toLowerCase word;
                         tag := get (vocabulary zuluAnalyzer)
                                  (JS.toLowerCase word) |}] /\
            ~ exists t, tag m = Str t).
  { intros Hname. revert H. unfold analyzeWord.
    destruct (isPunctuation word) eqn:P.
    { apply isPunctuation_length in P. unfold JS.length in P.
      rewrite <- toLowerCase_length in P. exfalso.
      destruct Hname as [E|[E|[]]]; rewrite <- E in P; discriminate P. }
    assert (T : truthy (get (vocabulary zuluAnalyzer) (JS.toLowerCase word))
                = true)
      by (destruct Hname as [E|[E|[]]]; rewrite <- E; reflexivity).
    rewrite T. intros [= <-]. split; [reflexivity|].
    destruct Hin as [<-|[]]. intros [t Ht]. simpl in Ht.
    destruct Hname as [E|[E|[]]]; rewrite <- E in Ht; discriminate Ht. }
  split; [split|].
  - intros Hstr Hname. destruct (Inherited Hname) as [_ N]. exact (N Hstr).
  - intros Hname. clear Inherited. revert H. unfold analyzeWord.
    destruct (isPunctuation word).
    { intros [= <-]. destruct Hin as [<-|[]]. simpl. eauto. }
    destruct (truthy _) eqn:T.
    { intros [= <-]. destruct Hin as [<-|[]]. simpl.
      destruct (vocabulary_read word) as [Hs|[Hu|Hi]];
        [exact Hs | rewrite Hu in T; discriminate T | contradiction]. }
    destruct (_ && _).
    { intros [= <-]. destruct Hin as [<-|[]]. simpl. eauto. }
    destruct (whileLoop _ _ _ _) as [ms|] eqn:E; [|discriminate].
    intros [= <-].
    destruct (0 <? Z.of_nat (List.length ms)).
    + apply (whileLoop_Forall zuluAnalyzer
               (fun m => exists t, tag m = Str t)) in E.
      * rewrite Forall_forall in E. exact (E m Hin).
      * intros r _. apply loopBody_tags_are_strings.
      * constructor.
    + destruct Hin as [<-|[]]. simpl. eauto.
  - intros Hname. destruct (Inherited Hname) as [R _]. exact R.
Qed.

Lemma tags_are_strings_but_for_inherited_names_witness :
  ((exists t, tag {| morph := "__proto__"; tag := ObjectPrototype |} = Str t)
   <-> ~ In (JS.toLowerCase "__PROTO__") inheritedNames) /\
  (In (JS.toLowerCase "__PROTO__") inheritedNames ->
   [{| morph := "__proto__"; tag := ObjectPrototype |}]
   = [{| morph := JS.toLowerCase "__PROTO__";
         tag := get (vocabulary zuluAnalyzer) (JS.toLowerCase "__PROTO__") |}]).
Proof.
  apply (tags_are_strings_but_for_inherited_names "__PROTO__" 0
           [{| morph := "__proto__"; tag := ObjectPrototype |}]).
  - reflexivity.
  - left. reflexivity.
Defined.

(** ** White space does not matter *)

Lemma renderLines_wordLists (analyze : string -> option (list Morpheme))
  (next : Z) (lines : list string) :
  forEach (renderLine analyze) (numberKeptLines next lines)
  = renderWordLists analyze next
      (map wordsOf (filter (fun line => negb (whiteSpaceOnly line)) lines)).
Proof.
  revert next. induction lines as [|line lines IH]; intros next; [reflexivity|].
  cbn [numberKeptLines filter].
  destruct (whiteSpaceOnly line); cbn [negb]; [apply IH|].
  cbn [forEach map renderWordLists]. unfold renderLine at 1. cbn [fst snd].
  rewrite IH.
  destruct (forEach analyze (wordsOf line)); cbn [bind]; [|reflexivity].
  destruct (renderWordLists _ _ _); reflexivity.
Qed.

(** X17.  The output of [analyzeText] depends on the text only through
    the words of its kept lines: the amount and kind of white space
    between words, white space at the ends of a line, blank lines and the
    number of line feeds between two kept lines make no difference. *)
Theorem analyzeText_ignores_white_space (this : ZuluMorphAnalyzer)
  (fuel : nat) (text1 text2 : string) :
  map wordsOf (keptLines text1) = map wordsOf (keptLines text2) ->
  analyzeText fuel this text1 = analyzeText fuel this text2.
Proof.
  intros H. rewrite !analyzeText_refines. unfold analyzeText_spec.
  rewrite !renderLines_wordLists. unfold keptLines in H. rewrite H.
  reflexivity.
Qed.

Lemma analyzeText_ignores_white_space_witness :
  analyzeText 9 zuluAnalyzer
    (String LF ("  abantu   bakhona " ++ String LF (String LF " jongo")))
  = analyzeText 9 zuluAnalyzer ("abantu bakhona" ++ String LF "jongo").
Proof.
  apply (analyzeText_ignores_white_space zuluAnalyzer 9). reflexivity.
Defined.

(** * Calls of [analyzeWord] on the heap *)

Lemma whileLoop_accumulates (this : ZuluMorphAnalyzer) (fuel : nat) :
  forall (remaining : string) (morphemes : list Morpheme),
    whileLoop fuel this remaining morphemes =
    match whileLoop fuel this remaining [] with
    | Some pushed => Some (morphemes ++ pushed)%list
    | None => None
    end.
Proof.
  induction fuel as [|fuel IH]; intros remaining morphemes.
  - destruct remaining as [|c r].
    + rewrite !whileLoop_empty, app_nil_r. reflexivity.
    + rewrite !whileLoop_no_fuel by discriminate. reflexivity.
  - destruct remaining as [|c r].
    + rewrite !whileLoop_empty, app_nil_r. reflexivity.
    + rewrite !whileLoop_step by discriminate.
      destruct (loopBody this (String c r)) as [pushed remaining'|pushed];
        [|reflexivity].
      cbn [app]. rewrite (IH remaining' (morphemes ++ pushed)%list).
      rewrite (IH remaining' pushed).
      destruct (whileLoop fuel this remaining' []); [|reflexivity].
      rewrite app_assoc. reflexivity.
Qed.

Lemma bind_run {A B : Type} (m : Heap.M A) (k : A -> Heap.M B)
  (s : Heap.Store) (a : A) (s' : Heap.Store) :
  m s = Some (a, s') -> Heap.bind m k s = k a s'.
Proof. intros H. unfold Heap.bind. rewrite H. reflexivity. Qed.

Lemma bind_fail {A B : Type} (m : Heap.M A) (k : A -> Heap.M B)
  (s : Heap.Store) :
  m s = None -> Heap.bind m k s = None.
Proof. intros H. unfold Heap.bind. rewrite H. reflexivity. Qed.

Lemma newObjects_run (ms : list Morpheme) (s : Heap.Store) :
  Heap.newObjects ms s
  = Some (seq (List.length s) (List.length ms),
          (s ++ map Heap.Object ms)%list).
Proof.
  revert s. induction ms as [|m ms IH]; intros s.
  - cbn. unfold Heap.ret. rewrite app_nil_r. reflexivity.
  - cbn [Heap.newObjects]. unfold Heap.bind, Heap.newObject, Heap.alloc.
    rewrite IH. unfold Heap.ret. rewrite length_app, <- app_assoc.
    cbn [List.length app map seq]. rewrite Nat.add_1_r. reflexivity.
Qed.

Lemma objectsAt_seq (ms : list Morpheme) :
  forall pre post : Heap.Store,
    Heap.objectsAt (pre ++ map Heap.Object ms ++ post)%list
      (seq (List.length pre) (List.length ms)) = Some ms.
Proof.
  induction ms as [|m ms IH]; intros pre post; [reflexivity|].
  cbn [List.length seq Heap.objectsAt map app].
  unfold Heap.objectAt. rewrite nth_error_app2 by lia.
  rewrite Nat.sub_diag. cbn [nth_error].
  specialize (IH (pre ++ [Heap.Object m])%list post).
  rewrite length_app, <- app_assoc in IH. cbn [List.length app] in IH.
  rewrite Nat.add_1_r in IH. rewrite IH. reflexivity.
Qed.

Lemma objectsAt_app (s new : Heap.Store) (os : list Heap.Ref)
  (ms : list Morpheme) :
  Heap.objectsAt s os = Some ms -> Heap.objectsAt (s ++ new)%list os = Some ms.
Proof.
  revert ms. induction os as [|o os IH]; intros ms; [exact (fun H => H)|].
  cbn [Heap.objectsAt]. unfold Heap.objectAt.
  destruct (nth_error s o) as [c|] eqn:E; [|discriminate].
  rewrite nth_error_app1 by (apply nth_error_Some; congruence).
  rewrite E. destruct c as [t|m|items]; try discriminate.
  destruct (Heap.objectsAt s os) as [ms'|]; [|discriminate].
  rewrite (IH ms' eq_refl). exact (fun H => H).
Qed.

Lemma contents_app (s new : Heap.Store) (array : Heap.Ref)
  (ms : list Morpheme) :
  Heap.contents s array = Some ms ->
  Heap.contents (s ++ new)%list array = Some ms /\ (array < List.length s)%nat.
Proof.
  unfold Heap.contents.
  destruct (nth_error s array) as [c|] eqn:E; [|discriminate].
  assert (L : (array < List.length s)%nat)
    by (apply nth_error_Some; congruence).
  rewrite nth_error_app1 by exact L. rewrite E.
  destruct c as [t|m|items]; try discriminate.
  intros H. split; [apply objectsAt_app; exact H | exact L].
Qed.

Lemma tablesAt_app (s new : Heap.Store) (this : Heap.Ref)
  (tables : ZuluMorphAnalyzer) :
  Heap.tablesAt s this = Some tables ->
  Heap.tablesAt (s ++ new)%list this = Some tables.
Proof.
  unfold Heap.tablesAt.
  destruct (nth_error s this) as [c|] eqn:E; [|discriminate].
  rewrite nth_error_app1 by (apply nth_error_Some; congruence).
  rewrite E. exact (fun H => H).
Qed.

Lemma fieldsOf_run (s new : Heap.Store) (this : Heap.Ref)
  (tables : ZuluMorphAnalyzer) :
  Heap.tablesAt s this = Some tables ->
  Heap.fieldsOf this (s ++ new)%list = Some (tables, (s ++ new)%list).
Proof.
  intros H. apply (tablesAt_app s new) in H. revert H.
  unfold Heap.tablesAt, Heap.fieldsOf, Heap.bind, Heap.read.
  destruct (nth_error (s ++ new)%list this) as [[t|m|items]|]; try discriminate.
  intros [= ->]. reflexivity.
Qed.

Lemma forallb_seq_le (n start k : nat) :
  (n <= start)%nat -> forallb (fun o => (n <=? o)%nat) (seq start k) = true.
Proof.
  revert start. induction k as [|k IH]; intros start H; [reflexivity|].
  cbn [seq forallb]. rewrite IH by lia.
  destruct (Nat.leb_spec n start); [reflexivity | lia].
Qed.

(** An array literal is a new array of new objects, and leaves the cells
    that were there as they were. *)
Lemma arrayLiteral_fresh (ms : list Morpheme) (s extra : Heap.Store) :
  exists r new,
    Heap.arrayLiteral ms (s ++ extra)%list = Some (r, (s ++ new)%list) /\
    Heap.contents (s ++ new)%list r = Some ms /\
    Heap.freshIn s (s ++ new)%list r = true.
Proof.
  set (s0 := (s ++ extra)%list).
  set (os := seq (List.length s0) (List.length ms)).
  exists (List.length s0 + List.length ms)%nat,
         (extra ++ map Heap.Object ms ++ [Heap.Array os])%list.
  assert (S0 : (s ++ extra ++ map Heap.Object ms ++ [Heap.Array os])%list
               = (s0 ++ map Heap.Object ms ++ [Heap.Array os])%list)
    by (unfold s0; rewrite <- app_assoc; reflexivity).
  rewrite S0.
  assert (N : nth_error (s0 ++ map Heap.Object ms ++ [Heap.Array os])%list
                (List.length s0 + List.length ms) = Some (Heap.Array os)).
  { rewrite nth_error_app2 by lia.
    rewrite nth_error_app2 by (rewrite length_map; lia).
    rewrite length_map.
    replace (List.length s0 + List.length ms - List.length s0
             - List.length ms)%nat with 0%nat by lia.
    reflexivity. }
  split; [|split].
  - unfold Heap.arrayLiteral, Heap.bind. rewrite newObjects_run.
    unfold Heap.alloc. rewrite length_app, length_map, <- app_assoc.
    reflexivity.
  - unfold Heap.contents. rewrite N. apply objectsAt_seq.
  - unfold Heap.freshIn. rewrite N.
    assert (L : (List.length s <= List.length s0)%nat)
      by (unfold s0; rewrite length_app; lia).
    unfold os. rewrite forallb_seq_le by exact L. rewrite andb_true_r.
    apply Nat.leb_le. lia.
Qed.

Lemma update_at (pre post : Heap.Store) (c0 c : Heap.Cell) :
  Heap.update (List.length pre) c (pre ++ c0 :: post)%list
  = (pre ++ c :: post)%list.
Proof.
  induction pre as [|p pre IH]; [reflexivity|].
  cbn [List.length app Heap.update]. rewrite IH. reflexivity.
Qed.

Lemma pushedTo_nil (pre : Heap.Store) (items : list Heap.Ref)
  (mid : Heap.Store) :
  Heap.pushedTo pre items mid [] = (pre ++ Heap.Array items :: mid)%list.
Proof. unfold Heap.pushedTo. cbn. rewrite !app_nil_r. reflexivity. Qed.

Lemma pushedTo_app (pre : Heap.Store) (items : list Heap.Ref)
  (mid : Heap.Store) (a b : list Morpheme) :
  Heap.pushedTo pre
    (items ++ seq (List.length pre + S (List.length mid)) (List.length a))%list
    (mid ++ map Heap.Object a)%list b
  = Heap.pushedTo pre items mid (a ++ b)%list.
Proof.
  unfold Heap.pushedTo.
  rewrite !length_app, length_map, map_app, seq_app, <- !app_assoc.
  replace (List.length pre + S (List.length mid + List.length a))%nat
    with (List.length pre + S (List.length mid) + List.length a)%nat by lia.
  reflexivity.
Qed.

(** Pushing touches the array and adds the new objects at the end. *)
Lemma pushAll_run (ms : list Morpheme) :
  forall (pre : Heap.Store) (items : list Heap.Ref) (mid : Heap.Store),
    Heap.pushAll (List.length pre) ms (pre ++ Heap.Array items :: mid)%list
    = Some (tt, Heap.pushedTo pre items mid ms).
Proof.
  induction ms as [|m ms IH]; intros pre items mid.
  - rewrite pushedTo_nil. reflexivity.
  - cbn [Heap.pushAll].
    unfold Heap.bind at 1, Heap.push, Heap.bind, Heap.newObject, Heap.alloc,
      Heap.read, Heap.write.
    rewrite <- app_assoc. cbn [app].
    rewrite nth_error_app2 by lia. rewrite Nat.sub_diag. cbn [nth_error].
    rewrite update_at, IH.
    assert (L : List.length (pre ++ Heap.Array items :: mid)%list
                = (List.length pre + S (List.length mid))%nat)
      by (rewrite length_app; reflexivity).
    rewrite L.
    exact (f_equal (fun s => Some (tt, s))
             (pushedTo_app pre items mid [m] ms)).
Qed.

(** The loop on the heap pushes onto its array what the loop of the
    tables at [this] yields, and returns exactly when that one does. *)
Lemma heap_whileLoop_run (this : Heap.Ref) (tables : ZuluMorphAnalyzer)
  (fuel : nat) :
  forall (remaining : string) (pre : Heap.Store) (items : list Heap.Ref)
         (mid : Heap.Store),
    Heap.tablesAt pre this = Some tables ->
    Heap.whileLoop fuel this (List.length pre) remaining
      (pre ++ Heap.Array items :: mid)%list
    = match whileLoop fuel tables remaining [] with
      | Some added => Some (tt, Heap.pushedTo pre items mid added)
      | None => None
      end.
Proof.
  induction fuel as [|fuel IH]; intros remaining pre items mid Ht.
  - destruct remaining as [|c r].
    + rewrite whileLoop_empty, pushedTo_nil. reflexivity.
    + rewrite whileLoop_no_fuel by discriminate.
      cbn [Heap.whileLoop].
      rewrite (proj2 (length_positive (String c r))) by discriminate. reflexivity.
  - destruct remaining as [|c r].
    + rewrite whileLoop_empty, pushedTo_nil. reflexivity.
    + rewrite whileLoop_step by discriminate.
      cbn [Heap.whileLoop].
      rewrite (proj2 (length_positive (String c r))) by discriminate.
      unfold Heap.bind at 1. rewrite (fieldsOf_run pre _ this tables Ht).
      destruct (loopBody tables (String c r)) as [pushed remaining'|pushed].
      * unfold Heap.bind. rewrite pushAll_run.
        cbn [app]. rewrite (whileLoop_accumulates tables fuel remaining' pushed).
        unfold Heap.pushedTo at 1. rewrite (IH remaining' pre _ _ Ht).
        destruct (whileLoop fuel tables remaining' []) as [added|];
          [|reflexivity].
        rewrite pushedTo_app. reflexivity.
      * rewrite pushAll_run. reflexivity.
Qed.

(** A call on the heap returns exactly when the analysis by the tables at
    [this] does.  It then returns a new array of new objects that stands
    for that analysis, and every cell that was in the store is as it
    was. *)
Lemma heap_analyzeWord_run (this : Heap.Ref) (tables : ZuluMorphAnalyzer)
  (fuel : nat) (word : string) (s : Heap.Store) :
  Heap.tablesAt s this = Some tables ->
  match analyzeWord fuel tables word with
  | Some result =>
      exists r new,
        Heap.analyzeWord fuel this word s = Some (r, (s ++ new)%list) /\
        Heap.contents (s ++ new)%list r = Some result /\
        Heap.freshIn s (s ++ new)%list r = true
  | None => Heap.analyzeWord fuel this word s = None
  end.
Proof.
  intros Ht. unfold analyzeWord, Heap.analyzeWord. cbv zeta.
  rewrite (bind_run _ _ s _ _ eq_refl).
  destruct (isPunctuation word); [apply arrayLiteral_fresh|].
  rewrite (bind_run _ _ _ _ _ (fieldsOf_run s _ this tables Ht)).
  destruct (truthy _).
  { rewrite (bind_run _ _ _ _ _ (fieldsOf_run s _ this tables Ht)).
    apply arrayLiteral_fresh. }
  destruct (_ && _); [apply arrayLiteral_fresh|].
  pose proof (heap_whileLoop_run this tables fuel (JS.toLowerCase word)
                s [] [] Ht) as W.
  destruct (whileLoop fuel tables (JS.toLowerCase word) []) as [added|];
    [|apply bind_fail; exact W].
  rewrite (bind_run _ _ _ _ _ W).
  set (items := seq (List.length s + 1) (List.length added)).
  assert (P : Heap.pushedTo s [] [] added
              = (s ++ Heap.Array items :: map Heap.Object added)%list)
    by reflexivity.
  rewrite P.
  assert (N : nth_error (s ++ Heap.Array items :: map Heap.Object added)%list
                (List.length s) = Some (Heap.Array items)).
  { rewrite nth_error_app2 by lia. rewrite Nat.sub_diag. reflexivity. }
  assert (Li : List.length items = List.length added)
    by (unfold items; apply length_seq).
  assert (Ln : Heap.lengthOf (List.length s)
                 (s ++ Heap.Array items :: map Heap.Object added)%list
               = Some (Z.of_nat (List.length added),
                       (s ++ Heap.Array items :: map Heap.Object added)%list)).
  { unfold Heap.lengthOf, Heap.bind, Heap.read. rewrite N.
    cbv beta iota. unfold Heap.ret. do 3 f_equal. exact Li. }
  rewrite (bind_run _ _ _ _ _ Ln).
  destruct (0 <? Z.of_nat (List.length added)); [|apply arrayLiteral_fresh].
  exists (List.length s), (Heap.Array items :: map Heap.Object added).
  split; [reflexivity|]. split.
  - unfold Heap.contents. rewrite N.
    pose proof (objectsAt_seq added (s ++ [Heap.Array items])%list []) as O.
    rewrite length_app, <- app_assoc, app_nil_r in O. exact O.
  - unfold Heap.freshIn. rewrite N. unfold items.
    rewrite forallb_seq_le by lia. rewrite Nat.leb_refl. reflexivity.
Qed.

(** On the declared tables a call with fuel for the length of the word
    returns, whatever else the store holds. *)
Lemma heap_analyzeWord_returns (this : Heap.Ref) (fuel : nat) (word : string)
  (s : Heap.Store) :
  Heap.tablesAt s this = Some zuluAnalyzer ->
  (String.length word <= fuel)%nat ->
  exists r s', Heap.analyzeWord fuel this word s = Some (r, s').
Proof.
  intros Ht Hfuel.
  pose proof (heap_analyzeWord_run this zuluAnalyzer fuel word s Ht) as R.
  destruct (analyzeWord_returns word fuel Hfuel) as (result & E & _).
  rewrite E in R. destruct R as (r & new & R & _). eauto.
Qed.

(** C8.  [analyzeWord] is deterministic and shares no mutable state
    between calls.  A call that returns stands for the analysis that the
    word and the tables at [this] fix; it writes to no cell that was in
    the store, and what it returns is a new array of new objects.  The
    same call made again in the store the first one left returns another
    array that stands for the same sequence, and the first array still
    does.  A call in any other store that holds the same tables at
    [this], whatever its other cells hold and whatever fuel it is given,
    stands for the same sequence when it returns. *)
Theorem analyzeWord_deterministic (this : Heap.Ref)
  (tables : ZuluMorphAnalyzer) (word : string) (fuel : nat)
  (s s' : Heap.Store) (r : Heap.Ref) :
  Heap.tablesAt s this = Some tables ->
  Heap.analyzeWord fuel this word s = Some (r, s') ->
  exists result new,
    analyzeWord fuel tables word = Some result /\
    Heap.contents s' r = Some result /\
    s' = (s ++ new)%list /\
    Heap.freshIn s s' r = true /\
    (exists r2 s'',
        Heap.analyzeWord fuel this word s' = Some (r2, s'') /\
        r2 <> r /\
        Heap.contents s'' r2 = Some result /\
        Heap.contents s'' r = Some result /\
        Heap.tablesAt s'' this = Some tables) /\
    (forall other fuel' r' other',
        Heap.tablesAt other this = Some tables ->
        Heap.analyzeWord fuel' this word other = Some (r', other') ->
        Heap.contents other' r' = Some result).
Proof.
  intros Ht Hcall.
  pose proof (heap_analyzeWord_run this tables fuel word s Ht) as R.
  destruct (analyzeWord fuel tables word) as [result|] eqn:P;
    [|congruence].
  destruct R as (r0 & new & R & Hc & Hf).
  rewrite R in Hcall. injection Hcall as <- <-.
  exists result, new.
  repeat split; try assumption.
  - pose proof (tablesAt_app s new this tables Ht) as Ht'.
    pose proof (heap_analyzeWord_run this tables fuel word _ Ht') as R2.
    rewrite P in R2. destruct R2 as (r2 & new2 & R2 & Hc2 & Hf2).
    exists r2, ((s ++ new) ++ new2)%list.
    destruct (contents_app _ new2 _ _ Hc) as [Hc' Hlt].
    unfold Heap.freshIn in Hf2. apply andb_true_iff in Hf2 as [Hle _].
    apply Nat.leb_le in Hle.
    repeat split; try assumption.
    + lia.
    + apply tablesAt_app. exact Ht'.
  - intros other fuel' r' other' Ht2 Hcall2.
    pose proof (heap_analyzeWord_run this tables fuel' word other Ht2) as R2.
    destruct (analyzeWord fuel' tables word) as [result2|] eqn:P2;
      [|congruence].
    destruct R2 as (r2 & new2 & R2 & Hc2 & _).
    rewrite R2 in Hcall2. injection Hcall2 as <- <-.
    rewrite (analyzeWord_any_fuel tables word fuel fuel' result result2 P P2).
    exact Hc2.
Qed.

Lemma analyzeWord_deterministic_witness :
  exists r s',
    Heap.analyzeWord 3 0%nat "ngiyabonga" [Heap.Instance zuluAnalyzer]
      = Some (r, s') /\
    exists result new,
      analyzeWord 3 zuluAnalyzer "ngiyabonga" = Some result /\
      Heap.contents s' r = Some result /\
      s' = ([Heap.Instance zuluAnalyzer] ++ new)%list /\
      Heap.freshIn [Heap.Instance zuluAnalyzer] s' r = true /\
      (exists r2 s'',
          Heap.analyzeWord 3 0%nat "ngiyabonga" s' = Some (r2, s'') /\
          r2 <> r /\
          Heap.contents s'' r2 = Some result /\
          Heap.contents s'' r = Some result /\
          Heap.tablesAt s'' 0%nat = Some zuluAnalyzer) /\
      (forall other fuel' r' other',
          Heap.tablesAt other 0%nat = Some zuluAnalyzer ->
          Heap.analyzeWord fuel' 0%nat "ngiyabonga" other = Some (r', other') ->
          Heap.contents other' r' = Some result).
Proof.
  eexists. eexists. split; [vm_compute; reflexivity|].
  apply (analyzeWord_deterministic 0%nat zuluAnalyzer "ngiyabonga" 3
           [Heap.Instance zuluAnalyzer]); reflexivity.
Defined.
